(** * Trade extraction from order-book snapshots (extract_trades.py)

    A shallow embedding of [src/extract_trades.py] and the properties of
    its batch accumulator, volume-threshold estimator, snapshot diff and
    trade writer.

    Conventions of the embedding.
    - A pandas DataFrame is the list of its rows, in row order; a row is
      a record holding the columns the program reads.
    - Python [int] is [Z] (unbounded); numpy [float64] is Rocq's primitive
      binary64 [float], whose single [nan] stands for every NaN.
    - The integer columns of a frame are [int64] columns: a frame holds
      integers of the range -2^63 .. 2^63 - 1, and arithmetic on two
      values of a column wraps around modulo 2^64.
    - A Python [set] is a [gset]; iterating it is [elements], whose order
      is fixed but unspecified, like the hash order of the source.
    - A Python [dict] is a [gmap].
    - Exceptions are the [Raise] case of [result]; the closure variables
      of [extract_trades] and the output file are threaded through a
      state-and-exception monad.
    - Snapshot times are integers (epoch milliseconds), calendar dates are
      day numbers.
    - An [Order] object of the market data library is named by its
      address; the entries its [__dict__] receives are kept in a map from
      addresses, so that two references to one object share them.
    - The bulk file is the list of its bytes, the file object a position
      in it.
    - The progress marks printed on stdout are not modelled. *)

From Stdlib Require Import ZArith Floats Ascii.
From stdpp Require Import gmap strings list sorting pretty.

Open Scope Z_scope.

(** ** Python values *)

Inductive exn := IndexError | ValueError | KeyError.

Inductive result (A : Type) :=
  | Ok (a : A)
  | Raise (e : exn).
Arguments Ok {A} a.
Arguments Raise {A} e.

Definition rbind {A B} (m : result A) (k : A → result B) : result B :=
  match m with
  | Ok a => k a
  | Raise e => Raise e
  end.

Notation "'try!' x ← m ; k" := (rbind m (λ x, k))
  (at level 20, x name, m at level 100, k at level 200, right associativity).

(** A number that is either a Python [int] or a [float64]: the threshold
    map holds the literal [0] for an empty series and a float otherwise. *)
Inductive pynum :=
  | PyInt (z : Z)
  | PyFloat (f : float).

(** Conversion of an integer to [float64], rounding to nearest even. *)
Definition float_of_Z (z : Z) : float :=
  SF2Prim (binary_normalize prec emax z 0 false).

(** [v <= t] for an integer [v]: integer comparison against an [int],
    comparison in binary64 against a float. *)
Definition py_le (v : Z) (t : pynum) : bool :=
  match t with
  | PyInt z => bool_decide (v ≤ z)
  | PyFloat f => PrimFloat.leb (float_of_Z v) f
  end.

(** A stable sort by an integer key: [list.sort(key=...)]. *)
Section py_sort.
Context {A : Type} (key : A → Z).

Fixpoint insert_by (x : A) (l : list A) : list A :=
  match l with
  | [] => [x]
  | y :: l' =>
      if bool_decide (key x ≤ key y) then x :: y :: l' else y :: insert_by x l'
  end.

Definition sort_by (l : list A) : list A := foldr insert_by [] l.
End py_sort.

(** [list(s); .sort()] for a set of integers. *)
Definition sorted_elements (s : gset Z) : list Z := sort_by id (elements s).

(** ** DataFrame rows *)

(** A row of an order-book DataFrame: the order's attributes and the
    columns [date], [type_id], [region_id] added by [read_bulk_file].
    The index of the frame is the [date] column. *)
Record order_row := {
  date : Z;
  type_id : Z;
  region_id : Z;
  order_id : Z;
  buy : bool;
  price : float;
  volume : Z;
  order_range : string;
  location_id : Z
}.

(** A row of the market-history DataFrame. *)
Record history_row := {
  h_date : Z;
  h_type_id : Z;
  h_region_id : Z;
  h_volume : Z
}.

(** An inferred trade (the dict appended to [inferred_trades]). *)
Record trade := {
  t_timestamp : Z;
  t_region_id : Z;
  t_type_id : Z;
  t_actual : bool;
  t_buy : bool;
  t_order_id : Z;
  t_price : float;
  t_volume : Z;
  t_location : string
}.

(** ** get_market_history *)

(** [pd.date_range(start, end)]: the days from [start] to [end], both
    included. *)
Definition date_range (start stop : Z) : list Z :=
  (λ i : nat, start + Z.of_nat i) <$> seq 0 (Z.to_nat (stop - start + 1)).

(** The local [date_range] of [get_market_history]. *)
Definition history_date_range (history_date : Z) : list Z :=
  date_range (history_date - 6) (history_date - 1).

Section history.
(** [MarketHistory.get_data_frame(dates, types, regions)], a local lookup
    outside this file. *)
Variable get_data_frame : list Z → list Z → list Z → list history_row.

Definition get_market_history (history_date : Z) (types regions : list Z)
  : list history_row :=
  get_data_frame (history_date_range history_date) types regions.
End history.

(** ** infer_trades: volume thresholds *)

(** [threshold_ratio = 0.04]; the literal is the binary64 value nearest to
    0.04, which is what the Python literal denotes. *)
Definition threshold_ratio : float := 0x1.47ae147ae147bp-5%float.

(** [series.rolling(window=w, center=False).mean()] as pandas computes
    it for a fixed window: the values are converted to [float64] and one
    running sum is kept over the whole series, to which a value is added
    when it enters the window and from which it is subtracted when it
    leaves, both with Kahan compensation (pandas' [roll_mean], as of
    pandas 1.5; before 1.5 a window of equal values has no shortcut and
    before 1.2 the sum is not compensated, which changes no result while
    the sums of the volumes are exact in binary64). The state of that
    loop: *)
Record mean_state := {
  nobs : Z;
  sum_x : float;
  neg_ct : Z;
  compensation_add : float;
  compensation_remove : float;
  num_consecutive_same_value : Z;
  prev_value : float
}.

(** [add_mean]: a value enters the window ([val == val] excludes NaN;
    [get_sign] is [signbit]). *)
Definition add_mean (st : mean_state) (val : float) : mean_state :=
  if PrimFloat.eqb val val then
    let y := PrimFloat.sub val (compensation_add st) in
    let t := PrimFloat.add (sum_x st) y in
    {| nobs := nobs st + 1;
       sum_x := t;
       neg_ct := if get_sign val then neg_ct st + 1 else neg_ct st;
       compensation_add := PrimFloat.sub (PrimFloat.sub t (sum_x st)) y;
       compensation_remove := compensation_remove st;
       num_consecutive_same_value :=
         if PrimFloat.eqb val (prev_value st)
         then num_consecutive_same_value st + 1 else 1;
       prev_value := val |}
  else st.

(** [remove_mean]: a value leaves the window. *)
Definition remove_mean (st : mean_state) (val : float) : mean_state :=
  if PrimFloat.eqb val val then
    let y := PrimFloat.sub (PrimFloat.opp val) (compensation_remove st) in
    let t := PrimFloat.add (sum_x st) y in
    {| nobs := nobs st - 1;
       sum_x := t;
       neg_ct := if get_sign val then neg_ct st - 1 else neg_ct st;
       compensation_add := compensation_add st;
       compensation_remove := PrimFloat.sub (PrimFloat.sub t (sum_x st)) y;
       num_consecutive_same_value := num_consecutive_same_value st;
       prev_value := prev_value st |}
  else st.

(** [calc_mean]: NaN while fewer than [minp] values are in the window;
    else the running sum divided by the number of values, replaced by the
    last value when all values of the window are equal to it, and by 0
    when its sign contradicts the signs of the values. *)
Definition calc_mean (minp : Z) (st : mean_state) : float :=
  if bool_decide (minp ≤ nobs st) && bool_decide (0 < nobs st) then
    let result := PrimFloat.div (sum_x st) (float_of_Z (nobs st)) in
    if bool_decide (nobs st ≤ num_consecutive_same_value st) then
      prev_value st
    else if bool_decide (neg_ct st = 0) && PrimFloat.ltb result 0 then 0%float
    else if bool_decide (neg_ct st = nobs st) && PrimFloat.ltb 0 result
    then 0%float
    else result
  else nan.

(** The state set up at the start of a window that shares nothing with
    the previous one. *)
Definition mean_setup (first : float) : mean_state :=
  {| nobs := 0; sum_x := 0; neg_ct := 0; compensation_add := 0;
     compensation_remove := 0; num_consecutive_same_value := 0;
     prev_value := first |}.

(** [values[a:b]]. *)
Definition slice_values (values : list float) (a b : nat) : list float :=
  take (b - a) (drop a values).

(** The bounds of the window of position [i]: [start[i]] and [end[i]] of
    the fixed-window indexer. *)
Definition window_start (w i : nat) : nat := (S i - w)%nat.
Definition window_end (i : nat) : nat := S i.

(** One turn of the loop of [roll_mean] over the positions, on the state
    and the output so far. *)
Definition roll_mean_step (w : nat) (values : list float)
    (acc : mean_state * list float) (i : nat) : mean_state * list float :=
  let s := window_start w i in
  let e := window_end i in
  let st :=
    if bool_decide (i = 0%nat ∨ (window_end (i - 1) ≤ s)%nat) then
      foldl add_mean (mean_setup (default 0%float (values !! s)))
        (slice_values values s e)
    else
      let st1 := foldl remove_mean acc.1
                   (slice_values values (window_start w (i - 1)) s) in
      foldl add_mean st1 (slice_values values (window_end (i - 1)) e) in
  (st, acc.2 ++ [calc_mean (Z.of_nat (Nat.max w 1)) st]).

(** [roll_mean(values, start, end, minp)] with [minp] the window, the
    default of [min_periods]. The state before the first turn is not
    read. *)
Definition roll_mean (w : nat) (values : list float) : list float :=
  (foldl (roll_mean_step w values) (mean_setup 0, [])
     (seq 0 (length values))).2.

(** The rolling mean of a column of integers. *)
Definition rolling_mean (w : nat) (values : list Z) : list float :=
  roll_mean w (float_of_Z <$> values).

(** Body of the loop over [type_set], for the volume column of the rows
    [by_type]: the integer [0] when [thresh_series] is empty, else
    [thresh_series[-1] * threshold_ratio], its last value times the
    ratio. *)
Definition type_threshold (by_type_volume : list Z) : pynum :=
  let thresh_series := rolling_mean 5 by_type_volume in
  match last thresh_series with
  | None => PyInt 0
  | Some x => PyFloat (PrimFloat.mul x threshold_ratio)
  end.

Definition by_type (market_history : list history_row) (next_type : Z)
  : list history_row :=
  filter (λ h, h_type_id h = next_type) market_history.

Definition by_region (market_history_full : list history_row) (next_region : Z)
  : list history_row :=
  filter (λ h, h_region_id h = next_region) market_history_full.

Definition volume_threshold_map (type_set : list Z)
    (market_history : list history_row) : gmap Z pynum :=
  foldl (λ m next_type,
    <[next_type := type_threshold (h_volume <$> by_type market_history next_type)]> m)
    ∅ type_set.

(** ** infer_trades: snapshot differences *)

(** [str(location)] for a location that is an integer or [None]. *)
Definition py_str (location : option Z) : string :=
  match location with
  | None => "None"
  | Some z => pretty z
  end.

(** The location of a trade of the order [next_line]: buy orders that are
    not limited to a station have none. *)
Definition trade_location (next_line : order_row) : option Z :=
  if buy next_line && negb (bool_decide (order_range next_line = "station"))
  then None
  else Some (location_id next_line).

(** [pd.merge(current_snap, next_snap, on="order_id")]: the inner join, in
    the order of the left rows. The left row gives the [_x] columns, the
    right row the [_y] columns. *)
Definition merge_on_order_id (current_snap next_snap : list order_row)
  : list (order_row * order_row) :=
  x ← current_snap;
  (λ y, (x, y)) <$> filter (λ y, order_id y = order_id x) next_snap.

(** The value of an [int64] result: numpy arithmetic on the values of an
    [int64] column wraps around modulo 2^64. *)
Definition wrap_int64 (z : Z) : Z := (z + 2 ^ 63) mod 2 ^ 64 - 2 ^ 63.

(** First loop of a snapshot pair: orders present in both snapshots whose
    volume changed. The amount is the difference of two values of the
    [int64] volume column. *)
Definition changed_trades (type_set : list Z) (next_region : Z)
    (next_ts : Z) (current_snap next_snap : list order_row) : list trade :=
  let merged := merge_on_order_id current_snap next_snap in
  let changed_orders := filter (λ xy, volume xy.1 ≠ volume xy.2) merged in
  next_line ← changed_orders;
  if bool_decide (type_id next_line.1 ∈ type_set) then
    let amount := wrap_int64 (volume next_line.1 - volume next_line.2) in
    [ {| t_timestamp := next_ts;
         t_region_id := next_region;
         t_type_id := type_id next_line.1;
         t_actual := true;
         t_buy := buy next_line.1;
         t_order_id := order_id next_line.1;
         t_price := price next_line.2;
         t_volume := amount;
         t_location := py_str (trade_location next_line.1) |} ]
  else [].

Definition removed_orders (current_snap next_snap : list order_row) : list Z :=
  elements (list_to_set (order_id <$> current_snap)
              ∖ list_to_set (order_id <$> next_snap) : gset Z).

(** A [for] loop whose body appends trades to the result list and may
    raise. *)
Fixpoint for_each {A B} (body : A → result (list B)) (l : list A)
  : result (list B) :=
  match l with
  | [] => Ok []
  | x :: l' =>
      try! ys ← body x;
      try! zs ← for_each body l';
      Ok (ys ++ zs)
  end.

(** Body of the second loop, for one removed order.
    [current_snap[current_snap.order_id == order_id].loc[current[0]]] is a
    single row when exactly one row matches; with several matching rows it
    is a frame, and the membership test of its [type_id] column in a
    non-empty [type_set] raises [ValueError]. *)
Definition removed_trade (type_set : list Z)
    (volume_threshold_map : gmap Z pynum) (next_region : Z)
    (current_ts next_ts : Z) (current_snap : list order_row) (oid : Z)
  : result (list trade) :=
  match filter (λ r, date r = current_ts)
          (filter (λ r, order_id r = oid) current_snap) with
  | [] => Raise KeyError
  | [next_line] =>
      if bool_decide (type_id next_line ∈ type_set) then
        match volume_threshold_map !! type_id next_line with
        | None => Raise KeyError
        | Some volume_threshold =>
            if py_le (volume next_line) volume_threshold then
              Ok [ {| t_timestamp := next_ts;
                      t_region_id := next_region;
                      t_type_id := type_id next_line;
                      t_actual := false;
                      t_buy := buy next_line;
                      t_order_id := oid;
                      t_price := price next_line;
                      t_volume := volume next_line;
                      t_location := py_str (trade_location next_line) |} ]
            else Ok []
        end
      else Ok []
  | _ :: _ :: _ =>
      match type_set with
      | [] => Ok []
      | _ :: _ => Raise ValueError
      end
  end.

Definition removed_trades (type_set : list Z)
    (volume_threshold_map : gmap Z pynum) (next_region : Z)
    (current_ts next_ts : Z) (current_snap next_snap : list order_row)
  : result (list trade) :=
  for_each
    (removed_trade type_set volume_threshold_map next_region
       current_ts next_ts current_snap)
    (removed_orders current_snap next_snap).

(** Body of the loop over [snap_pairs]. A snapshot is the pair of its
    time and its rows, as [groupby] yields it. *)
Definition snap_pair_trades (type_set : list Z)
    (volume_threshold_map : gmap Z pynum) (next_region : Z)
    (current next : Z * list order_row) : result (list trade) :=
  let changed := changed_trades type_set next_region next.1 current.2 next.2 in
  try! removed ← removed_trades type_set volume_threshold_map next_region
                   current.1 next.1 current.2 next.2;
  Ok (changed ++ removed).

(** [list(order_book.groupby(order_book.index))]: one group per distinct
    snapshot time, in ascending time order, each with its rows in frame
    order. *)
Definition groupby_index (order_book : list order_row)
  : list (Z * list order_row) :=
  (λ k, (k, filter (λ r, date r = k) order_book))
    <$> sorted_elements (list_to_set (date <$> order_book)).

(** Body of the loop over [region_set]. *)
Definition region_trades (type_set : list Z)
    (order_book_full : list order_row)
    (market_history_full : list history_row) (next_region : Z)
  : result (list trade) :=
  let order_book := filter (λ r, region_id r = next_region) order_book_full in
  let market_history := by_region market_history_full next_region in
  let vtm := volume_threshold_map type_set market_history in
  let snap_list := groupby_index order_book in
  let snap_pairs := zip snap_list (tail snap_list) in
  for_each (λ p, snap_pair_trades type_set vtm next_region p.1 p.2) snap_pairs.

Definition infer_trades (type_set region_set : list Z)
    (order_book_full : list order_row)
    (market_history_full : list history_row) : result (list trade) :=
  for_each (region_trades type_set order_book_full market_history_full)
    region_set.

(** ** write_trades *)

(** A line of the output file: an integer line ([str(n) + "\n"], used for
    type ids, region ids and counts) or a trade line, whose fields are
    formatted in the order timestamp, actual, buy, order_id, price,
    volume, location. *)
Inductive line :=
  | IntLine (n : Z)
  | TradeLine (tt : trade).

Definition write_region (trades : list trade) (next_region : Z) : list line :=
  let region_trades := filter (λ x, t_region_id x = next_region) trades in
  [IntLine next_region; IntLine (Z.of_nat (length region_trades))]
    ++ (TradeLine <$> region_trades).

Definition write_type (trade_list : list trade) (next_type : Z) : list line :=
  let trades :=
    sort_by t_timestamp (filter (λ x, t_type_id x = next_type) trade_list) in
  let region_list := sorted_elements (list_to_set (t_region_id <$> trades)) in
  [IntLine next_type; IntLine (Z.of_nat (length region_list))]
    ++ (region_list ≫= write_region trades).

Definition write_trades (fobj : list line) (trade_list : list trade)
  : list line :=
  let type_list := sorted_elements (list_to_set (t_type_id <$> trade_list)) in
  fobj ++ (type_list ≫= write_type trade_list).

(** ** infer_trades_helper and extract_trades *)

(** An order book offered by the bulk reader: the type and its frame. *)
Definition book : Type := Z * list order_row.

(** The variables [extract_trades] shares with its callbacks, and the
    output file. [flushed] is not a variable of the source: it records the
    argument of each call of [infer_trades_helper], in call order. *)
Record env := {
  type_count : Z;
  next_types : list book;
  fout : list line;
  flushed : list (list book)
}.

(** Computations on [env] that may raise. *)
Definition M (A : Type) : Type := env → env * result A.

Definition m_ret {A} (a : A) : M A := λ s, (s, Ok a).

Definition m_bind {A B} (m : M A) (k : A → M B) : M B :=
  λ s, match m s with
       | (s', Ok a) => k a s'
       | (s', Raise e) => (s', Raise e)
       end.

Notation "'do!' x ← m ; k" := (m_bind m (λ x, k))
  (at level 20, x name, m at level 100, k at level 200, right associativity).
Notation "m ;;! k" := (m_bind m (λ _, k))
  (at level 100, k at level 200, right associativity).

Definition get_env : M env := λ s, (s, Ok s).
Definition put_env (s : env) : M unit := λ _, (s, Ok tt).
Definition lift {A} (r : result A) : M A := λ s, (s, r).

Section extract.
Variable get_data_frame : list Z → list Z → list Z → list history_row.
(** The module-level [type_batch_size]. *)
Variable type_batch_size : Z.
Variable compute_date : Z.

Definition infer_trades_helper (next_types : list book)
    (compute_date : Z) : result (list trade) :=
  let full_type_list := fst <$> next_types in
  let full_book_list := snd <$> next_types in
  let full_region_list :=
    elements (foldl (λ (s : gset Z) x, s ∪ list_to_set (region_id <$> x))
                ∅ full_book_list) in
  let market_history :=
    get_market_history get_data_frame compute_date
      full_type_list full_region_list in
  try! full_book ←
    match full_book_list with
    | [] => Raise IndexError
    | [x] => Ok x
    | x :: rest => Ok (x ++ concat rest)
    end;
  infer_trades full_type_list full_region_list full_book market_history.

(** [infer_trades_helper] followed by [write_trades] on [fout]. *)
Definition helper_and_write (type_list : list book) : M unit :=
  do! s ← get_env;
  put_env {| type_count := type_count s; next_types := next_types s;
             fout := fout s; flushed := flushed s ++ [type_list] |} ;;!
  do! inferred ← lift (infer_trades_helper type_list compute_date);
  do! s ← get_env;
  put_env {| type_count := type_count s; next_types := next_types s;
             fout := write_trades (fout s) inferred;
             flushed := flushed s |}.

Definition process_batch (type_list : list book) : M unit :=
  helper_and_write type_list.

Definition find_trades (type_id : Z) (df : list order_row) : M unit :=
  do! s ← get_env;
  if bool_decide (type_count s < type_batch_size) then
    if bool_decide (0 < length df)%nat then
      put_env {| type_count := type_count s + 1;
                 next_types := next_types s ++ [(type_id, df)];
                 fout := fout s; flushed := flushed s |}
    else m_ret tt
  else
    process_batch (next_types s) ;;!
    do! s ← get_env;
    put_env {| type_count := 0; next_types := [];
               fout := fout s; flushed := flushed s |}.

Definition end_read : M unit :=
  do! s ← get_env;
  if bool_decide (type_count s < type_batch_size) then
    helper_and_write (next_types s)
  else m_ret tt.

(** The callback loop of [read_bulk_file] over the order books of the
    archive, in archive order. *)
Fixpoint read_books (batch_callback : Z → list order_row → M unit)
    (books : list book) : M unit :=
  match books with
  | [] => m_ret tt
  | (type_id, df) :: rest =>
      batch_callback type_id df ;;! read_books batch_callback rest
  end.

(** [read_bulk_file]: [None] is an archive whose files are missing. *)
Definition read_bulk_file (archive : option (list book))
    (batch_callback : Z → list order_row → M unit)
    (end_callback : M unit) : M bool :=
  match archive with
  | None => m_ret false
  | Some books =>
      read_books batch_callback books ;;! end_callback ;;! m_ret true
  end.

Definition extract_trades (archive : option (list book)) (fout0 : list line)
  : env * result bool :=
  read_bulk_file archive find_trades end_read
    {| type_count := 0; next_types := []; fout := fout0; flushed := [] |}.
End extract.

(** ** read_bulk_file: from an order book to its frame *)

(** The attributes of an [Order] object that the program reads. *)
Record order_attrs := {
  o_order_id : Z;
  o_buy : bool;
  o_price : float;
  o_volume : Z;
  o_order_range : string;
  o_location_id : Z
}.

(** A snapshot of the market data library: its time and the [Order]
    objects of its two sides. An object is named by its address: the same
    address in two places is the same object. *)
Record snapshot := {
  snapshot_time : Z;
  bid : list nat;
  ask : list nat
}.

(** [next_book.region] after [fill_gaps]: the items of the dict, in key
    order. *)
Definition order_book : Type := list (Z * list snapshot).

(** The columns [date], [type_id] and [region_id] that the loop writes
    into the [__dict__] of the objects, by address, and [order_list], the
    addresses appended so far. *)
Definition stamps : Type := gmap nat (Z * Z * Z) * list nat.

(** Body of the innermost loop: [to_dict = next_order.__dict__] is the
    object's own dict, so the three assignments overwrite what an earlier
    visit of the same object wrote. *)
Definition stamp_order (type_id region_id snap_time : Z) (st : stamps)
    (next_order : nat) : stamps :=
  (<[next_order := (snap_time, type_id, region_id)]> st.1,
   st.2 ++ [next_order]).

Definition stamp_snapshot (type_id region_id : Z) (st : stamps)
    (next_snap : snapshot) : stamps :=
  foldl (stamp_order type_id region_id (snapshot_time next_snap)) st
    (bid next_snap ++ ask next_snap).

Definition stamp_region (type_id : Z) (st : stamps)
    (item : Z * list snapshot) : stamps :=
  foldl (stamp_snapshot type_id item.1) st item.2.

Definition stamp_book (type_id : Z) (next_book : order_book) : stamps :=
  foldl (stamp_region type_id) (∅, []) next_book.

(** The row of the frame for the dict of an object. *)
Definition frame_row (o : order_attrs) (d t r : Z) : order_row :=
  {| date := d; type_id := t; region_id := r;
     order_id := o_order_id o; buy := o_buy o; price := o_price o;
     volume := o_volume o; order_range := o_order_range o;
     location_id := o_location_id o |}.

(** [DataFrame(order_list, ...)], built after the loops: each entry of
    [order_list] is read as its dict is then. [objs] gives the attributes
    of the object at an address. *)
Definition build_frame (objs : nat → order_attrs) (type_id : Z)
    (next_book : order_book) : list order_row :=
  let st := stamp_book type_id next_book in
  omap (λ a, (λ c : Z * Z * Z, frame_row (objs a) c.1.1 c.1.2 c.2)
               <$> st.1 !! a) st.2.

(** ** read_bulk_file: the scan of the bulk file *)

(** An entry of [sorted_map]: a type of the index with the offsets of its
    first and last byte in the bulk file. *)
Record index_entry := {
  e_type : Z;
  e_start : Z;
  e_end : Z
}.

(** [sorted_map]: one entry per key of [index_map], given by its items in
    key order, sorted by [start]. *)
Definition sorted_map (index_map : list (Z * (Z * Z))) : list index_entry :=
  sort_by e_start
    ((λ x, {| e_type := x.1; e_start := x.2.1; e_end := x.2.2 |})
       <$> index_map).

(** [fd.read(size)] on the bulk file, opened in binary mode, at position
    [pos]: at most [size] bytes from the position on, the rest of the file
    for a size of -1, [ValueError] for a smaller size. The position
    advances by the number of bytes read. *)
Definition fd_read (file : list Byte.byte) (pos : nat) (size : Z)
  : result (list Byte.byte) :=
  if bool_decide (size < -1) then Raise ValueError
  else if bool_decide (size = -1) then Ok (drop pos file)
  else Ok (take (Z.to_nat size) (drop pos file)).

Section bulk.
(** [OrderBook(file_date, ps=GzipFile(fileobj=BytesIO(buff)))] followed by
    [fill_gaps], of the market data library, for a buffer the library
    accepts: the order objects it creates and the regions of the book. *)
Variable read_order_book :
  list Byte.byte → (nat → order_attrs) * order_book.

(** The loop over [sorted_map]: the file is read from the current
    position on, never repositioned. *)
Fixpoint scan_types (batch_callback : Z → list order_row → M unit)
    (file : list Byte.byte) (pos : nat) (sorted_map : list index_entry)
  : M unit :=
  match sorted_map with
  | [] => m_ret tt
  | next_type :: rest =>
      let type_id := e_type next_type in
      let start := e_start next_type in
      let end_ := e_end next_type in
      do! buff ← lift (fd_read file pos (end_ - start + 1));
      let next_book := read_order_book buff in
      let df := build_frame next_book.1 type_id next_book.2 in
      batch_callback type_id df ;;!
      scan_types batch_callback file (pos + length buff) rest
  end.

(** [read_bulk_file] on a bulk file and an index that exist and are
    readable. *)
Definition read_bulk_file_bytes (file : list Byte.byte)
    (index_map : list (Z * (Z * Z)))
    (batch_callback : Z → list order_row → M unit)
    (end_callback : M unit) : M bool :=
  scan_types batch_callback file 0 (sorted_map index_map) ;;!
  end_callback ;;! m_ret true.
End bulk.

(** * Vocabulary of the statements *)

(** The order of a list sorted by [key]. *)
Definition key_le {A} (key : A → Z) (x y : A) : Prop := key x ≤ key y.

Definition ok_list {B} (r : result (list B)) : list B :=
  match r with
  | Ok ys => ys
  | Raise _ => []
  end.

(** The trade recorded for an order [x] of the current snapshot whose
    volume differs in the row [y] of the next snapshot. *)
Definition actual_trade (next_region next_ts : Z) (x y : order_row) : trade :=
  {| t_timestamp := next_ts;
     t_region_id := next_region;
     t_type_id := type_id x;
     t_actual := true;
     t_buy := buy x;
     t_order_id := order_id x;
     t_price := price y;
     t_volume := wrap_int64 (volume x - volume y);
     t_location := py_str (trade_location x) |}.

(** The trade recorded for an order [x] of the current snapshot that is
    missing from the next one. *)
Definition inferred_trade (next_region next_ts : Z) (x : order_row) : trade :=
  {| t_timestamp := next_ts;
     t_region_id := next_region;
     t_type_id := type_id x;
     t_actual := false;
     t_buy := buy x;
     t_order_id := order_id x;
     t_price := price x;
     t_volume := volume x;
     t_location := py_str (trade_location x) |}.

(** A snapshot as [groupby] yields it, under the data model's uniqueness
    of order ids: its rows carry its time and pairwise distinct order
    ids. *)
Definition snapshot_ok (snap : Z * list order_row) : Prop :=
  NoDup (order_id <$> snap.2) ∧ ∀ r, r ∈ snap.2 → date r = snap.1.

(** What a snapshot pair contributes when nothing raises. *)
Definition pair_events (type_set : list Z) (vtm : gmap Z pynum) (R : Z)
    (current next : Z * list order_row) : list trade :=
  changed_trades type_set R next.1 current.2 next.2
    ++ (removed_orders current.2 next.2 ≫=
          λ oid, ok_list (removed_trade type_set vtm R current.1 next.1
                            current.2 oid)).

(** The snapshots of a region, and its consecutive pairs, as the body of
    the region loop computes them. *)
Definition snapshots (order_book_full : list order_row) (R : Z)
  : list (Z * list order_row) :=
  groupby_index (filter (λ r, region_id r = R) order_book_full).

Definition snap_pairs (order_book_full : list order_row) (R : Z)
  : list ((Z * list order_row) * (Z * list order_row)) :=
  zip (snapshots order_book_full R) (tail (snapshots order_book_full R)).

(** The threshold map in force while region [R] is processed. *)
Definition region_threshold_map (type_set : list Z)
    (market_history_full : list history_row) (R : Z) : gmap Z pynum :=
  volume_threshold_map type_set (by_region market_history_full R).

(** The trades of a region and of a whole call when nothing raises. *)
Definition region_events (type_set : list Z) (obf : list order_row)
    (mhf : list history_row) (R : Z) : list trade :=
  snap_pairs obf R ≫=
    λ p, pair_events type_set (region_threshold_map type_set mhf R) R p.1 p.2.

(** Order ids are unique within a region at a point in time. *)
Definition unique_order_ids (obf : list order_row) (region_set : list Z)
  : Prop :=
  Forall (λ R, Forall (λ snap, NoDup (order_id <$> snap.2)) (snapshots obf R))
    region_set.

(** [e] is the trade of the order [a] of the snapshot [current], paired
    with [next], in region [R]: either [a] is still in [next] with another
    volume, or [a] is gone from [next] and within the threshold of its
    type. *)
Definition trade_origin (type_set : list Z) (vtm : gmap Z pynum) (R : Z)
    (current next : Z * list order_row) (a : order_row) (e : trade) : Prop :=
  a ∈ current.2 ∧ type_id a ∈ type_set ∧
  ((∃ b, b ∈ next.2 ∧ order_id b = order_id a ∧ volume a ≠ volume b
         ∧ e = actual_trade R next.1 a b)
   ∨ ((order_id a ∉ order_id <$> next.2)
      ∧ ∃ thr, vtm !! type_id a = Some thr ∧ py_le (volume a) thr = true
               ∧ e = inferred_trade R next.1 a)).

(** The document of one flush as nested blocks: per type the blocks of its
    regions, per region its trades. *)
Definition region_block : Type := Z * list trade.
Definition type_block : Type := Z * list region_block.

(** The lines of a block: the id, the number of sub-blocks or trades, then
    the content. *)
Definition render_region (rb : region_block) : list line :=
  [IntLine rb.1; IntLine (Z.of_nat (length rb.2))] ++ (TradeLine <$> rb.2).

Definition render_type (tb : type_block) : list line :=
  [IntLine tb.1; IntLine (Z.of_nat (length tb.2))] ++ (tb.2 ≫= render_region).

Definition render (doc : list type_block) : list line := doc ≫= render_type.

Definition region_blocks (trades : list trade) : list region_block :=
  (λ r, (r, filter (λ x, t_region_id x = r) trades))
    <$> sorted_elements (list_to_set (t_region_id <$> trades)).

Definition type_blocks (trade_list : list trade) : list type_block :=
  (λ ty, (ty, region_blocks
                (sort_by t_timestamp
                   (filter (λ x, t_type_id x = ty) trade_list))))
    <$> sorted_elements (list_to_set (t_type_id <$> trade_list)).

(** The order books handed to [infer_trades_helper] so far, in order. *)
Definition processed (s : env) : list book := concat (flushed s).

(** The order books of an archive that have rows. *)
Definition with_rows (books : list book) : list book :=
  filter (λ b : book, (0 < length b.2)%nat) books.

(** The regions [infer_trades_helper] collects from the frames of a
    batch. *)
Definition batch_regions (next_types : list book) : gset Z :=
  foldl (λ (s : gset Z) x, s ∪ list_to_set (region_id <$> x)) ∅
    (snd <$> next_types).

(** The trades on the trade lines of a document, in line order. *)
Definition line_trades (doc : list line) : list trade :=
  doc ≫= λ l, match l with
              | TradeLine x => [x]
              | IntLine _ => []
              end.

(** The file after the documents of the given batches have been written
    to it one after the other; a batch on which [infer_trades_helper]
    raises writes nothing. *)
Definition documents
    (get_data_frame : list Z → list Z → list Z → list history_row)
    (compute_date : Z) (fout0 : list line) (batches : list (list book))
  : list line :=
  foldl (λ f batch,
           write_trades f
             (ok_list (infer_trades_helper get_data_frame batch compute_date)))
    fout0 batches.

(** The facts about the shared variables that every callback keeps: the
    counter is the length of the buffer, the buffer holds at most
    [type_batch_size] order books, each with rows, and the file holds the
    documents of the batches flushed so far. *)
Definition run_ok
    (get_data_frame : list Z → list Z → list Z → list history_row)
    (type_batch_size compute_date : Z) (fout0 : list line) (s : env) : Prop :=
  type_count s = Z.of_nat (length (next_types s))
  ∧ (length (next_types s) ≤ Z.to_nat type_batch_size)%nat
  ∧ Forall (λ b : book, (0 < length b.2)%nat) (next_types s)
  ∧ fout s = documents get_data_frame compute_date fout0 (flushed s).

(** The [b] order books that follow the first [i * (b + 1)] ones. *)
Definition batch_window (b : nat) (books : list book) (i : nat) : list book :=
  take b (drop (i * S b) books).

(** The visits of the loops of [read_bulk_file] over an order book, in
    order: the object, with the time and the region of the snapshot it is
    visited in. *)
Definition snapshot_visits (R : Z) (snap : snapshot)
  : list (nat * (Z * Z)) :=
  (λ a, (a, (snapshot_time snap, R))) <$> (bid snap ++ ask snap).

Definition region_visits (item : Z * list snapshot) : list (nat * (Z * Z)) :=
  item.2 ≫= snapshot_visits item.1.

Definition visits (next_book : order_book) : list (nat * (Z * Z)) :=
  next_book ≫= region_visits.

(** The loop body [stamp_order], as a function of the visit. *)
Definition stamp_visit (type_id : Z) (st : stamps) (v : nat * (Z * Z))
  : stamps :=
  stamp_order type_id v.2.2 v.2.1 st v.1.

(** The row for the object of a visit, with the time and region of that
    visit. *)
Definition visit_row (objs : nat → order_attrs) (type_id : Z)
    (v : nat * (Z * Z)) : order_row :=
  frame_row (objs v.1) v.2.1 type_id v.2.2.

(** The time and region of the last visit of the object at [a]. *)
Definition last_visit (vs : list (nat * (Z * Z))) (a : nat) : option (Z * Z) :=
  snd <$> last (filter (λ v, v.1 = a) vs).

(** The bytes of the bulk file that an index entry designates. *)
Definition slice (file : list Byte.byte) (e : index_entry)
  : list Byte.byte :=
  take (Z.to_nat (e_end e - e_start e + 1))
    (drop (Z.to_nat (e_start e)) file).

(** The entries cover the file from offset [pos] on without gap or
    overlap, in order. *)
Fixpoint tiles (pos : Z) (sm : list index_entry) : Prop :=
  match sm with
  | [] => True
  | e :: rest =>
      e_start e = pos ∧ pos ≤ e_end e + 1 ∧ tiles (e_end e + 1) rest
  end.

(** The order book the callback receives for an index entry whose bytes
    are [buff]. *)
Definition entry_book
    (read_order_book : list Byte.byte → (nat → order_attrs) * order_book)
    (e : index_entry) (buff : list Byte.byte) : book :=
  (e_type e,
   build_frame (read_order_book buff).1 (e_type e) (read_order_book buff).2).

(** The sum of a list of integers, in exact arithmetic. *)
Fixpoint sum_Z (l : list Z) : Z :=
  match l with
  | [] => 0
  | x :: l' => x + sum_Z l'
  end.

(** [v ≤ f] in exact arithmetic, for an integer [v] and a binary64 [f]:
    every finite binary64 is an integer multiple of 2^-1074, so the two
    sides are compared after multiplication by 2^1074. Nothing is below
    or equal to NaN. *)
Definition Z_le_float (v : Z) (f : float) : bool :=
  match Prim2SF f with
  | S754_nan => false
  | S754_infinity s => negb s
  | S754_zero _ => bool_decide (v ≤ 0)
  | S754_finite s m e =>
      bool_decide (v * 2 ^ 1074
                   ≤ (if s then Z.neg m else Z.pos m) * 2 ^ (e + 1074))
  end.

(** "The volume is at most the threshold", in exact arithmetic. *)
Definition within_threshold (v : Z) (thr : pynum) : bool :=
  match thr with
  | PyInt z => bool_decide (v ≤ z)
  | PyFloat f => Z_le_float v f
  end.

(** The threshold as the mean of the most recent days, five at most,
    times 0.04, and 0 without history. *)
Definition mean_threshold (series : list Z) : pynum :=
  match series with
  | [] => PyInt 0
  | _ :: _ =>
      let recent := drop (length series - 5) series in
      PyFloat (PrimFloat.mul
                 (PrimFloat.div (float_of_Z (sum_Z recent))
                    (float_of_Z (Z.of_nat (length recent))))
                 0x1.47ae147ae147bp-5)
  end.

(** The history volumes of a type in a region, in frame order. *)
Definition volume_series (mhf : list history_row) (R T : Z) : list Z :=
  h_volume <$> filter (λ h, h_region_id h = R ∧ h_type_id h = T) mhf.

(** The binary64 representation of an integer below 2^53 in absolute
    value: the mantissa shifted to 53 digits. *)
Definition int_mantissa (p : positive) : positive :=
  Z.to_pos (Z.pos p * 2 ^ (52 - Z.log2 (Z.pos p))).

Definition int_exponent (p : positive) : Z := Z.log2 (Z.pos p) - 52.

Definition SF_of_Z (n : Z) : spec_float :=
  match n with
  | 0 => S754_zero false
  | Z.pos p => S754_finite false (int_mantissa p) (int_exponent p)
  | Z.neg p => S754_finite true (int_mantissa p) (int_exponent p)
  end.

(** The state and output of [roll_mean] after the first [k] positions. *)
Definition roll_mean_run (w : nat) (values : list float) (k : nat)
  : mean_state * list float :=
  foldl (roll_mean_step w values) (mean_setup 0, []) (seq 0 k).

(** The window of at most five values ending at position [k - 1]. *)
Definition window5 (vs : list Z) (k : nat) : list Z :=
  drop (k - 5) (take k vs).

(** What the running state holds after the first [k] positions of a
    series whose window sums are exact in binary64. *)
Definition exact_state (vs : list Z) (k : nat) (st : mean_state) : Prop :=
  nobs st = Z.of_nat (k `min` 5)
  ∧ sum_x st = float_of_Z (sum_Z (window5 vs k))
  ∧ neg_ct st = 0
  ∧ compensation_add st = 0%float
  ∧ compensation_remove st = 0%float
  ∧ ∃ v, vs !! (k - 1)%nat = Some v
         ∧ prev_value st = float_of_Z v
         ∧ 1 ≤ num_consecutive_same_value st
         ∧ ∀ j : nat, Z.of_nat j < num_consecutive_same_value st →
                      (j < k)%nat ∧ vs !! (k - 1 - j)%nat = Some v.

(** * Example data *)

Definition mk_row (d t r o : Z) (b : bool) (p : float) (v : Z) (rg : string)
    (l : Z) : order_row :=
  {| date := d; type_id := t; region_id := r; order_id := o; buy := b;
     price := p; volume := v; order_range := rg; location_id := l |}.

(** Region 10, type 34. At time 100: a sell order 1 of volume 10, a buy
    order 2 of volume 3 with range "region", a buy order 3 of volume 50
    limited to a station. At time 200: order 1 alone, with volume 4. *)
Definition ex_current : Z * list order_row :=
  (100, [ mk_row 100 34 10 1 false 5.25 10 "region" 60001;
          mk_row 100 34 10 2 true 7 3 "region" 60002;
          mk_row 100 34 10 3 true 7 50 "station" 60003 ]).

Definition ex_next : Z * list order_row :=
  (200, [ mk_row 200 34 10 1 false 5 4 "region" 60001 ]).

Definition ex_book : list order_row := ex_current.2 ++ ex_next.2.

(** A history of [n] days of volume [v] for a type and a region. *)
Definition ex_history (t r v : Z) (n : nat) : list history_row :=
  (λ i : nat, {| h_date := Z.of_nat i; h_type_id := t; h_region_id := r;
                 h_volume := v |}) <$> seq 0 n.

(** Two regions of one batch with different histories of type 34: five
    days of volume 125 in region 10, five days of volume 250 in region
    20. In each region an order of type 34 and volume 8 disappears
    between times 100 and 200. *)
Definition cx_history : list history_row :=
  ex_history 34 10 125 5 ++ ex_history 34 20 250 5.

Definition cx_book : list order_row :=
  [ mk_row 100 34 10 5 false 3 8 "region" 60001;
    mk_row 100 34 10 7 false 3 1 "region" 60001;
    mk_row 200 34 10 7 false 3 1 "region" 60001;
    mk_row 100 34 20 6 false 3 8 "region" 60002;
    mk_row 100 34 20 8 false 3 1 "region" 60002;
    mk_row 200 34 20 8 false 3 1 "region" 60002 ].

(** A trade with the given time, region, type and order id. *)
Definition ex_trade (ts r t o : Z) : trade :=
  {| t_timestamp := ts; t_region_id := r; t_type_id := t; t_actual := true;
     t_buy := false; t_order_id := o; t_price := 1; t_volume := 1;
     t_location := "60001" |}.

(** An order book of one order in region 10 whose volume goes from 10 to
    4: it yields the trade [ex_trade_of] whenever it is processed. *)
Definition ex_rows (ty oid : Z) : list order_row :=
  [ mk_row 100 ty 10 oid false 5 10 "region" 60001;
    mk_row 200 ty 10 oid false 5 4 "region" 60001 ].

Definition ex_trade_of (ty oid : Z) : trade :=
  {| t_timestamp := 200; t_region_id := 10; t_type_id := ty;
     t_actual := true; t_buy := false; t_order_id := oid; t_price := 5;
     t_volume := 6; t_location := "60001" |}.

(** A provider without any history. *)
Definition no_history : list Z → list Z → list Z → list history_row :=
  λ _ _ _, [].

Definition env0 : env :=
  {| type_count := 0; next_types := []; fout := []; flushed := [] |}.

(** A snapshot at time 100 that holds the order id 1 in two rows; the
    order is gone at time 200. *)
Definition dup_current : Z * list order_row :=
  (100, [ mk_row 100 34 10 1 false 5 3 "region" 60001;
          mk_row 100 34 10 1 false 5 3 "region" 60001;
          mk_row 100 34 10 2 false 5 3 "region" 60001 ]).

Definition dup_next : Z * list order_row :=
  (200, [ mk_row 200 34 10 2 false 5 3 "region" 60001 ]).

Definition dup_book : list order_row := dup_current.2 ++ dup_next.2.

(** An order book whose rows all carry the time 100. *)
Definition single_book : list order_row :=
  [ mk_row 100 34 10 1 false 5 3 "region" 60001;
    mk_row 100 34 10 2 true 5 7 "station" 60002;
    mk_row 100 35 20 3 false 5 3 "region" 60003 ].

(** Order 1 keeps its volume 10 between times 100 and 200 while its price
    changes. *)
Definition same_current : Z * list order_row :=
  (100, [ mk_row 100 34 10 1 false 5 10 "region" 60001 ]).

Definition same_next : Z * list order_row :=
  (200, [ mk_row 200 34 10 1 false 4 10 "region" 60001 ]).

Definition same_book : list order_row := same_current.2 ++ same_next.2.

(** Four order books with rows, of types 34 to 37. *)
Definition ex_four_books : list book :=
  [ (34, ex_rows 34 1); (35, ex_rows 35 2); (36, ex_rows 36 3);
    (37, ex_rows 37 4) ].

(** Order objects: the object at address [a] is a sell order with id
    [a]. *)
Definition ex_objs (a : nat) : order_attrs :=
  {| o_order_id := Z.of_nat a; o_buy := false; o_price := 5;
     o_volume := 10; o_order_range := "region"; o_location_id := 60001 |}.

(** One region with three snapshots, the second one empty, no object
    listed twice. *)
Definition ex_order_book : order_book :=
  [ (10, [ {| snapshot_time := 300; bid := [1%nat]; ask := [2%nat] |};
           {| snapshot_time := 600; bid := []; ask := [] |};
           {| snapshot_time := 900; bid := []; ask := [3%nat] |} ]) ].

(** One region with two snapshots that list the same object. *)
Definition shared_order_book : order_book :=
  [ (10, [ {| snapshot_time := 300; bid := []; ask := [1%nat] |};
           {| snapshot_time := 600; bid := []; ask := [1%nat] |} ]) ].

(** A bulk file of five bytes and an index of two types, listed out of
    file order; a reader that makes one sell order per byte. *)
Definition ex_file : list Byte.byte :=
  [Byte.x01; Byte.x02; Byte.x03; Byte.x04; Byte.x05].

Definition ex_index_map : list (Z * (Z * Z)) :=
  [ (35, (2, 4)); (34, (0, 1)) ].

Definition ex_read_order_book (buff : list Byte.byte)
  : (nat → order_attrs) * order_book :=
  (ex_objs,
   [ (10, [ {| snapshot_time := 300; bid := [];
               ask := seq 0 (length buff) |} ]) ]).

(** * Properties *)

(** ** Sorting *)

Section sort_by_facts.
Context {A : Type} (key : A → Z).

Lemma insert_by_perm x l : insert_by key x l ≡ₚ x :: l.
Proof.
  induction l as [|y l IH]; simpl; [done|].
  case_bool_decide; [done|].
  rewrite IH. apply Permutation_swap.
Qed.

Lemma sort_by_perm l : sort_by key l ≡ₚ l.
Proof.
  induction l as [|x l IH]; simpl; [done|].
  by rewrite insert_by_perm, IH.
Qed.

Lemma insert_by_sorted x l :
  StronglySorted (key_le key) l →
  StronglySorted (key_le key) (insert_by key x l).
Proof.
  induction 1 as [|y l Hl IH Hy]; simpl.
  - repeat constructor.
  - case_bool_decide as Hxy.
    + constructor; [by constructor|].
      constructor; [done|].
      eapply Forall_impl; [exact Hy|].
      unfold key_le in *. intros z Hz. lia.
    + constructor; [done|].
      rewrite insert_by_perm. constructor; [|done].
      unfold key_le. lia.
Qed.

Lemma sort_by_sorted l : StronglySorted (key_le key) (sort_by key l).
Proof.
  induction l as [|x l IH]; simpl; [constructor|].
  by apply insert_by_sorted.
Qed.

Lemma elem_of_sort_by x l : x ∈ sort_by key l ↔ x ∈ l.
Proof. by rewrite sort_by_perm. Qed.
End sort_by_facts.

Lemma sorted_le_NoDup_lt (l : list Z) :
  StronglySorted Z.le l → NoDup l → StronglySorted Z.lt l.
Proof.
  induction 1 as [|x l Hl IH Hx]; intros Hnd; [constructor|].
  apply NoDup_cons in Hnd as [Hx' Hnd].
  constructor; [by apply IH|].
  apply Forall_forall. intros y Hy.
  rewrite Forall_forall in Hx. specialize (Hx y Hy).
  assert (x ≠ y) by (intros ->; done). lia.
Qed.

Lemma StronglySorted_lookup_lt {A} (R : relation A) (l : list A) i j x y :
  StronglySorted R l → l !! i = Some x → l !! j = Some y → (i < j)%nat →
  R x y.
Proof.
  intros Hs Hi Hj Hlt. rewrite <- (take_drop j l) in Hs.
  apply (StronglySorted_app_1_elem_of _ _ _ x y) in Hs; [done|..].
  - apply list_elem_of_lookup. exists i. by rewrite lookup_take_lt.
  - apply list_elem_of_lookup. exists 0%nat.
    by rewrite lookup_drop, Nat.add_0_r.
Qed.

Lemma elem_of_sorted_elements (s : gset Z) x : x ∈ sorted_elements s ↔ x ∈ s.
Proof. unfold sorted_elements. by rewrite elem_of_sort_by, elem_of_elements. Qed.

Lemma NoDup_sorted_elements (s : gset Z) : NoDup (sorted_elements s).
Proof.
  unfold sorted_elements. rewrite sort_by_perm. apply NoDup_elements.
Qed.

Lemma sorted_elements_lt (s : gset Z) : StronglySorted Z.lt (sorted_elements s).
Proof.
  apply sorted_le_NoDup_lt; [|apply NoDup_sorted_elements].
  apply (sort_by_sorted id).
Qed.

(** ** Strings of integers *)

Lemma pretty_N_go_not_N x s s' :
  (∀ t, s ≠ String "N"%char t) → pretty_N_go x s ≠ String "N"%char s'.
Proof.
  revert s. induction (N.lt_wf_0 x) as [x _ IH]; intros s Hs.
  assert (x = 0 ∨ 0 < x)%N as [->|?] by lia.
  - rewrite pretty_N_go_0. apply Hs.
  - rewrite pretty_N_go_step by done. apply IH.
    { by apply N.div_lt. }
    intros t. unfold pretty_N_char. by repeat case_match.
Qed.

Lemma pretty_N_not_None (x : N) : pretty x ≠ "None".
Proof.
  unfold pretty, pretty_N. case_decide; [done|].
  apply pretty_N_go_not_N. done.
Qed.

Lemma pretty_Z_not_None (z : Z) : pretty z ≠ "None".
Proof.
  destruct z as [|p|p]; unfold pretty, pretty_Z; [done| |done].
  apply pretty_N_not_None.
Qed.

(** ** Floats *)

Lemma leb_nan (x : float) : PrimFloat.leb x nan = false.
Proof.
  rewrite leb_spec. change (Prim2SF nan) with S754_nan.
  by destruct (Prim2SF x) as [| | |[] ? ?].
Qed.

Lemma py_le_nan (v : Z) : py_le v (PyFloat nan) = false.
Proof. apply leb_nan. Qed.

Lemma py_le_zero (v : Z) : py_le v (PyInt 0) = true ↔ v ≤ 0.
Proof. simpl. apply bool_decide_eq_true. Qed.

(** *** Integers in binary64 *)

Lemma digits2_log2 p : Z.pos (digits2_pos p) = Z.log2 (Z.pos p) + 1.
Proof.
  induction p as [p IH|p IH|]; [| |done].
  - change (Z.log2 (Z.pos p~1)) with (Z.pos (Pos.size p)).
    cbn [digits2_pos]. rewrite Pos2Z.inj_succ, IH.
    clear IH. induction p as [p IH|p IH|]; [| |done].
    + change (Z.log2 (Z.pos p~1)) with (Z.pos (Pos.size p)).
      cbn [Pos.size]. rewrite Pos2Z.inj_succ. lia.
    + change (Z.log2 (Z.pos p~0)) with (Z.pos (Pos.size p)).
      cbn [Pos.size]. rewrite Pos2Z.inj_succ. lia.
  - change (Z.log2 (Z.pos p~0)) with (Z.pos (Pos.size p)).
    cbn [digits2_pos]. rewrite Pos2Z.inj_succ, IH.
    clear IH. induction p as [p IH|p IH|]; [| |done].
    + change (Z.log2 (Z.pos p~1)) with (Z.pos (Pos.size p)).
      cbn [Pos.size]. rewrite Pos2Z.inj_succ. lia.
    + change (Z.log2 (Z.pos p~0)) with (Z.pos (Pos.size p)).
      cbn [Pos.size]. rewrite Pos2Z.inj_succ. lia.
Qed.

Lemma iter_pos_nat {A} (f : A → A) (p : positive) (x : A) :
  SpecFloat.iter_pos f p x = Nat.iter (Pos.to_nat p) f x.
Proof.
  trans (Pos.iter f x p).
  - revert x. induction p as [p IH|p IH|]; intros x; cbn [SpecFloat.iter_pos Pos.iter].
    + by rewrite !IH, !Pos.iter_swap.
    + by rewrite !IH.
    + done.
  - apply Pos2Nat.inj_iter.
Qed.

Lemma shr_1_even (q : positive) :
  shr_1 {| shr_m := Z.pos q * 2; shr_r := false; shr_s := false |} =
    {| shr_m := Z.pos q; shr_r := false; shr_s := false |}.
Proof. by rewrite Z.mul_comm. Qed.

Lemma shr_iter_exact (j : nat) (q : positive) :
  Nat.iter j shr_1
    {| shr_m := Z.pos q * 2 ^ Z.of_nat j; shr_r := false; shr_s := false |} =
    {| shr_m := Z.pos q; shr_r := false; shr_s := false |}.
Proof.
  revert q. induction j as [|j IH]; intros q.
  - by rewrite Z.mul_1_r.
  - cbn [Nat.iter nat_rect].
    replace (Z.pos q * 2 ^ Z.of_nat (S j)) with (Z.pos (q~0) * 2 ^ Z.of_nat j).
    + unfold Nat.iter in IH. rewrite IH. reflexivity.
    + rewrite Nat2Z.inj_succ, Z.pow_succ_r by lia. lia.
Qed.

Lemma shr_exact (q : positive) (e j : Z) :
  0 ≤ j →
  shr {| shr_m := Z.pos q * 2 ^ j; shr_r := false; shr_s := false |} e j =
    ({| shr_m := Z.pos q; shr_r := false; shr_s := false |}, e + j).
Proof.
  intros Hj. destruct j as [|p|p]; [|  |lia].
  - cbn [shr]. by rewrite Z.mul_1_r, Z.add_0_r.
  - cbn [shr]. rewrite iter_pos_nat. f_equal.
    rewrite <- (positive_nat_Z p). apply shr_iter_exact.
Qed.

Lemma Zdigits2_log2 n : 0 < n → Zdigits2 n = Z.log2 n + 1.
Proof. destruct n as [|p|p]; [lia| |lia]. intros _. apply digits2_log2. Qed.

Lemma fexp_normal x : -1021 ≤ x → fexp prec emax x = x - 53.
Proof. intros Hx. unfold fexp, SpecFloat.emin, prec, emax. lia. Qed.

Lemma binary_round_aux_exact s (q : positive) e j :
  0 ≤ j → Z.log2 (Z.pos q) = 52 → -1074 ≤ e + j ≤ 971 →
  binary_round_aux prec emax s (Z.pos q * 2 ^ j) e loc_Exact =
    S754_finite s q (e + j).
Proof.
  intros Hj Hq He. unfold binary_round_aux, shr_fexp.
  assert (0 < Z.pos q * 2 ^ j) as Hpos by (apply Z.mul_pos_pos; lia).
  rewrite Zdigits2_log2, Z.log2_mul_pow2, Hq by lia.
  rewrite fexp_normal by lia.
  replace (j + 52 + 1 + e - 53 - e) with j by lia.
  cbn [shr_record_of_loc]. rewrite shr_exact by done.
  cbn [shr_m loc_of_shr_record round_nearest_even].
  rewrite Zdigits2_log2, Hq by lia. rewrite fexp_normal by lia.
  replace (52 + 1 + (e + j) - 53 - (e + j)) with 0 by lia.
  cbn [shr shr_m].
  replace (e + j <=? emax - prec) with true; [done|].
  symmetry. apply Z.leb_le. unfold emax, prec. lia.
Qed.

Lemma Zpos_iter_xO (p d : positive) :
  Z.pos (Pos.iter xO p d) = Z.pos p * 2 ^ Z.pos d.
Proof.
  rewrite Pos2Nat.inj_iter, <- (positive_nat_Z d).
  induction (Pos.to_nat d) as [|n IH]; cbn [nat_rect].
  - by rewrite Z.mul_1_r.
  - rewrite Pos2Z.inj_xO, IH, Nat2Z.inj_succ, Z.pow_succ_r by lia. lia.
Qed.

Lemma shl_align_value (m : positive) (e e' : Z) :
  e' ≤ e →
  (shl_align m e e').2 = e'
  ∧ Z.pos (shl_align m e e').1 = Z.pos m * 2 ^ (e - e').
Proof.
  intros He. unfold shl_align.
  destruct (e' - e) as [|d|d] eqn:Hd; [|lia|]; cbn [fst snd].
  - replace (e - e') with 0 by lia. split; lia.
  - rewrite Zpos_iter_xO. replace (e - e') with (Z.pos d) by lia. done.
Qed.

Lemma int_mantissa_value (p : positive) :
  Z.pos p < 2 ^ 53 →
  Z.pos (int_mantissa p) = Z.pos p * 2 ^ (52 - Z.log2 (Z.pos p))
  ∧ Z.log2 (Z.pos (int_mantissa p)) = 52
  ∧ 0 ≤ Z.log2 (Z.pos p) ≤ 52.
Proof.
  intros Hp.
  assert (Z.log2 (Z.pos p) < 53) as Hlog by (by apply Z.log2_lt_pow2).
  pose proof (Z.log2_nonneg (Z.pos p)) as Hnn.
  assert (Z.pos (int_mantissa p) = Z.pos p * 2 ^ (52 - Z.log2 (Z.pos p)))
    as Hm.
  { unfold int_mantissa. apply Z2Pos.id. apply Z.mul_pos_pos; [lia|].
    apply Z.pow_pos_nonneg; lia. }
  split; [done|]. split; [|lia].
  rewrite Hm, Z.log2_mul_pow2 by lia. lia.
Qed.

Lemma binary_round_int s (p : positive) k :
  0 ≤ k → Z.pos p < 2 ^ 53 →
  binary_round prec emax s (Z.to_pos (Z.pos p * 2 ^ k)) (- k) =
    S754_finite s (int_mantissa p) (int_exponent p).
Proof.
  intros Hk Hp. unfold binary_round.
  destruct (int_mantissa_value p Hp) as (Hm & Hlm & Hl).
  assert (0 < Z.pos p * 2 ^ k) as Hpos by (apply Z.mul_pos_pos; lia).
  set (P := Z.to_pos (Z.pos p * 2 ^ k)).
  assert (Z.pos P = Z.pos p * 2 ^ k) as HP by (by apply Z2Pos.id).
  rewrite digits2_log2, HP, Z.log2_mul_pow2 by lia.
  rewrite fexp_normal by lia.
  replace (k + Z.log2 (Z.pos p) + 1 + - k - 53)
    with (Z.log2 (Z.pos p) - 52) by lia.
  destruct (decide (Z.log2 (Z.pos p) - 52 ≤ - k)) as [Hle|Hgt].
  - destruct (shl_align_value P (- k) (Z.log2 (Z.pos p) - 52) Hle)
      as [He Hv].
    destruct (shl_align P (- k) (Z.log2 (Z.pos p) - 52)) as [mz ez].
    cbn [fst snd] in He, Hv. subst ez.
    assert (Z.pos mz = Z.pos (int_mantissa p)) as Hmz.
    { rewrite Hv, HP, Hm, <- Z.mul_assoc, <- Z.pow_add_r by lia.
      do 2 f_equal. lia. }
    injection Hmz as ->.
    rewrite <- (Z.mul_1_r (Z.pos (int_mantissa p))).
    change 1 with (2 ^ 0).
    rewrite binary_round_aux_exact by (done || unfold int_exponent; lia).
    by rewrite Z.add_0_r.
  - assert (shl_align P (- k) (Z.log2 (Z.pos p) - 52) = (P, - k)) as ->.
    { unfold shl_align.
      by destruct (Z.log2 (Z.pos p) - 52 - - k) eqn:Hd; [done|done|lia]. }
    rewrite HP.
    replace (Z.pos p * 2 ^ k)
      with (Z.pos (int_mantissa p) * 2 ^ (k + Z.log2 (Z.pos p) - 52)).
    + rewrite binary_round_aux_exact by (done || lia).
      unfold int_exponent. f_equal. lia.
    + rewrite Hm, <- Z.mul_assoc, <- Z.pow_add_r by lia.
      do 2 f_equal. lia.
Qed.

Lemma binary_normalize_int n k :
  0 ≤ k → Z.abs n < 2 ^ 53 →
  binary_normalize prec emax (n * 2 ^ k) (- k) false = SF_of_Z n.
Proof.
  intros Hk Hn. destruct n as [|p|p]; [done| |].
  - assert (0 < Z.pos p * 2 ^ k) as Hpos by (apply Z.mul_pos_pos; lia).
    destruct (Z.pos p * 2 ^ k) as [|P|P] eqn:HP; [lia| |lia].
    cbn [binary_normalize SF_of_Z].
    rewrite <- (binary_round_int false p k) by (done || lia).
    by rewrite HP.
  - assert (0 < Z.pos p * 2 ^ k) as Hpos by (apply Z.mul_pos_pos; lia).
    replace (Z.neg p * 2 ^ k) with (- (Z.pos p * 2 ^ k)) by lia.
    destruct (Z.pos p * 2 ^ k) as [|P|P] eqn:HP; [lia| |lia].
    cbn [binary_normalize SF_of_Z Z.opp].
    rewrite <- (binary_round_int true p k) by (done || lia).
    by rewrite HP.
Qed.

Lemma SF_of_Z_normalize n :
  Z.abs n < 2 ^ 53 → binary_normalize prec emax n 0 false = SF_of_Z n.
Proof.
  intros Hn. rewrite <- (binary_normalize_int n 0) by (done || lia).
  by rewrite Z.mul_1_r.
Qed.

Lemma SF_of_Z_valid n : Z.abs n < 2 ^ 53 → valid_binary (SF_of_Z n) = true.
Proof.
  intros Hn. destruct n as [|p|p]; [done| |].
  all: destruct (int_mantissa_value p) as (Hm & Hlm & Hl); [lia|].
  all: cbn [SF_of_Z SpecFloat.valid_binary]; unfold bounded, canonical_mantissa.
  all: rewrite digits2_log2, Hlm, fexp_normal by (unfold int_exponent; lia).
  all: unfold int_exponent, emax, prec.
  all: apply andb_true_intro; split; [apply Z.eqb_eq|apply Z.leb_le]; lia.
Qed.

Lemma Prim2SF_float_of_Z n :
  Z.abs n < 2 ^ 53 → Prim2SF (float_of_Z n) = SF_of_Z n.
Proof.
  intros Hn. unfold float_of_Z. rewrite SF_of_Z_normalize by done.
  by apply Prim2SF_SF2Prim, SF_of_Z_valid.
Qed.

Lemma SF_of_Z_finite n :
  n ≠ 0 → Z.abs n < 2 ^ 53 →
  ∃ s m e, SF_of_Z n = S754_finite s m e ∧ -52 ≤ e ≤ 0
           ∧ s = bool_decide (n < 0)
           ∧ Z.log2 (Z.pos m) = 52
           ∧ cond_Zopp s (Z.pos m) = n * 2 ^ (- e).
Proof.
  intros Hn0 Hn. destruct n as [|p|p]; [done| |].
  all: destruct (int_mantissa_value p) as (Hm & Hlm & Hl); [lia|].
  all: eexists _, _, _; split; [reflexivity|].
  all: unfold int_exponent; split; [lia|]; split; [done|]; split; [done|].
  all: cbn [cond_Zopp Z.opp]; rewrite <- ?Pos2Z.opp_pos, Hm.
  all: replace (- (Z.log2 (Z.pos p) - 52)) with (52 - Z.log2 (Z.pos p)) by lia.
  all: lia.
Qed.

Lemma cond_Zopp_shl s (m : positive) e ez n :
  ez ≤ e → e ≤ 0 → cond_Zopp s (Z.pos m) = n * 2 ^ (- e) →
  cond_Zopp s (Z.pos (shl_align m e ez).1) = n * 2 ^ (- ez).
Proof.
  intros Hez He Hv. destruct (shl_align_value m e ez Hez) as [_ ->].
  replace (- ez) with (- e + (e - ez)) by lia.
  rewrite Z.pow_add_r, Z.mul_assoc, <- Hv by lia.
  by destruct s; cbn [cond_Zopp]; lia.
Qed.

Lemma SFadd_int a b :
  Z.abs a < 2 ^ 53 → Z.abs b < 2 ^ 53 → Z.abs (a + b) < 2 ^ 53 →
  SFadd prec emax (SF_of_Z a) (SF_of_Z b) = SF_of_Z (a + b).
Proof.
  intros Ha Hb Hab.
  destruct (decide (a = 0)) as [->|Ha0].
  { by destruct b. }
  destruct (decide (b = 0)) as [->|Hb0].
  { rewrite Z.add_0_r. by destruct a. }
  destruct (SF_of_Z_finite a Ha0 Ha) as (sa & ma & ea & -> & Hea & _ & _ & Hva).
  destruct (SF_of_Z_finite b Hb0 Hb) as (sb & mb & eb & -> & Heb & _ & _ & Hvb).
  cbn [SFadd].
  rewrite (cond_Zopp_shl sa ma ea (Z.min ea eb) a) by (done || lia).
  rewrite (cond_Zopp_shl sb mb eb (Z.min ea eb) b) by (done || lia).
  rewrite <- Z.mul_add_distr_r.
  set (k := - Z.min ea eb).
  replace (Z.min ea eb) with (- k) by (unfold k; lia).
  apply binary_normalize_int; [unfold k; lia|done].
Qed.

Lemma SFsub_int a b :
  Z.abs a < 2 ^ 53 → Z.abs b < 2 ^ 53 → Z.abs (a - b) < 2 ^ 53 →
  SFsub prec emax (SF_of_Z a) (SF_of_Z b) = SF_of_Z (a - b).
Proof.
  intros Ha Hb Hab.
  destruct (decide (b = 0)) as [->|Hb0].
  { rewrite Z.sub_0_r. by destruct a. }
  destruct (decide (a = 0)) as [->|Ha0].
  { by destruct b. }
  destruct (SF_of_Z_finite a Ha0 Ha) as (sa & ma & ea & -> & Hea & _ & _ & Hva).
  destruct (SF_of_Z_finite b Hb0 Hb) as (sb & mb & eb & -> & Heb & _ & _ & Hvb).
  cbn [SFsub].
  rewrite (cond_Zopp_shl sa ma ea (Z.min ea eb) a) by (done || lia).
  rewrite (cond_Zopp_shl sb mb eb (Z.min ea eb) b) by (done || lia).
  rewrite <- Z.mul_sub_distr_r.
  set (k := - Z.min ea eb).
  replace (Z.min ea eb) with (- k) by (unfold k; lia).
  apply binary_normalize_int; [unfold k; lia|done].
Qed.

Lemma float_of_Z_inj_SF n :
  Z.abs n < 2 ^ 53 → float_of_Z n = SF2Prim (SF_of_Z n).
Proof. intros Hn. unfold float_of_Z. by rewrite SF_of_Z_normalize. Qed.

(** Sums and differences of integers are exact in binary64 while they
    stay below 2^53. *)
Lemma float_add_int a b :
  Z.abs a < 2 ^ 53 → Z.abs b < 2 ^ 53 → Z.abs (a + b) < 2 ^ 53 →
  PrimFloat.add (float_of_Z a) (float_of_Z b) = float_of_Z (a + b).
Proof.
  intros Ha Hb Hab. apply Prim2SF_inj.
  rewrite add_spec, !Prim2SF_float_of_Z by done. by apply SFadd_int.
Qed.

Lemma float_sub_int a b :
  Z.abs a < 2 ^ 53 → Z.abs b < 2 ^ 53 → Z.abs (a - b) < 2 ^ 53 →
  PrimFloat.sub (float_of_Z a) (float_of_Z b) = float_of_Z (a - b).
Proof.
  intros Ha Hb Hab. apply Prim2SF_inj.
  rewrite sub_spec, !Prim2SF_float_of_Z by done. by apply SFsub_int.
Qed.

Lemma SF_of_Z_inj a b :
  Z.abs a < 2 ^ 53 → Z.abs b < 2 ^ 53 → SF_of_Z a = SF_of_Z b → a = b.
Proof.
  intros Ha Hb Heq.
  destruct (decide (a = 0)) as [->|Ha0]; [by destruct b|].
  destruct (decide (b = 0)) as [->|Hb0]; [by destruct a|].
  destruct (SF_of_Z_finite a Ha0 Ha) as (sa & ma & ea & Ea & Hea & _ & _ & Hva).
  destruct (SF_of_Z_finite b Hb0 Hb) as (sb & mb & eb & Eb & Heb & _ & _ & Hvb).
  rewrite Ea, Eb in Heq. injection Heq as -> -> ->.
  rewrite Hva in Hvb.
  apply Z.mul_reg_r in Hvb; [done|].
  apply Z.pow_nonzero; lia.
Qed.

Lemma SFcompare_Eq x y :
  SFcompare x y = Some Eq →
  x = y ∨ ∃ s s', x = S754_zero s ∧ y = S754_zero s'.
Proof.
  destruct x as [sx|sx| |sx mx ex], y as [sy|sy| |sy my ey]; cbn [SFcompare];
    try (by destruct sx); try (by destruct sy); try done.
  - intros _. right. eauto.
  - destruct sx, sy; try done; intros _; by left.
  - destruct sx, sy; try done.
    all: destruct (Z.compare_spec ex ey) as [->| |]; try done.
    all: rewrite Pos.compare_cont_spec; cbn [Pos.switch_Eq].
    all: destruct (Pos.compare_spec mx my) as [->| |]; try done.
    all: intros _; by left.
Qed.

Lemma SFcompare_refl x : x ≠ S754_nan → SFcompare x x = Some Eq.
Proof.
  destruct x as [sx|sx| |sx mx ex]; cbn [SFcompare]; [done| |done|].
  - by destruct sx.
  - intros _. destruct sx; rewrite Z.compare_refl, Pos.compare_cont_refl; done.
Qed.

Lemma SF_of_Z_not_nan n : SF_of_Z n ≠ S754_nan.
Proof. by destruct n. Qed.

(** Equality of binary64 values of integers below 2^53 is equality of the
    integers. *)
Lemma float_eqb_int a b :
  Z.abs a < 2 ^ 53 → Z.abs b < 2 ^ 53 →
  PrimFloat.eqb (float_of_Z a) (float_of_Z b) = bool_decide (a = b).
Proof.
  intros Ha Hb. rewrite FloatAxioms.eqb_spec, !Prim2SF_float_of_Z by done.
  unfold SFeqb. case_bool_decide as Hab.
  - subst b. by rewrite SFcompare_refl by apply SF_of_Z_not_nan.
  - destruct (SFcompare (SF_of_Z a) (SF_of_Z b)) as [[]|] eqn:Hc; try done.
    destruct (SFcompare_Eq _ _ Hc) as [Heq|(s & s' & Ea & Eb)].
    + by apply SF_of_Z_inj in Heq.
    + destruct a, b; done.
Qed.

Lemma get_sign_float_of_Z n :
  0 ≤ n < 2 ^ 53 → get_sign (float_of_Z n) = false.
Proof.
  intros Hn. destruct (decide (n = 0)) as [->|Hn0]; [done|].
  destruct (SF_of_Z_finite n) as (s & m & e & En & _ & Hs & _); [done|lia|].
  rewrite bool_decide_eq_false_2 in Hs by lia. subst s.
  unfold get_sign, is_zero.
  rewrite FloatAxioms.eqb_spec, Prim2SF_float_of_Z, En by lia.
  change (Prim2SF PrimFloat.zero) with (S754_zero false).
  cbn [SFeqb SFcompare].
  rewrite FloatAxioms.ltb_spec, Prim2SF_float_of_Z, En by lia.
  change (Prim2SF 0) with (S754_zero false). done.
Qed.

Lemma binary_round_aux_not_neg m e l :
  SFltb (binary_round_aux prec emax false m e l) (S754_zero false) = false.
Proof.
  unfold binary_round_aux.
  destruct (shr_fexp prec emax m e l) as [mrs' e'].
  destruct (shr_fexp prec emax _ e' loc_Exact) as [mrs'' e''].
  destruct (shr_m mrs'') as [|p|p]; [done| |done].
  by destruct (e'' <=? emax - prec).
Qed.

(** The quotient of a non-negative integer below 2^53 by a positive one
    is not negative in binary64. *)
Lemma float_div_not_neg a b :
  0 ≤ a < 2 ^ 53 → 0 < b < 2 ^ 53 →
  PrimFloat.ltb (PrimFloat.div (float_of_Z a) (float_of_Z b)) 0 = false.
Proof.
  intros Ha Hb. rewrite FloatAxioms.ltb_spec, div_spec, !Prim2SF_float_of_Z by lia.
  change (Prim2SF 0) with (S754_zero false).
  destruct (SF_of_Z_finite b) as (sb & mb & eb & -> & _ & Hsb & _); [lia..|].
  rewrite bool_decide_eq_false_2 in Hsb by lia. subst sb.
  destruct (decide (a = 0)) as [->|Ha0]; [done|].
  destruct (SF_of_Z_finite a) as (sa & ma & ea & -> & _ & Hsa & _); [lia..|].
  rewrite bool_decide_eq_false_2 in Hsa by lia. subst sa.
  unfold SF64div, SFdiv.
  destruct (SFdiv_core_binary prec emax (Z.pos ma) ea (Z.pos mb) eb)
    as [[mz ez] lz].
  apply binary_round_aux_not_neg.
Qed.

Lemma div_eucl_exact q b : 0 < b → Z.div_eucl (q * b) b = (q, 0).
Proof.
  intros Hb. destruct (Z.div_eucl (q * b) b) as [q' r'] eqn:E.
  assert (q' = q * b / b) as -> by (unfold Z.div; by rewrite E).
  assert (r' = (q * b) mod b) as -> by (unfold Z.modulo; by rewrite E).
  by rewrite Z.div_mul, Z.mod_mul by lia.
Qed.

Lemma new_location_exact n : new_location n 0 = loc_Exact.
Proof. unfold new_location. by destruct (Z.even n). Qed.

Lemma SFdiv_int c v :
  0 ≤ v → 0 < c → c * v < 2 ^ 53 →
  SFdiv prec emax (SF_of_Z (c * v)) (SF_of_Z c) = SF_of_Z v.
Proof.
  intros Hv Hc Hcv.
  destruct (decide (v = 0)) as [->|Hv0].
  { rewrite Z.mul_0_r. by destruct c. }
  assert (c ≤ c * v) as Hc' by nia.
  assert (v ≤ c * v) as Hv' by nia.
  assert (0 < c * v) as Hpos by nia.
  destruct c as [|pc|pc]; [lia| |lia].
  destruct v as [|pv|pv]; [lia| |lia].
  change (Z.pos pc * Z.pos pv) with (Z.pos (pc * pv)) in *.
  cbn [SF_of_Z SFdiv xorb].
  destruct (int_mantissa_value (pc * pv)) as (Hm1 & Hl1 & Hb1); [lia|].
  destruct (int_mantissa_value pc) as (Hm2 & Hl2 & Hb2); [lia|].
  destruct (int_mantissa_value pv) as (Hmv & Hlv & Hbv); [lia|].
  pose proof (Z.log2_mul_above (Z.pos pc) (Z.pos pv)) as Habove.
  change (Z.pos pc * Z.pos pv) with (Z.pos (pc * pv)) in Habove.
  pose proof (Z.log2_le_mono (Z.pos pv) (Z.pos (pc * pv))) as Hmono.
  unfold SFdiv_core_binary, int_exponent.
  rewrite !Zdigits2_log2, Hl1, Hl2 by lia.
  rewrite fexp_normal by lia.
  set (L1 := Z.log2 (Z.pos (pc * pv))) in *.
  set (L2 := Z.log2 (Z.pos pc)) in *.
  set (Lv := Z.log2 (Z.pos pv)) in *.
  replace (Z.min (52 + 1 + (L1 - 52) - (52 + 1 + (L2 - 52)) - 53)
             (L1 - 52 - (L2 - 52))) with (L1 - L2 - 53) by lia.
  replace (L1 - 52 - (L2 - 52) - (L1 - L2 - 53)) with 53 by lia.
  rewrite Z.shiftl_mul_pow2 by lia.
  replace (Z.pos (int_mantissa (pc * pv)) * 2 ^ 53)
    with (Z.pos (int_mantissa pv) * 2 ^ (1 + L2 + Lv - L1)
          * Z.pos (int_mantissa pc)).
  - rewrite div_eucl_exact by lia. rewrite new_location_exact.
    rewrite binary_round_aux_exact by (done || lia).
    f_equal. lia.
  - rewrite Hm1, Hm2, Hmv. fold L1 L2 Lv.
    rewrite Pos2Z.inj_mul.
    assert (2 ^ (52 - L1) * 2 ^ 53 =
            2 ^ (52 - Lv) * 2 ^ (1 + L2 + Lv - L1) * 2 ^ (52 - L2)) as Hpow.
    { rewrite <- !Z.pow_add_r by lia. f_equal. lia. }
    rewrite <- (Z.mul_assoc _ (2 ^ (52 - L1))), Hpow. ring.
Qed.

(** The division of [c * v] by [c] is exact in binary64 below 2^53. *)
Lemma float_div_int c v :
  0 ≤ v → 0 < c < 2 ^ 53 → c * v < 2 ^ 53 →
  PrimFloat.div (float_of_Z (c * v)) (float_of_Z c) = float_of_Z v.
Proof.
  intros Hv Hc Hcv. apply Prim2SF_inj.
  assert (v ≤ c * v) by nia.
  rewrite div_spec, !Prim2SF_float_of_Z by lia. apply SFdiv_int; lia.
Qed.

Lemma bounded_canonical m e :
  bounded prec emax m e = true →
  -1074 ≤ e ≤ 971 ∧ 0 < Z.pos m < 2 ^ 53
  ∧ (-1074 < e → 2 ^ 52 ≤ Z.pos m).
Proof.
  unfold bounded, canonical_mantissa.
  intros [Hc He%Z.leb_le]%andb_prop. apply Z.eqb_eq in Hc.
  rewrite digits2_log2 in Hc.
  unfold fexp, SpecFloat.emin, prec, emax in Hc, He.
  pose proof (Z.log2_spec (Z.pos m)) as Hlog.
  pose proof (Z.log2_nonneg (Z.pos m)) as Hnn.
  assert (Z.log2 (Z.pos m) ≤ 52) as Hle by lia.
  split; [lia|]. split.
  - split; [lia|]. apply Z.log2_lt_pow2; lia.
  - intros Hgt. assert (Z.log2 (Z.pos m) = 52) as Heq by lia.
    rewrite <- Heq. apply Hlog. lia.
Qed.

Lemma pow2_step a b : 0 ≤ a → a < b → 2 * 2 ^ a ≤ 2 ^ b.
Proof.
  intros Ha Hab. rewrite <- Z.pow_succ_r by done.
  apply Z.pow_le_mono_r; lia.
Qed.

Lemma SFleb_int v y :
  Z.abs v < 2 ^ 53 → valid_binary y = true →
  SFleb (SF_of_Z v) y =
    match y with
    | S754_nan => false
    | S754_infinity s => negb s
    | S754_zero _ => bool_decide (v ≤ 0)
    | S754_finite s m e =>
        bool_decide (v * 2 ^ 1074
                     ≤ (if s then Z.neg m else Z.pos m) * 2 ^ (e + 1074))
    end.
Proof.
  intros Hv Hy. destruct y as [s|s| |s m e].
  - destruct v; done.
  - destruct v, s; done.
  - destruct v; done.
  - cbn [SpecFloat.valid_binary] in Hy.
    apply bounded_canonical in Hy as (He & Hm & Hnorm).
    assert (0 < 2 ^ (e + 1074)) as HY by (apply Z.pow_pos_nonneg; lia).
    destruct (decide (v = 0)) as [->|Hv0].
    { cbn [SF_of_Z SFleb SFcompare]. destruct s; case_bool_decide; (done || lia). }
    destruct (SF_of_Z_finite v Hv0 Hv)
      as (sv & mv & ev & -> & Hev & _ & Hlv & Hval).
    pose proof (Z.log2_spec (Z.pos mv)) as Hlog. rewrite Hlv in Hlog.
    assert (0 < 2 ^ (ev + 1074)) as HX by (apply Z.pow_pos_nonneg; lia).
    assert (v * 2 ^ 1074 = cond_Zopp sv (Z.pos mv) * 2 ^ (ev + 1074)) as ->.
    { rewrite Hval, <- Z.mul_assoc, <- Z.pow_add_r by lia.
      do 2 f_equal. lia. }
    change (Z.succ 52) with 53 in Hlog.
    change (2 ^ 52) with 4503599627370496 in *.
    change (2 ^ 53) with 9007199254740992 in *.
    unfold SFleb. cbn [SFcompare].
    destruct sv, s; cbn [cond_Zopp Z.opp]; rewrite <- ?Pos2Z.opp_pos.
    + destruct (Z.compare_spec ev e) as [->|Hlt|Hgt].
      * rewrite Pos.compare_cont_spec.
        destruct (Pos.compare_spec mv m) as [->|Hc|Hc];
          cbn [Pos.switch_Eq CompOpp]; case_bool_decide; (done || nia).
      * pose proof (pow2_step (ev + 1074) (e + 1074)).
        case_bool_decide; [nia|done].
      * pose proof (pow2_step (e + 1074) (ev + 1074)).
        case_bool_decide; [done|nia].
    + case_bool_decide; [done|nia].
    + case_bool_decide; [nia|done].
    + destruct (Z.compare_spec ev e) as [->|Hlt|Hgt].
      * rewrite Pos.compare_cont_spec.
        destruct (Pos.compare_spec mv m) as [->|Hc|Hc];
          cbn [Pos.switch_Eq]; case_bool_decide; (done || nia).
      * pose proof (pow2_step (ev + 1074) (e + 1074)).
        case_bool_decide; [done|nia].
      * pose proof (pow2_step (e + 1074) (ev + 1074)).
        case_bool_decide; [nia|done].
Qed.

(** The comparison [v <= f] of numpy, which converts the integer to
    binary64 first, is the exact comparison for integers below 2^53. *)
Lemma float_leb_int v f :
  Z.abs v < 2 ^ 53 →
  PrimFloat.leb (float_of_Z v) f = Z_le_float v f.
Proof.
  intros Hv. rewrite leb_spec, Prim2SF_float_of_Z by done.
  unfold Z_le_float. apply SFleb_int; [done|apply Prim2SF_valid].
Qed.

(** ** The volume threshold *)

Lemma roll_mean_run_S w values k :
  roll_mean_run w values (S k) =
    roll_mean_step w values (roll_mean_run w values k) k.
Proof. unfold roll_mean_run. by rewrite seq_S, foldl_app. Qed.

Lemma length_roll_mean_run w values k :
  length (roll_mean_run w values k).2 = k.
Proof.
  induction k as [|k IH]; [done|].
  rewrite roll_mean_run_S. cbn [roll_mean_step snd].
  rewrite length_app, IH. simpl. lia.
Qed.

Lemma length_rolling_mean w values :
  length (rolling_mean w values) = length values.
Proof.
  unfold rolling_mean, roll_mean. fold (roll_mean_run w (float_of_Z <$> values)
    (length (float_of_Z <$> values))).
  by rewrite length_roll_mean_run, length_fmap.
Qed.

Lemma last_roll_mean_run w values k :
  last (roll_mean_run w values (S k)).2 =
    Some (calc_mean (Z.of_nat (Nat.max w 1)) (roll_mean_run w values (S k)).1).
Proof.
  rewrite roll_mean_run_S. cbn [roll_mean_step fst snd]. by rewrite last_snoc.
Qed.

Lemma nobs_add_mean st val : nobs (add_mean st val) ≤ nobs st + 1.
Proof. unfold add_mean. destruct (PrimFloat.eqb val val); cbn [nobs]; lia. Qed.

Lemma nobs_remove_mean st val : nobs (remove_mean st val) ≤ nobs st.
Proof. unfold remove_mean. destruct (PrimFloat.eqb val val); cbn [nobs]; lia. Qed.

Lemma nobs_foldl_add st vals :
  nobs (foldl add_mean st vals) ≤ nobs st + Z.of_nat (length vals).
Proof.
  revert st. induction vals as [|v vals IH]; intros st; cbn [foldl length].
  - lia.
  - pose proof (IH (add_mean st v)). pose proof (nobs_add_mean st v). lia.
Qed.

Lemma nobs_foldl_remove st vals : nobs (foldl remove_mean st vals) ≤ nobs st.
Proof.
  revert st. induction vals as [|v vals IH]; intros st; cbn [foldl].
  - lia.
  - pose proof (IH (remove_mean st v)). pose proof (nobs_remove_mean st v). lia.
Qed.

Lemma length_slice_values values a b :
  (length (slice_values values a b) ≤ b - a)%nat.
Proof. unfold slice_values. rewrite length_take. lia. Qed.

Lemma nobs_roll_mean_run w values k :
  nobs (roll_mean_run w values k).1 ≤ Z.of_nat k.
Proof.
  induction k as [|k IH]; [done|].
  rewrite roll_mean_run_S. cbn [roll_mean_step fst].
  unfold window_start, window_end.
  case_bool_decide as Hc.
  - pose proof (nobs_foldl_add
                  (mean_setup (default 0%float (values !! (S k - w)%nat)))
                  (slice_values values (S k - w) (S k))) as H1.
    pose proof (length_slice_values values (S k - w) (S k)) as H2.
    cbn [mean_setup nobs] in H1. lia.
  - set (st1 := foldl remove_mean _ _).
    pose proof (nobs_foldl_remove (roll_mean_run w values k).1
                  (slice_values values (S (k - 1) - w) (S k - w))) as H0.
    pose proof (nobs_foldl_add st1 (slice_values values (S (k - 1)) (S k)))
      as H1.
    pose proof (length_slice_values values (S (k - 1)) (S k)) as H2.
    fold st1 in H0. lia.
Qed.

(** While fewer than [w] values are available the rolling mean is NaN. *)
Lemma last_rolling_mean_short w values :
  (0 < length values < w)%nat → last (rolling_mean w values) = Some nan.
Proof.
  intros [Hpos Hlt]. unfold rolling_mean, roll_mean.
  rewrite length_fmap.
  destruct (length values) as [|k] eqn:Hlen; [lia|].
  fold (roll_mean_run w (float_of_Z <$> values) (S k)).
  rewrite last_roll_mean_run. f_equal.
  pose proof (nobs_roll_mean_run w (float_of_Z <$> values) (S k)) as Hn.
  unfold calc_mean. rewrite (bool_decide_eq_false_2 (_ ≤ nobs _)); [done|lia].
Qed.

(** ** The rolling mean on integers whose sums are exact *)

Lemma float_opp_int n :
  n ≠ 0 → Z.abs n < 2 ^ 53 → PrimFloat.opp (float_of_Z n) = float_of_Z (- n).
Proof.
  intros Hn0 Hn. apply Prim2SF_inj.
  rewrite opp_spec, !Prim2SF_float_of_Z by lia. by destruct n.
Qed.

Lemma float_add_neg_zero n :
  Z.abs n < 2 ^ 53 →
  PrimFloat.add (float_of_Z n) neg_zero = float_of_Z n.
Proof.
  intros Hn. apply Prim2SF_inj.
  rewrite add_spec, !Prim2SF_float_of_Z by lia.
  change (Prim2SF neg_zero) with (S754_zero true). by destruct n.
Qed.

Lemma add_mean_int st v s :
  sum_x st = float_of_Z s → compensation_add st = 0%float →
  0 ≤ s → 0 ≤ v → s + v < 2 ^ 53 →
  add_mean st (float_of_Z v) =
    {| nobs := nobs st + 1;
       sum_x := float_of_Z (s + v);
       neg_ct := neg_ct st;
       compensation_add := 0;
       compensation_remove := compensation_remove st;
       num_consecutive_same_value :=
         if PrimFloat.eqb (float_of_Z v) (prev_value st)
         then num_consecutive_same_value st + 1 else 1;
       prev_value := float_of_Z v |}.
Proof.
  intros Hs Hc Hs0 Hv0 Hsv. unfold add_mean.
  rewrite float_eqb_int, bool_decide_eq_true_2 by (done || lia).
  rewrite Hs, Hc. change 0%float with (float_of_Z 0).
  rewrite get_sign_float_of_Z by lia.
  rewrite (float_sub_int v 0), Z.sub_0_r by lia.
  rewrite (float_add_int s v) by lia.
  rewrite (float_sub_int (s + v) s) by lia.
  rewrite (float_sub_int (s + v - s) v) by lia.
  by replace (s + v - s - v) with 0 by lia.
Qed.

Lemma remove_mean_int st u s :
  sum_x st = float_of_Z s → compensation_remove st = 0%float →
  0 ≤ u → u ≤ s → s < 2 ^ 53 →
  remove_mean st (float_of_Z u) =
    {| nobs := nobs st - 1;
       sum_x := float_of_Z (s - u);
       neg_ct := neg_ct st;
       compensation_add := compensation_add st;
       compensation_remove := 0;
       num_consecutive_same_value := num_consecutive_same_value st;
       prev_value := prev_value st |}.
Proof.
  intros Hs Hc Hu0 Hus Hs53. unfold remove_mean.
  rewrite float_eqb_int, bool_decide_eq_true_2 by (done || lia).
  rewrite Hs, Hc, get_sign_float_of_Z by lia.
  destruct (decide (u = 0)) as [->|Hu].
  - change (PrimFloat.sub (PrimFloat.opp (float_of_Z 0)) 0) with neg_zero.
    rewrite float_add_neg_zero by lia.
    rewrite (float_sub_int s s), Z.sub_diag, Z.sub_0_r by lia. done.
  - rewrite float_opp_int by lia. change 0%float with (float_of_Z 0).
    rewrite (float_sub_int (- u) 0), Z.sub_0_r by lia.
    rewrite (float_add_int s (- u)) by lia.
    rewrite (float_sub_int (s + - u) s) by lia.
    rewrite (float_sub_int (s + - u - s) (- u)) by lia.
    replace (s + - u - s - - u) with 0 by lia.
    by replace (s + - u) with (s - u) by lia.
Qed.

Lemma sum_Z_app l1 l2 : sum_Z (l1 ++ l2) = sum_Z l1 + sum_Z l2.
Proof. induction l1 as [|x l1 IH]; cbn [sum_Z app] in *; lia. Qed.

Lemma sum_Z_bound (b : Z) l :
  Forall (λ v, 0 ≤ v < b) l → 0 ≤ sum_Z l ≤ Z.of_nat (length l) * b.
Proof.
  induction 1 as [|x l Hx _ IH]; cbn [sum_Z length] in *; [lia|].
  rewrite Nat2Z.inj_succ. lia.
Qed.

Lemma slice_values_one values a x :
  values !! a = Some x → slice_values values a (S a) = [x].
Proof.
  intros Hx. unfold slice_values.
  replace (S a - a)%nat with 1%nat by lia.
  by rewrite (drop_S _ _ _ Hx).
Qed.

Lemma slice_values_nil values a : slice_values values a a = [].
Proof. unfold slice_values. by rewrite Nat.sub_diag. Qed.

Lemma window5_S vs k v :
  vs !! k = Some v →
  window5 vs (S k) = drop (S k - 5) (take k vs) ++ [v].
Proof.
  intros Hv. unfold window5.
  rewrite (take_S_r _ _ _ Hv), drop_app_le; [done|].
  apply lookup_lt_Some in Hv. rewrite length_take. lia.
Qed.

Lemma window5_small vs k :
  (k < 5)%nat → window5 vs k = drop (S k - 5) (take k vs).
Proof. intros Hk. unfold window5. by replace (S k - 5)%nat with (k - 5)%nat by lia. Qed.

Lemma window5_big vs k u :
  (5 ≤ k)%nat → vs !! (k - 5)%nat = Some u →
  window5 vs k = u :: drop (S k - 5) (take k vs).
Proof.
  intros Hk Hu. unfold window5.
  replace (S k - 5)%nat with (S (k - 5)) by lia.
  apply drop_S. rewrite lookup_take_lt by lia. done.
Qed.

Lemma length_window5 vs k : (length (window5 vs k) ≤ 5)%nat.
Proof. unfold window5. rewrite length_drop, length_take. lia. Qed.

Section exact_run.
Variable vs : list Z.
Hypothesis Hvs : Forall (λ v, 0 ≤ v < 2 ^ 50) vs.

Lemma window5_bound k : 0 ≤ sum_Z (window5 vs k) ≤ 5 * 2 ^ 50.
Proof.
  assert (Forall (λ v, 0 ≤ v < 2 ^ 50) (window5 vs k)) as HW.
  { unfold window5. by apply Forall_drop, Forall_take. }
  pose proof (sum_Z_bound _ _ HW). pose proof (length_window5 vs k).
  change (2 ^ 50) with 1125899906842624 in *. lia.
Qed.

Lemma lookup_bound k v : vs !! k = Some v → 0 ≤ v < 2 ^ 50.
Proof. intros Hv. by apply (Forall_lookup_1 _ _ _ _ Hvs Hv). Qed.

Lemma roll_mean_run_first v0 :
  vs !! 0%nat = Some v0 →
  exact_state vs 1 (roll_mean_run 5 (float_of_Z <$> vs) 1).1.
Proof.
  intros Hv0. pose proof (lookup_bound _ _ Hv0) as Hb.
  change (2 ^ 50) with 1125899906842624 in Hb.
  assert ((float_of_Z <$> vs) !! 0%nat = Some (float_of_Z v0)) as Hf
    by (by rewrite list_lookup_fmap, Hv0).
  rewrite roll_mean_run_S. cbn [roll_mean_step fst].
  rewrite bool_decide_eq_true_2 by (by left).
  unfold window_start, window_end. cbn [Nat.sub].
  rewrite (slice_values_one _ _ _ Hf), Hf. cbn [foldl default].
  rewrite (add_mean_int _ v0 0)
    by (done || change (2 ^ 53) with 9007199254740992; lia).
  unfold exact_state. cbn [nobs sum_x neg_ct compensation_add
    compensation_remove prev_value num_consecutive_same_value mean_setup].
  split_and!; try done.
  - unfold window5. cbn [Nat.sub drop]. rewrite (take_S_r _ _ _ Hv0).
    rewrite take_0, drop_0. cbn [app sum_Z]. f_equal. lia.
  - exists v0. split_and!; [done|done|by destruct (PrimFloat.eqb _ _)|].
    intros j Hj. assert (j = 0%nat) as -> by (destruct (PrimFloat.eqb _ _); lia).
    split; [lia|done].
Qed.

Lemma roll_mean_run_next k v :
  (1 ≤ k)%nat → vs !! k = Some v →
  exact_state vs k (roll_mean_run 5 (float_of_Z <$> vs) k).1 →
  exact_state vs (S k) (roll_mean_run 5 (float_of_Z <$> vs) (S k)).1.
Proof.
  intros Hk Hv (Hn & Hs & Hneg & Hca & Hcr & v' & Hv' & Hp & Hc1 & Hc).
  pose proof (lookup_bound _ _ Hv) as Hb.
  pose proof (window5_bound k) as HWk.
  pose proof (window5_bound (S k)) as HWS.
  rewrite (window5_S _ _ _ Hv), sum_Z_app in HWS.
  cbn [sum_Z] in HWS.
  change (2 ^ 50) with 1125899906842624 in *.
  assert ((float_of_Z <$> vs) !! k = Some (float_of_Z v)) as Hf
    by (by rewrite list_lookup_fmap, Hv).
  rewrite roll_mean_run_S. cbn [roll_mean_step fst].
  set (st := (roll_mean_run 5 (float_of_Z <$> vs) k).1) in *.
  unfold window_start, window_end.
  rewrite bool_decide_eq_false_2 by lia.
  replace (S (k - 1)) with k by lia.
  rewrite (slice_values_one _ _ _ Hf). cbn [foldl].
  assert (∃ st1,
            foldl remove_mean st
              (slice_values (float_of_Z <$> vs) (k - 5) (S k - 5)) = st1
            ∧ nobs st1 = Z.of_nat (S k `min` 5) - 1
            ∧ sum_x st1 = float_of_Z (sum_Z (drop (S k - 5) (take k vs)))
            ∧ neg_ct st1 = 0 ∧ compensation_add st1 = 0%float
            ∧ compensation_remove st1 = 0%float
            ∧ prev_value st1 = prev_value st
            ∧ num_consecutive_same_value st1 = num_consecutive_same_value st)
    as (st1 & -> & Hn1 & Hs1 & Hneg1 & Hca1 & Hcr1 & Hp1 & Hnc1).
  { destruct (decide (k < 5)%nat) as [Hlt|Hge].
    - replace (S k - 5)%nat with (k - 5)%nat by lia.
      rewrite slice_values_nil. cbn [foldl]. exists st.
      split_and!; try done; try lia.
      all: rewrite Hs; by rewrite window5_small by done.
    - destruct (lookup_lt_is_Some_2 vs (k - 5)) as [u Hu].
      { apply lookup_lt_Some in Hv. lia. }
      pose proof (lookup_bound _ _ Hu) as Hub.
      change (2 ^ 50) with 1125899906842624 in Hub.
      rewrite (window5_big _ _ u) in Hs, HWk by (lia || done).
      cbn [sum_Z] in Hs, HWk.
      pose proof (sum_Z_bound (2 ^ 50) (drop (S k - 5) (take k vs))) as Hrest.
      assert (0 ≤ sum_Z (drop (S k - 5) (take k vs))) as Hrest0.
      { apply Hrest. by apply Forall_drop, Forall_take. }
      assert (slice_values (float_of_Z <$> vs) (k - 5) (S k - 5)
              = [float_of_Z u]) as ->.
      { replace (S k - 5)%nat with (S (k - 5)) by lia.
        apply slice_values_one. by rewrite list_lookup_fmap, Hu. }
      cbn [foldl].
      rewrite (remove_mean_int _ u _ Hs Hcr)
        by (change (2 ^ 53) with 9007199254740992; lia).
      eexists. split; [reflexivity|].
      cbn [nobs sum_x neg_ct compensation_add compensation_remove prev_value
           num_consecutive_same_value].
      split_and!; try done; try lia. all: f_equal; lia. }
  assert (0 ≤ sum_Z (drop (S k - 5) (take k vs))) as Hrest0.
  { apply (sum_Z_bound (2 ^ 50)). by apply Forall_drop, Forall_take. }
  rewrite (add_mean_int _ v _ Hs1 Hca1)
    by (change (2 ^ 53) with 9007199254740992; lia).
  unfold exact_state. cbn [nobs sum_x neg_ct compensation_add
    compensation_remove prev_value num_consecutive_same_value].
  split_and!; try done.
  - lia.
  - rewrite (window5_S _ _ _ Hv), sum_Z_app. cbn [sum_Z].
    f_equal. lia.
  - exists v. replace (S k - 1)%nat with k by lia.
    split; [done|]. split; [done|].
    rewrite Hp1, Hnc1, Hp.
    pose proof (lookup_bound _ _ Hv') as Hb'.
    change (2 ^ 50) with 1125899906842624 in Hb'.
    rewrite float_eqb_int by (change (2 ^ 53) with 9007199254740992; lia).
    case_bool_decide as Heq.
    + subst v'. split; [lia|]. intros j Hj.
      destruct j as [|j].
      * split; [lia|]. by rewrite Nat.sub_0_r.
      * destruct (Hc j) as [Hjk Hlook]; [lia|].
        split; [lia|].
        by replace (k - S j)%nat with (k - 1 - j)%nat by lia.
    + split; [lia|]. intros j Hj. assert (j = 0%nat) as -> by lia.
      split; [lia|]. by rewrite Nat.sub_0_r.
Qed.

Lemma roll_mean_run_exact k :
  (1 ≤ k ≤ length vs)%nat →
  exact_state vs k (roll_mean_run 5 (float_of_Z <$> vs) k).1.
Proof.
  induction k as [|k IH]; [lia|]. intros Hk.
  destruct (decide (k = 0%nat)) as [->|Hk0].
  - destruct (lookup_lt_is_Some_2 vs 0) as [v0 Hv0]; [lia|].
    by apply (roll_mean_run_first v0).
  - destruct (lookup_lt_is_Some_2 vs k) as [v Hv]; [lia|].
    apply (roll_mean_run_next k v); [lia|done|]. apply IH. lia.
Qed.
End exact_run.

(** With five or more non-negative volumes below 2^50 the last rolling
    mean is the binary64 quotient of the exact sum of the five most
    recent volumes by five. *)
Lemma last_rolling_mean_exact vs :
  Forall (λ v, 0 ≤ v < 2 ^ 50) vs → (5 ≤ length vs)%nat →
  last (rolling_mean 5 vs) =
    Some (PrimFloat.div (float_of_Z (sum_Z (drop (length vs - 5) vs))) 5).
Proof.
  intros Hvs Hlen. unfold rolling_mean, roll_mean. rewrite length_fmap.
  fold (roll_mean_run 5 (float_of_Z <$> vs) (length vs)).
  destruct (length vs) as [|k] eqn:Hn; [lia|].
  rewrite last_roll_mean_run. f_equal.
  destruct (roll_mean_run_exact vs Hvs (S k))
    as (Hnobs & Hs & Hneg & _ & _ & v & Hv & Hp & _ & Hc); [lia|].
  pose proof (window5_bound vs Hvs (S k)) as HW.
  assert (window5 vs (S k) = drop (S k - 5) vs) as HWeq.
  { unfold window5. by rewrite take_ge by lia. }
  rewrite HWeq in Hs, HW.
  change (2 ^ 50) with 1125899906842624 in HW.
  unfold calc_mean. rewrite Hnobs, Hs, Hneg.
  replace (S k `min` 5)%nat with 5%nat by lia.
  change (Z.of_nat (5 `max` 1)) with 5. change (Z.of_nat 5) with 5.
  change (bool_decide (5 ≤ 5) && bool_decide (0 < 5)) with true.
  cbv iota. change (float_of_Z 5) with 5%float.
  case_bool_decide as Hsame.
  - assert (drop (S k - 5) vs = [v; v; v; v; v]) as Hall.
    { apply list_eq. intros i. rewrite lookup_drop.
      destruct (decide (i < 5)%nat) as [Hi|Hi].
      - destruct (Hc (4 - i)%nat) as [_ Hl]; [lia|].
        replace (S k - 5 + i)%nat with (S k - 1 - (4 - i))%nat by lia.
        rewrite Hl. by do 5 (destruct i as [|i]; [done|]); lia.
      - rewrite lookup_ge_None_2 by lia.
        by do 5 (destruct i as [|i]; [lia|]). }
    rewrite Hall in HW |- *. cbn [sum_Z] in HW |- *.
    rewrite Hp. replace (v + (v + (v + (v + (v + 0))))) with (5 * v) by lia.
    change 5%float with (float_of_Z 5). symmetry.
    apply float_div_int; change (2 ^ 53) with 9007199254740992; lia.
  - change (bool_decide (0 = 0)) with true. cbn [andb].
    change 5%float with (float_of_Z 5) at 1.
    rewrite float_div_not_neg by (change (2 ^ 53) with 9007199254740992; lia).
    change (bool_decide (0 = 5)) with false. done.
Qed.

Lemma type_threshold_empty : type_threshold [] = PyInt 0.
Proof. reflexivity. Qed.

Lemma type_threshold_short values :
  (0 < length values < 5)%nat → type_threshold values = PyFloat nan.
Proof.
  intros Hlen. unfold type_threshold.
  by rewrite last_rolling_mean_short by done.
Qed.

(** With five or more non-negative volumes below 2^50: the exact sum of
    the five most recent ones, divided by five and multiplied by the
    ratio in binary64. *)
Lemma type_threshold_exact values :
  Forall (λ v, 0 ≤ v < 2 ^ 50) values → (5 ≤ length values)%nat →
  type_threshold values =
    PyFloat (PrimFloat.mul
               (PrimFloat.div
                  (float_of_Z (sum_Z (drop (length values - 5) values))) 5)
               0x1.47ae147ae147bp-5).
Proof.
  intros Hv Hlen. unfold type_threshold.
  by rewrite last_rolling_mean_exact by done.
Qed.

Lemma foldl_threshold_lookup (f : Z → pynum) type_set (m : gmap Z pynum) t :
  foldl (λ m next_type, <[next_type := f next_type]> m) m type_set !! t =
    if bool_decide (t ∈ type_set) then Some (f t) else m !! t.
Proof.
  revert m. induction type_set as [|u type_set IH]; intros m.
  - by rewrite bool_decide_eq_false_2 by apply not_elem_of_nil.
  - cbn [foldl]. rewrite IH.
    destruct (decide (t ∈ type_set)) as [Hin|Hnin].
    { rewrite !bool_decide_eq_true_2; [done|by right|done]. }
    rewrite (bool_decide_eq_false_2 (t ∈ type_set)) by done.
    destruct (decide (t = u)) as [->|Hne].
    + rewrite lookup_insert_eq, bool_decide_eq_true_2; [done|by left].
    + rewrite lookup_insert_ne, bool_decide_eq_false_2; [done| |done].
      rewrite not_elem_of_cons. done.
Qed.

Lemma volume_threshold_map_lookup type_set market_history next_type :
  next_type ∈ type_set →
  volume_threshold_map type_set market_history !! next_type =
    Some (type_threshold (h_volume <$> by_type market_history next_type)).
Proof.
  intros Hin. unfold volume_threshold_map.
  rewrite (foldl_threshold_lookup
             (λ t, type_threshold (h_volume <$> by_type market_history t))).
  by rewrite bool_decide_eq_true_2.
Qed.

Lemma volume_threshold_map_lookup_None type_set market_history next_type :
  next_type ∉ type_set →
  volume_threshold_map type_set market_history !! next_type = None.
Proof.
  intros Hin. unfold volume_threshold_map.
  rewrite (foldl_threshold_lookup
             (λ t, type_threshold (h_volume <$> by_type market_history t))).
  by rewrite bool_decide_eq_false_2.
Qed.

(** ** Lists and loops *)

Lemma filter_none {A} (P : A → Prop) `{!∀ x, Decision (P x)} (l : list A) :
  (∀ x, x ∈ l → ¬ P x) → filter P l = [].
Proof.
  induction l as [|x l IH]; intros Hl; [done|].
  rewrite filter_cons_False by (apply Hl; left).
  apply IH. intros y Hy. apply Hl. by right.
Qed.

Lemma filter_all {A} (P : A → Prop) `{!∀ x, Decision (P x)} (l : list A) :
  (∀ x, x ∈ l → P x) → filter P l = l.
Proof.
  induction l as [|x l IH]; intros Hl; [done|].
  rewrite filter_cons_True by (apply Hl; left).
  f_equal. apply IH. intros y Hy. apply Hl. by right.
Qed.

(** Among rows with pairwise distinct keys, the rows that have the key of
    [a] are [a] alone. *)
Lemma filter_key_unique {A} (key : A → Z) (l : list A) a :
  NoDup (key <$> l) → a ∈ l → filter (λ x, key x = key a) l = [a].
Proof.
  induction l as [|x l IH]; intros Hnd Hin.
  - by apply elem_of_nil in Hin.
  - rewrite fmap_cons in Hnd. apply NoDup_cons in Hnd as [Hx Hnd].
    apply elem_of_cons in Hin as [->|Hin].
    + rewrite filter_cons_True by done. f_equal.
      apply filter_none. intros y Hy Heq. apply Hx.
      rewrite <- Heq. by apply list_elem_of_fmap_2.
    + rewrite filter_cons_False; [by apply IH|].
      intros Heq. apply Hx. rewrite Heq. by apply list_elem_of_fmap_2.
Qed.

(** When every element produced for [x] carries the key of [x], selecting
    the key of [a] from the whole production selects what [a] produced. *)
Lemma filter_bind_key {A B} (ka : A → Z) (kb : B → Z) (g : A → list B)
    (l : list A) a :
  NoDup (ka <$> l) → a ∈ l →
  (∀ x e, x ∈ l → e ∈ g x → kb e = ka x) →
  filter (λ e, kb e = ka a) (l ≫= g) = g a.
Proof.
  induction l as [|x l IH]; intros Hnd Hin Hkey.
  - by apply elem_of_nil in Hin.
  - rewrite fmap_cons in Hnd. apply NoDup_cons in Hnd as [Hx Hnd].
    rewrite bind_cons, filter_app.
    assert (∀ y e, y ∈ l → e ∈ g y → kb e = ka y) as Hkey'.
    { intros y e Hy. apply Hkey. by right. }
    apply elem_of_cons in Hin as [->|Hin].
    + rewrite filter_all, filter_none, app_nil_r; [done| |].
      * intros e He Heq. apply list_elem_of_bind in He as (y & He & Hy).
        apply Hx. rewrite <- Heq, (Hkey' y e Hy He).
        by apply list_elem_of_fmap_2.
      * intros e He. apply Hkey; [left|done].
    + rewrite filter_none, IH; [done..|].
      intros e He Heq. apply Hx.
      rewrite <- (Hkey x e) by (done || left). rewrite Heq.
      by apply list_elem_of_fmap_2.
Qed.

Lemma filter_bind_self {B} (kb : B → Z) (g : Z → list B) (l : list Z) k :
  NoDup l → k ∈ l →
  (∀ x e, x ∈ l → e ∈ g x → kb e = x) →
  filter (λ e, kb e = k) (l ≫= g) = g k.
Proof.
  intros Hnd Hk Hkey.
  apply (filter_bind_key id kb g l k); [by rewrite list_fmap_id|done..].
Qed.

Lemma for_each_Ok {A B} (body : A → result (list B)) (g : A → list B) l :
  (∀ x, x ∈ l → body x = Ok (g x)) → for_each body l = Ok (l ≫= g).
Proof.
  induction l as [|x l IH]; intros Hl; [done|].
  cbn [for_each]. rewrite Hl by left. cbn [rbind].
  rewrite IH by (intros y Hy; apply Hl; by right). done.
Qed.

Lemma for_each_Ok_inv {A B} (body : A → result (list B)) l evs :
  for_each body l = Ok evs →
  (∀ x, x ∈ l → body x = Ok (ok_list (body x)))
  ∧ evs = l ≫= (λ x, ok_list (body x)).
Proof.
  revert evs. induction l as [|x l IH]; intros evs Hev.
  - injection Hev as <-. split; [|done]. intros x Hx. by apply elem_of_nil in Hx.
  - cbn [for_each] in Hev.
    destruct (body x) as [ys|] eqn:Hx; [|done]. cbn [rbind] in Hev.
    destruct (for_each body l) as [zs|] eqn:Hl; [|done]. cbn [rbind] in Hev.
    injection Hev as <-. destruct (IH zs eq_refl) as [Hok ->].
    split.
    + intros y Hy. apply elem_of_cons in Hy as [->|Hy]; [by rewrite Hx|by apply Hok].
    + by rewrite bind_cons, Hx.
Qed.

Lemma for_each_elem_of {A B} (body : A → result (list B)) l evs e :
  for_each body l = Ok evs →
  e ∈ evs ↔ ∃ x ys, x ∈ l ∧ body x = Ok ys ∧ e ∈ ys.
Proof.
  intros Hev. apply for_each_Ok_inv in Hev as [Hok ->].
  rewrite list_elem_of_bind. split.
  - intros (x & He & Hx). exists x, (ok_list (body x)). auto.
  - intros (x & ys & Hx & Hb & He). exists x. by rewrite Hb.
Qed.

(** ** The snapshot diff *)

Lemma elem_of_changed_trades type_set R nts cur nxt e :
  e ∈ changed_trades type_set R nts cur nxt ↔
  ∃ x y, x ∈ cur ∧ y ∈ nxt ∧ order_id y = order_id x
         ∧ volume x ≠ volume y ∧ type_id x ∈ type_set
         ∧ e = actual_trade R nts x y.
Proof.
  unfold changed_trades, merge_on_order_id.
  rewrite list_elem_of_bind. split.
  - intros ([x y] & He & Hxy).
    apply list_elem_of_filter in Hxy as [Hvol Hxy].
    apply list_elem_of_bind in Hxy as (x' & Hxy & Hx').
    apply list_elem_of_fmap in Hxy as (y' & [= -> ->] & Hy').
    apply list_elem_of_filter in Hy' as [Hid Hy]. cbn [fst snd] in *.
    case_bool_decide; [|by apply elem_of_nil in He].
    apply list_elem_of_singleton in He. by exists x', y'.
  - intros (x & y & Hx & Hy & Hid & Hvol & Hty & ->).
    exists (x, y). cbn [fst snd]. split.
    + rewrite bool_decide_eq_true_2 by done. by apply list_elem_of_singleton.
    + apply list_elem_of_filter. split; [done|].
      apply list_elem_of_bind. exists x. split; [|done].
      apply list_elem_of_fmap. exists y. split; [done|].
      by apply list_elem_of_filter.
Qed.

Lemma changed_trades_cons type_set R nts x cur nxt :
  changed_trades type_set R nts (x :: cur) nxt =
    changed_trades type_set R nts [x] nxt
      ++ changed_trades type_set R nts cur nxt.
Proof.
  unfold changed_trades, merge_on_order_id.
  rewrite bind_singleton, bind_cons, filter_app, bind_app. done.
Qed.

Lemma changed_trades_bind type_set R nts cur nxt :
  changed_trades type_set R nts cur nxt =
    cur ≫= (λ x, changed_trades type_set R nts [x] nxt).
Proof.
  induction cur as [|x cur IH]; [done|].
  by rewrite changed_trades_cons, bind_cons, IH.
Qed.

Lemma changed_trades_row type_set R nts nxt a b :
  NoDup (order_id <$> nxt) → b ∈ nxt → order_id b = order_id a →
  volume a ≠ volume b → type_id a ∈ type_set →
  changed_trades type_set R nts [a] nxt = [actual_trade R nts a b].
Proof.
  intros Hnd Hb Hid Hvol Hty. unfold changed_trades, merge_on_order_id.
  rewrite bind_singleton.
  replace (filter (λ y, order_id y = order_id a) nxt) with [b].
  2:{ symmetry. rewrite <- Hid. by apply filter_key_unique. }
  rewrite list_fmap_singleton, filter_cons_True, filter_nil by done.
  rewrite bind_singleton. cbn [fst snd].
  by rewrite bool_decide_eq_true_2.
Qed.

Lemma changed_trades_unique type_set R nts cur nxt a b :
  NoDup (order_id <$> cur) → NoDup (order_id <$> nxt) →
  a ∈ cur → b ∈ nxt → order_id b = order_id a →
  volume a ≠ volume b → type_id a ∈ type_set →
  filter (λ e, t_order_id e = order_id a)
    (changed_trades type_set R nts cur nxt) = [actual_trade R nts a b].
Proof.
  intros Hcur Hnxt Ha Hb Hid Hvol Hty.
  rewrite changed_trades_bind.
  rewrite (filter_bind_key order_id t_order_id) by
    (try done; intros x e _ He;
     apply elem_of_changed_trades in He as (x' & y & Hx' & _ & _ & _ & _ & ->);
     apply list_elem_of_singleton in Hx' as ->; done).
  by apply changed_trades_row.
Qed.

Lemma elem_of_removed_orders cur nxt oid :
  oid ∈ removed_orders cur nxt ↔
  oid ∈ order_id <$> cur ∧ oid ∉ order_id <$> nxt.
Proof.
  unfold removed_orders.
  by rewrite elem_of_elements, elem_of_difference, !elem_of_list_to_set.
Qed.

Lemma NoDup_removed_orders cur nxt : NoDup (removed_orders cur nxt).
Proof. apply NoDup_elements. Qed.

Lemma removed_trade_row type_set vtm R cts nts cur a :
  NoDup (order_id <$> cur) → (∀ r, r ∈ cur → date r = cts) → a ∈ cur →
  removed_trade type_set vtm R cts nts cur (order_id a) =
    if bool_decide (type_id a ∈ type_set) then
      match vtm !! type_id a with
      | None => Raise KeyError
      | Some thr =>
          if py_le (volume a) thr then Ok [inferred_trade R nts a] else Ok []
      end
    else Ok [].
Proof.
  intros Hnd Hdate Ha. unfold removed_trade.
  rewrite filter_key_unique by done.
  rewrite filter_cons_True, filter_nil by (by apply Hdate). done.
Qed.

Lemma removed_trade_elem_of type_set vtm R cts nts cur oid ys e :
  removed_trade type_set vtm R cts nts cur oid = Ok ys → e ∈ ys →
  ∃ a thr, a ∈ cur ∧ order_id a = oid ∧ type_id a ∈ type_set
           ∧ vtm !! type_id a = Some thr ∧ py_le (volume a) thr = true
           ∧ e = inferred_trade R nts a.
Proof.
  unfold removed_trade.
  destruct (filter _ (filter _ cur)) as [|a [|a' rows]] eqn:Hrows; [done| |].
  - assert (a ∈ cur ∧ order_id a = oid) as [Ha Hid].
    { assert (a ∈ a :: @nil order_row) as Hin by left.
      rewrite <- Hrows in Hin.
      apply list_elem_of_filter in Hin as [_ Hin].
      apply list_elem_of_filter in Hin as [? ?]. done. }
    case_bool_decide as Hty; [|by intros [= <-] He%elem_of_nil].
    destruct (vtm !! type_id a) as [thr|] eqn:Hthr; [|done].
    destruct (py_le (volume a) thr) eqn:Hle; [|by intros [= <-] He%elem_of_nil].
    intros [= <-] He%list_elem_of_singleton. subst e.
    exists a, thr. subst oid. done.
  - destruct type_set; [by intros [= <-] He%elem_of_nil|done].
Qed.

Lemma removed_trades_Ok type_set vtm R cts nts cur nxt :
  snapshot_ok (cts, cur) →
  (∀ t, t ∈ type_set → is_Some (vtm !! t)) →
  removed_trades type_set vtm R cts nts cur nxt =
    Ok (removed_orders cur nxt ≫=
          λ oid, ok_list (removed_trade type_set vtm R cts nts cur oid)).
Proof.
  intros [Hnd Hdate] Hvtm. apply for_each_Ok. intros oid Hoid.
  apply elem_of_removed_orders in Hoid as [Hoid _].
  apply list_elem_of_fmap in Hoid as (a & -> & Ha).
  rewrite removed_trade_row by done.
  case_bool_decide as Hty; [|done].
  destruct (Hvtm _ Hty) as [thr ->]. by destruct (py_le _ _).
Qed.

Lemma snap_pair_trades_Ok type_set vtm R current next :
  snapshot_ok current →
  (∀ t, t ∈ type_set → is_Some (vtm !! t)) →
  snap_pair_trades type_set vtm R current next =
    Ok (pair_events type_set vtm R current next).
Proof.
  intros Hok Hvtm. unfold snap_pair_trades, pair_events.
  destruct current as [cts cur].
  by rewrite (removed_trades_Ok _ _ _ _ _ _ _ Hok Hvtm).
Qed.

Lemma removed_events_order_id type_set vtm R cts nts cur nxt oid :
  filter (λ e, t_order_id e = oid)
    (removed_orders cur nxt ≫=
       λ oid, ok_list (removed_trade type_set vtm R cts nts cur oid)) =
  if bool_decide (oid ∈ removed_orders cur nxt)
  then ok_list (removed_trade type_set vtm R cts nts cur oid)
  else [].
Proof.
  assert (∀ x e, e ∈ ok_list (removed_trade type_set vtm R cts nts cur x) →
                 t_order_id e = x) as Hkey.
  { intros x e He.
    destruct (removed_trade type_set vtm R cts nts cur x) as [ys|] eqn:Hx;
      [|by apply elem_of_nil in He].
    destruct (removed_trade_elem_of _ _ _ _ _ _ _ _ _ Hx He)
      as (a & thr & _ & <- & _ & _ & _ & ->). done. }
  case_bool_decide as Hin.
  - apply (filter_bind_self t_order_id);
      [apply NoDup_removed_orders|done|by intros x e _; apply Hkey].
  - apply filter_none. intros e He Heq.
    apply list_elem_of_bind in He as (x & He & Hx).
    apply Hkey in He. congruence.
Qed.

(** A changed order: exactly one trade of the pair carries its order id. *)
Lemma pair_events_changed type_set vtm R current next a b :
  NoDup (order_id <$> current.2) → NoDup (order_id <$> next.2) →
  a ∈ current.2 → b ∈ next.2 → order_id b = order_id a →
  volume a ≠ volume b → type_id a ∈ type_set →
  filter (λ e, t_order_id e = order_id a)
    (pair_events type_set vtm R current next) = [actual_trade R next.1 a b].
Proof.
  intros Hcur Hnxt Ha Hb Hid Hvol Hty. unfold pair_events.
  rewrite filter_app, (changed_trades_unique _ _ _ _ _ a b) by done.
  rewrite removed_events_order_id, bool_decide_eq_false_2; [done|].
  rewrite elem_of_removed_orders. intros [_ Hno]. apply Hno.
  rewrite <- Hid. by apply list_elem_of_fmap_2.
Qed.

(** A removed order: one trade when its volume is within the threshold of
    its type, none otherwise. *)
Lemma pair_events_removed type_set vtm R current next a thr :
  snapshot_ok current →
  a ∈ current.2 → order_id a ∉ order_id <$> next.2 →
  type_id a ∈ type_set → vtm !! type_id a = Some thr →
  filter (λ e, t_order_id e = order_id a)
    (pair_events type_set vtm R current next) =
  if py_le (volume a) thr then [inferred_trade R next.1 a] else [].
Proof.
  intros [Hnd Hdate] Ha Hno Hty Hthr. unfold pair_events.
  rewrite filter_app, removed_events_order_id.
  rewrite filter_none.
  2:{ intros e He Heq.
      apply elem_of_changed_trades in He as (x & y & _ & Hy & Hxy & _ & _ & ->).
      apply Hno. cbn in Heq. rewrite <- Heq, <- Hxy.
      by apply list_elem_of_fmap_2. }
  rewrite bool_decide_eq_true_2.
  2:{ apply elem_of_removed_orders. split; [|done]. by apply list_elem_of_fmap_2. }
  rewrite removed_trade_row by done.
  rewrite bool_decide_eq_true_2, Hthr by done.
  by destruct (py_le _ _).
Qed.

(** ** Regions and snapshot pairs *)

Lemma region_trades_unfold type_set obf mhf R :
  region_trades type_set obf mhf R =
    for_each
      (λ p, snap_pair_trades type_set (region_threshold_map type_set mhf R)
              R p.1 p.2)
      (snap_pairs obf R).
Proof. reflexivity. Qed.

Lemma elem_of_snapshot obf R snap r :
  snap ∈ snapshots obf R →
  r ∈ snap.2 ↔ r ∈ obf ∧ region_id r = R ∧ date r = snap.1.
Proof.
  unfold snapshots, groupby_index.
  intros (k & -> & Hk)%list_elem_of_fmap. cbn [fst snd].
  rewrite !list_elem_of_filter. tauto.
Qed.

Lemma fst_snapshots obf R :
  (snapshots obf R).*1 =
    sorted_elements
      (list_to_set (date <$> filter (λ r, region_id r = R) obf)).
Proof.
  unfold snapshots, groupby_index.
  rewrite <- list_fmap_compose. apply list_fmap_id.
Qed.

Lemma snapshots_sorted obf R : StronglySorted Z.lt (snapshots obf R).*1.
Proof. rewrite fst_snapshots. apply sorted_elements_lt. Qed.

Lemma NoDup_fst_snapshots obf R : NoDup (snapshots obf R).*1.
Proof. rewrite fst_snapshots. apply NoDup_sorted_elements. Qed.

Lemma snap_pairs_lookup obf R i current next :
  snap_pairs obf R !! i = Some (current, next) ↔
  snapshots obf R !! i = Some current ∧ snapshots obf R !! S i = Some next.
Proof. unfold snap_pairs. by rewrite lookup_zip_Some, lookup_tail. Qed.

Lemma snap_pairs_next obf R :
  (λ p, p.2.1) <$> snap_pairs obf R = tail (snapshots obf R).*1.
Proof.
  unfold snap_pairs.
  trans ((zip (snapshots obf R) (tail (snapshots obf R))).*2.*1).
  { by rewrite <- list_fmap_compose. }
  rewrite snd_zip.
  - by destruct (snapshots obf R).
  - destruct (snapshots obf R); simpl; lia.
Qed.

Lemma NoDup_snap_pairs_next obf R :
  NoDup ((λ p, p.2.1) <$> snap_pairs obf R).
Proof.
  rewrite snap_pairs_next.
  pose proof (NoDup_fst_snapshots obf R) as Hnd.
  destruct ((snapshots obf R).*1); [done|].
  by apply NoDup_cons in Hnd as [_ ?].
Qed.

(** Consecutive snapshots are in strictly ascending time order. *)
Lemma snap_pairs_ascending obf R current next :
  (current, next) ∈ snap_pairs obf R → current.1 < next.1.
Proof.
  intros (i & Hi)%list_elem_of_lookup.
  apply snap_pairs_lookup in Hi as [Hc Hn].
  pose proof (snapshots_sorted obf R) as Hs.
  apply (StronglySorted_lookup_lt _ _ i (S i) _ _ Hs); [..|lia].
  - by rewrite list_lookup_fmap, Hc.
  - by rewrite list_lookup_fmap, Hn.
Qed.

Lemma unique_order_ids_snapshot obf region_set R snap :
  unique_order_ids obf region_set → R ∈ region_set →
  snap ∈ snapshots obf R → NoDup (order_id <$> snap.2).
Proof.
  unfold unique_order_ids. rewrite Forall_forall. intros Hu HR.
  specialize (Hu R HR). rewrite Forall_forall in Hu. apply Hu.
Qed.

Lemma region_threshold_map_is_Some type_set mhf R t :
  t ∈ type_set → is_Some (region_threshold_map type_set mhf R !! t).
Proof.
  intros Ht. unfold region_threshold_map.
  rewrite volume_threshold_map_lookup by done. eauto.
Qed.

Lemma region_trades_Ok type_set obf mhf R :
  (∀ snap, snap ∈ snapshots obf R → NoDup (order_id <$> snap.2)) →
  region_trades type_set obf mhf R = Ok (region_events type_set obf mhf R).
Proof.
  intros Hnd. rewrite region_trades_unfold. apply for_each_Ok.
  intros [current next] Hp. cbn [fst snd].
  apply snap_pair_trades_Ok.
  - apply elem_of_zip_l in Hp. split; [by apply Hnd|].
    intros r Hr. by apply (elem_of_snapshot obf R current r) in Hr as (_ & _ & ?).
  - intros t. apply region_threshold_map_is_Some.
Qed.

Lemma infer_trades_Ok type_set region_set obf mhf :
  unique_order_ids obf region_set →
  infer_trades type_set region_set obf mhf =
    Ok (region_set ≫= region_events type_set obf mhf).
Proof.
  intros Hu. unfold infer_trades. apply for_each_Ok.
  intros R HR. apply region_trades_Ok. intros snap.
  by apply unique_order_ids_snapshot with region_set.
Qed.

(** ** Where a trade comes from *)

Lemma trade_origin_fields type_set vtm R current next a e :
  trade_origin type_set vtm R current next a e →
  t_region_id e = R ∧ t_timestamp e = next.1 ∧ t_type_id e = type_id a
  ∧ t_order_id e = order_id a ∧ t_buy e = buy a
  ∧ t_location e = py_str (trade_location a).
Proof.
  intros (_ & _ & [(b & _ & _ & _ & ->)|(_ & thr & _ & _ & ->)]); done.
Qed.

Lemma removed_trade_origin type_set vtm R current next oid ys e :
  oid ∈ removed_orders current.2 next.2 →
  removed_trade type_set vtm R current.1 next.1 current.2 oid = Ok ys →
  e ∈ ys →
  ∃ a, trade_origin type_set vtm R current next a e.
Proof.
  intros Hoid Hys He.
  destruct (removed_trade_elem_of _ _ _ _ _ _ _ _ _ Hys He)
    as (a & thr & Ha & <- & Hty & Hthr & Hle & ->).
  exists a. split; [done|]. split; [done|]. right.
  apply elem_of_removed_orders in Hoid as [_ Hno]. split; [done|].
  by exists thr.
Qed.

Lemma changed_trades_origin type_set vtm R current next e :
  e ∈ changed_trades type_set R next.1 current.2 next.2 →
  ∃ a, trade_origin type_set vtm R current next a e.
Proof.
  intros (x & y & Hx & Hy & Hid & Hvol & Hty & ->)%elem_of_changed_trades.
  exists x. split; [done|]. split; [done|]. left. by exists y.
Qed.

Lemma snap_pair_trades_origin type_set vtm R current next evs e :
  snap_pair_trades type_set vtm R current next = Ok evs → e ∈ evs →
  ∃ a, trade_origin type_set vtm R current next a e.
Proof.
  unfold snap_pair_trades.
  destruct (removed_trades _ _ _ _ _ _ _) as [removed|] eqn:Hrem; [|done].
  cbn [rbind]. intros [= <-] [He|He]%elem_of_app.
  - by apply changed_trades_origin.
  - unfold removed_trades in Hrem.
    apply (for_each_elem_of _ _ _ e) in Hrem.
    apply Hrem in He as (oid & ys & Hoid & Hys & He).
    by apply (removed_trade_origin _ _ _ _ _ oid ys).
Qed.

Lemma pair_events_origin type_set vtm R current next e :
  e ∈ pair_events type_set vtm R current next →
  ∃ a, trade_origin type_set vtm R current next a e.
Proof.
  unfold pair_events. intros [He|He]%elem_of_app.
  - by apply changed_trades_origin.
  - apply list_elem_of_bind in He as (oid & He & Hoid).
    destruct (removed_trade _ _ _ _ _ _ oid) as [ys|] eqn:Hys;
      [|by apply elem_of_nil in He].
    by apply (removed_trade_origin _ _ _ _ _ oid ys).
Qed.

Lemma infer_trades_origin type_set region_set obf mhf evs e :
  infer_trades type_set region_set obf mhf = Ok evs → e ∈ evs →
  ∃ R current next a,
    R ∈ region_set ∧ (current, next) ∈ snap_pairs obf R
    ∧ trade_origin type_set (region_threshold_map type_set mhf R) R
        current next a e.
Proof.
  unfold infer_trades. intros Hev He.
  apply (for_each_elem_of _ _ _ e) in Hev.
  apply Hev in He as (R & ys & HR & Hys & He).
  rewrite region_trades_unfold in Hys.
  apply (for_each_elem_of _ _ _ e) in Hys.
  apply Hys in He as ([current next] & zs & Hp & Hzs & He).
  destruct (snap_pair_trades_origin _ _ _ _ _ _ _ Hzs He) as [a Ha].
  by exists R, current, next, a.
Qed.

(** The trades of one region and one snapshot pair within the result of
    a whole call. *)
Lemma region_events_select type_set region_set obf mhf R current next :
  NoDup region_set → R ∈ region_set →
  (current, next) ∈ snap_pairs obf R →
  filter (λ e, t_timestamp e = next.1 ∧ t_region_id e = R)
    (region_set ≫= region_events type_set obf mhf) =
  pair_events type_set (region_threshold_map type_set mhf R) R current next.
Proof.
  intros Hnd HR Hp. rewrite <- list_filter_filter.
  rewrite (filter_bind_self t_region_id (region_events type_set obf mhf)
             region_set R); [|done..|].
  2:{ intros R' e _ (p & He & _)%list_elem_of_bind.
      apply pair_events_origin in He as [a Ha].
      by apply trade_origin_fields in Ha as (? & _). }
  unfold region_events.
  apply (filter_bind_key (λ p, p.2.1) t_timestamp
           (λ p, pair_events type_set (region_threshold_map type_set mhf R)
                   R p.1 p.2)
           (snap_pairs obf R) (current, next));
    [apply NoDup_snap_pairs_next|done|].
  intros p e _ He. apply pair_events_origin in He as [a Ha].
  by apply trade_origin_fields in Ha as (_ & ? & _).
Qed.

Lemma ex_book_unique : unique_order_ids ex_book [10].
Proof. unfold unique_order_ids. apply (bool_decide_unpack _). by vm_compute. Qed.

Lemma ex_book_pair : (ex_current, ex_next) ∈ snap_pairs ex_book 10.
Proof. apply list_elem_of_lookup. exists 0%nat. by vm_compute. Qed.

(** ** Changed and removed orders *)

Lemma elem_of_tail {A} (x : A) (l : list A) : x ∈ tail l → x ∈ l.
Proof. destruct l; [done|]. by right. Qed.

Lemma snap_pairs_snapshots obf R current next :
  (current, next) ∈ snap_pairs obf R →
  current ∈ snapshots obf R ∧ next ∈ snapshots obf R.
Proof.
  intros Hp. split.
  - by apply elem_of_zip_l in Hp.
  - apply elem_of_zip_r in Hp. by apply elem_of_tail.
Qed.

Lemma wrap_int64_id z : - 2 ^ 63 ≤ z < 2 ^ 63 → wrap_int64 z = z.
Proof.
  intros Hz. unfold wrap_int64.
  change (2 ^ 63) with 9223372036854775808 in *.
  change (2 ^ 64) with 18446744073709551616.
  rewrite Z.mod_small by lia. lia.
Qed.

(** C4: for a consecutive snapshot pair [(current, next)] of a region and
    an order present in both with different volumes, whose type is in the
    type set, [infer_trades] returns exactly one trade for that order,
    pair and region: it has [actual = true], the volume
    [volume current - volume next] (whatever its sign), the price of the
    order in [next] and the time of [next]. The volumes of the order book
    are non-negative [int64] values, so that the difference does not wrap
    around. *)
Theorem changed_volume_trade type_set region_set obf mhf R current next a b :
  unique_order_ids obf region_set → NoDup region_set → R ∈ region_set →
  Forall (λ r, 0 ≤ volume r < 2 ^ 63) obf →
  (current, next) ∈ snap_pairs obf R →
  a ∈ current.2 → b ∈ next.2 → order_id b = order_id a →
  volume a ≠ volume b → type_id a ∈ type_set →
  ∃ evs,
    infer_trades type_set region_set obf mhf = Ok evs
    ∧ filter (λ e, t_order_id e = order_id a
                   ∧ t_timestamp e = next.1 ∧ t_region_id e = R) evs =
      [ {| t_timestamp := next.1;
           t_region_id := R;
           t_type_id := type_id a;
           t_actual := true;
           t_buy := buy a;
           t_order_id := order_id a;
           t_price := price b;
           t_volume := volume a - volume b;
           t_location := py_str (trade_location a) |} ].
Proof.
  intros Hu Hnd HR Hvols Hp Ha Hb Hid Hvol Hty.
  exists (region_set ≫= region_events type_set obf mhf).
  split; [by apply infer_trades_Ok|].
  rewrite <- list_filter_filter.
  rewrite (region_events_select _ _ _ _ R current next) by done.
  destruct (snap_pairs_snapshots _ _ _ _ Hp) as [Hc Hn].
  rewrite (pair_events_changed _ _ _ _ _ a b); try done.
  - unfold actual_trade. rewrite wrap_int64_id; [done|].
    apply (elem_of_snapshot obf R current a) in Ha as (Ha & _); [|done].
    apply (elem_of_snapshot obf R next b) in Hb as (Hb & _); [|done].
    rewrite Forall_forall in Hvols.
    pose proof (Hvols a Ha). pose proof (Hvols b Hb). lia.
  - by apply (unique_order_ids_snapshot obf region_set R).
  - by apply (unique_order_ids_snapshot obf region_set R).
Qed.

Lemma changed_volume_trade_witness :
  ∃ evs,
    infer_trades [34] [10] ex_book (ex_history 34 10 125 5) = Ok evs
    ∧ filter (λ e, t_order_id e = 1 ∧ t_timestamp e = 200
                   ∧ t_region_id e = 10) evs =
      [ {| t_timestamp := 200; t_region_id := 10; t_type_id := 34;
           t_actual := true; t_buy := false; t_order_id := 1;
           t_price := 5; t_volume := 6; t_location := "60001" |} ].
Proof.
  apply (changed_volume_trade [34] [10] ex_book (ex_history 34 10 125 5) 10
           ex_current ex_next
           (mk_row 100 34 10 1 false 5.25 10 "region" 60001)
           (mk_row 200 34 10 1 false 5 4 "region" 60001)).
  - apply ex_book_unique.
  - apply NoDup_singleton.
  - by left.
  - apply (bool_decide_unpack _). by vm_compute.
  - apply ex_book_pair.
  - by left.
  - by left.
  - reflexivity.
  - simpl. lia.
  - by left.
Defined.

(** The comparison of a volume with a threshold, as the code makes it,
    is the exact comparison while the volume is below 2^53 in absolute
    value. *)
Lemma py_le_within v thr :
  Z.abs v < 2 ^ 53 → py_le v thr = within_threshold v thr.
Proof.
  intros Hv. destruct thr as [z|f]; [done|]. by apply float_leb_int.
Qed.

(** What [infer_trades] returns for an order that is gone from the next
    snapshot. *)
Lemma removed_order_events type_set region_set obf mhf R current next a thr :
  unique_order_ids obf region_set → NoDup region_set → R ∈ region_set →
  (current, next) ∈ snap_pairs obf R →
  a ∈ current.2 → order_id a ∉ order_id <$> next.2 →
  type_id a ∈ type_set →
  region_threshold_map type_set mhf R !! type_id a = Some thr →
  ∃ evs,
    infer_trades type_set region_set obf mhf = Ok evs
    ∧ filter (λ e, t_order_id e = order_id a
                   ∧ t_timestamp e = next.1 ∧ t_region_id e = R) evs =
      if py_le (volume a) thr then [inferred_trade R next.1 a] else [].
Proof.
  intros Hu Hnd HR Hp Ha Hno Hty Hthr.
  exists (region_set ≫= region_events type_set obf mhf).
  split; [by apply infer_trades_Ok|].
  rewrite <- list_filter_filter.
  rewrite (region_events_select _ _ _ _ R current next) by done.
  destruct (snap_pairs_snapshots _ _ _ _ Hp) as [Hc Hn].
  apply pair_events_removed; try done.
  split.
  - by apply (unique_order_ids_snapshot obf region_set R).
  - intros r Hr. by apply (elem_of_snapshot obf R current r) in Hr as (_ & _ & ?).
Qed.



(** The whole result on the example, with the threshold [125 * 0.04 = 5]:
    order 1 went from 10 to 4, order 2 (volume 3) and order 3 (volume 50)
    disappeared. *)
Example ex_infer_trades :
  region_threshold_map [34] (ex_history 34 10 125 5) 10 !! 34
    = Some (PyFloat 5)
  ∧ infer_trades [34] [10] ex_book (ex_history 34 10 125 5) =
      Ok [ {| t_timestamp := 200; t_region_id := 10; t_type_id := 34;
              t_actual := true; t_buy := false; t_order_id := 1;
              t_price := 5; t_volume := 6; t_location := "60001" |};
           {| t_timestamp := 200; t_region_id := 10; t_type_id := 34;
              t_actual := false; t_buy := true; t_order_id := 2;
              t_price := 7; t_volume := 3; t_location := "None" |} ].
Proof. split; by vm_compute. Qed.

(** ** Trade locations *)

Lemma py_str_trade_location a :
  py_str (trade_location a) = "None" ↔
  buy a = true ∧ order_range a ≠ "station".
Proof.
  unfold trade_location.
  destruct (buy a); cbn [andb].
  - case_bool_decide as Hst; cbn [negb py_str].
    + split; [|by intros [_ ?]]. intros Hp. by apply pretty_Z_not_None in Hp.
    + done.
  - cbn [py_str]. split; [|by intros [? _]].
    intros Hp. by apply pretty_Z_not_None in Hp.
Qed.

Lemma py_str_trade_location_id a :
  ¬ (buy a = true ∧ order_range a ≠ "station") →
  py_str (trade_location a) = pretty (location_id a).
Proof.
  unfold trade_location. intros Hn.
  destruct (buy a); cbn [andb]; [|done].
  case_bool_decide as Hst; [done|]. by destruct Hn.
Qed.

(** C6: every trade returned by [infer_trades], of either kind, comes from
    an order [a] of the earlier snapshot of a consecutive pair; its
    location is the string "None" exactly when [a] is a buy order whose
    range is not "station", and is otherwise the location id of [a]. *)
Theorem trade_location_rule type_set region_set obf mhf evs e :
  infer_trades type_set region_set obf mhf = Ok evs → e ∈ evs →
  ∃ R current next a,
    R ∈ region_set ∧ (current, next) ∈ snap_pairs obf R ∧ a ∈ current.2
    ∧ t_region_id e = R ∧ t_timestamp e = next.1
    ∧ t_order_id e = order_id a
    ∧ (t_location e = "None" ↔ buy a = true ∧ order_range a ≠ "station")
    ∧ (¬ (buy a = true ∧ order_range a ≠ "station") →
       t_location e = pretty (location_id a)).
Proof.
  intros Hev He.
  destruct (infer_trades_origin _ _ _ _ _ _ Hev He)
    as (R & current & next & a & HR & Hp & Ho).
  pose proof Ho as (Ha & _).
  apply trade_origin_fields in Ho as (Hr & Ht & _ & Hid & _ & Hloc).
  exists R, current, next, a. rewrite Hloc.
  split_and!; try done.
  - apply py_str_trade_location.
  - apply py_str_trade_location_id.
Qed.

Lemma trade_location_rule_witness :
  let e := {| t_timestamp := 200; t_region_id := 10; t_type_id := 34;
              t_actual := false; t_buy := true; t_order_id := 2;
              t_price := 7; t_volume := 3; t_location := "None" |} in
  ∃ R current next a,
    R ∈ [10] ∧ (current, next) ∈ snap_pairs ex_book R ∧ a ∈ current.2
    ∧ t_region_id e = R ∧ t_timestamp e = next.1
    ∧ t_order_id e = order_id a
    ∧ (t_location e = "None" ↔ buy a = true ∧ order_range a ≠ "station")
    ∧ (¬ (buy a = true ∧ order_range a ≠ "station") →
       t_location e = pretty (location_id a)).
Proof.
  intros e.
  apply (trade_location_rule [34] [10] ex_book (ex_history 34 10 125 5)
           _ e (proj2 ex_infer_trades)).
  right. by left.
Defined.

(** ** Thresholds *)

Lemma volume_series_eq mhf R T :
  h_volume <$> by_type (by_region mhf R) T = volume_series mhf R T.
Proof.
  unfold by_type, by_region, volume_series. f_equal.
  rewrite list_filter_filter. apply list_filter_iff. intros h. tauto.
Qed.

Lemma region_threshold_lookup type_set mhf R T :
  T ∈ type_set →
  region_threshold_map type_set mhf R !! T =
    Some (type_threshold (volume_series mhf R T)).
Proof.
  intros HT. unfold region_threshold_map.
  by rewrite volume_threshold_map_lookup, volume_series_eq.
Qed.

Lemma PyFloat_ne (x y : float) :
  PrimFloat.eqb x y = false → PrimFloat.eqb y y = true →
  PyFloat x ≠ PyFloat y.
Proof.
  intros Hxy Hyy Heq.
  assert (x = y) as ->.
  { by apply (f_equal (λ t, match t with PyFloat f => f | PyInt _ => x end))
      in Heq. }
  by rewrite Hyy in Hxy.
Qed.

(** C5, as stated, fails. With four days of history the threshold is NaN,
    not the mean 125 of the available days times 0.04; and with the
    seven days below the threshold is 4.216, not 0.12, the mean 3 of the
    five most recent days times 0.04: the running sum still carries the
    rounding error of the two large volumes that have left the window. *)
Lemma threshold_differs_from_recent_mean :
  type_threshold [125; 125; 125; 125] = PyFloat nan
  ∧ mean_threshold [125; 125; 125; 125] = PyFloat 5
  ∧ type_threshold [125; 125; 125; 125] ≠ mean_threshold [125; 125; 125; 125]
  ∧ type_threshold [100000000000000426; 2 ^ 62; 1; 2; 3; 4; 5]
      = PyFloat 0x1.0dd2f1a9fbe77p+2
  ∧ mean_threshold [100000000000000426; 2 ^ 62; 1; 2; 3; 4; 5]
      = PyFloat 0x1.eb851eb851eb8p-4
  ∧ type_threshold [100000000000000426; 2 ^ 62; 1; 2; 3; 4; 5]
      ≠ mean_threshold [100000000000000426; 2 ^ 62; 1; 2; 3; 4; 5].
Proof.
  assert (type_threshold [125; 125; 125; 125] = PyFloat nan) as H1
    by (by vm_compute).
  assert (mean_threshold [125; 125; 125; 125] = PyFloat 5) as H2
    by (by vm_compute).
  assert (type_threshold [100000000000000426; 2 ^ 62; 1; 2; 3; 4; 5]
            = PyFloat 0x1.0dd2f1a9fbe77p+2) as H3 by (by vm_compute).
  assert (mean_threshold [100000000000000426; 2 ^ 62; 1; 2; 3; 4; 5]
            = PyFloat 0x1.eb851eb851eb8p-4) as H4 by (by vm_compute).
  split_and!; try done.
  all: rewrite ?H1, ?H2, ?H3, ?H4; by apply PyFloat_ne.
Qed.

(** C5, amended: for the history series of a type in a region, made of
    non-negative volumes below 2^50, the threshold is the integer 0 when
    the series is empty, and then every inferred trade of that type and
    region has a volume [≤ 0]; it is NaN when the series has one to
    four entries; with five entries or more it is the exact sum of the
    five most recent ones, divided by 5 and multiplied by 0.04 in
    binary64. *)
Theorem volume_threshold_rule type_set region_set obf mhf R T :
  T ∈ type_set →
  Forall (λ v, 0 ≤ v < 2 ^ 50) (volume_series mhf R T) →
  let series := volume_series mhf R T in
  region_threshold_map type_set mhf R !! T =
    Some (if bool_decide (series = []) then PyInt 0
          else if bool_decide (length series < 5)%nat then PyFloat nan
          else PyFloat
                 (PrimFloat.mul
                    (PrimFloat.div
                       (float_of_Z (sum_Z (drop (length series - 5) series)))
                       5)
                    0x1.47ae147ae147bp-5))
  ∧ (series = [] →
     ∀ evs e,
       infer_trades type_set region_set obf mhf = Ok evs → e ∈ evs →
       t_actual e = false → t_region_id e = R → t_type_id e = T →
       t_volume e ≤ 0).
Proof.
  intros HT Hvs series. split.
  - rewrite region_threshold_lookup by done. f_equal. fold series.
    case_bool_decide as Hnil; [by rewrite Hnil|].
    case_bool_decide as Hlen.
    + apply type_threshold_short. split; [|done].
      destruct series; [done|simpl; lia].
    + apply type_threshold_exact; [done|lia].
  - intros Hnil evs e Hev He Hact HeR HeT.
    destruct (infer_trades_origin _ _ _ _ _ _ Hev He)
      as (R' & current & next & a & HR & Hp & Ho).
    pose proof (trade_origin_fields _ _ _ _ _ _ _ Ho) as (Hr & _ & Hty & _).
    destruct Ho as (_ & Hin & [(b & _ & _ & _ & ->)|(_ & thr & Hthr & Hle & ->)]);
      [done|].
    rewrite HeR in Hr. subst R'. cbn in HeT. rewrite HeT in Hthr.
    rewrite region_threshold_lookup in Hthr by done.
    fold series in Hthr. rewrite Hnil in Hthr. injection Hthr as <-.
    by apply py_le_zero.
Qed.

Lemma volume_threshold_rule_witness :
  region_threshold_map [34] (ex_history 34 10 125 6) 10 !! 34 =
    Some (PyFloat 5)
  ∧ (volume_series (ex_history 34 10 125 6) 10 34 = [] →
     ∀ evs e,
       infer_trades [34] [10] ex_book (ex_history 34 10 125 6) = Ok evs →
       e ∈ evs →
       t_actual e = false → t_region_id e = 10 → t_type_id e = 34 →
       t_volume e ≤ 0).
Proof.
  destruct (volume_threshold_rule [34] [10] ex_book (ex_history 34 10 125 6)
              10 34) as [Hthr Hzero].
  - by left.
  - apply (bool_decide_unpack _). by vm_compute.
  - split; [|exact Hzero]. rewrite Hthr. by vm_compute.
Defined.

(** Thresholds on concrete series: five days of volume 125 give
    [125 * 0.04 = 5]; of six such days the oldest is not used; no history
    gives the integer 0; fewer than five days give NaN. *)
Example ex_type_threshold :
  type_threshold [125; 125; 125; 125; 125] = PyFloat 5
  ∧ type_threshold [1000000; 125; 125; 125; 125; 125] = PyFloat 5
  ∧ type_threshold [] = PyInt 0
  ∧ type_threshold [125; 125; 125; 125] = PyFloat nan.
Proof. split_and!; by vm_compute. Qed.

(** C9: when the history series of a type in a region has between one and
    four entries, the last value of its rolling mean is NaN, so is the
    threshold, and [infer_trades] returns no trade with [actual = false]
    of that type in that region. *)
Theorem short_history_no_inferred_trade type_set region_set obf mhf R T evs :
  let series := h_volume <$> by_type (by_region mhf R) T in
  (0 < length series < 5)%nat →
  infer_trades type_set region_set obf mhf = Ok evs →
  last (rolling_mean 5 series) = Some nan
  ∧ type_threshold series = PyFloat nan
  ∧ (T ∈ type_set →
     region_threshold_map type_set mhf R !! T = Some (PyFloat nan))
  ∧ ∀ e, e ∈ evs → t_region_id e = R → t_type_id e = T → t_actual e = true.
Proof.
  intros series Hlen Hev.
  assert (series ≠ []) as Hne by (intros Heq; rewrite Heq in Hlen; simpl in Hlen; lia).
  assert (∀ t, t ∈ type_set → t = T →
               region_threshold_map type_set mhf R !! t = Some (PyFloat nan))
    as Hmap.
  { intros t Ht ->. unfold region_threshold_map.
    rewrite volume_threshold_map_lookup by done.
    f_equal. by apply type_threshold_short. }
  split_and!.
  - by apply last_rolling_mean_short.
  - by apply type_threshold_short.
  - intros HT. by apply Hmap.
  - intros e He HeR HeT.
    destruct (infer_trades_origin _ _ _ _ _ _ Hev He)
      as (R' & current & next & a & HR & Hp & Ho).
    pose proof (trade_origin_fields _ _ _ _ _ _ _ Ho) as (Hr & _ & Hty & _).
    destruct Ho as (_ & Hin & [(b & _ & _ & _ & ->)|(_ & thr & Hthr & Hle & ->)]);
      [done|].
    rewrite HeR in Hr. subst R'. rewrite HeT in Hty.
    rewrite (Hmap (type_id a)) in Hthr by done.
    injection Hthr as <-. by rewrite py_le_nan in Hle.
Qed.

Lemma short_history_no_inferred_trade_witness :
  last (rolling_mean 5 (h_volume <$> by_type (by_region (ex_history 34 10 125 4) 10) 34))
    = Some nan
  ∧ type_threshold (h_volume <$> by_type (by_region (ex_history 34 10 125 4) 10) 34)
    = PyFloat nan
  ∧ (34 ∈ [34] →
     region_threshold_map [34] (ex_history 34 10 125 4) 10 !! 34
       = Some (PyFloat nan))
  ∧ ∀ e, e ∈ [ {| t_timestamp := 200; t_region_id := 10; t_type_id := 34;
                  t_actual := true; t_buy := false; t_order_id := 1;
                  t_price := 5; t_volume := 6; t_location := "60001" |} ] →
         t_region_id e = 10 → t_type_id e = 34 → t_actual e = true.
Proof.
  apply (short_history_no_inferred_trade [34] [10] ex_book
           (ex_history 34 10 125 4) 10 34).
  - vm_compute. lia.
  - by vm_compute.
Defined.

Lemma PyFloat_5_ne_10 : Some (PyFloat 5) ≠ Some (PyFloat 10).
Proof.
  intros H.
  apply (f_equal (λ o, match o with
                       | Some (PyFloat f) => PrimFloat.leb f 5
                       | _ => false
                       end)) in H.
  vm_compute in H. discriminate H.
Qed.

(** C2, as stated, fails: in one batch the threshold of type 34 is 5 in
    region 10 and 10 in region 20, and the removed order of volume 8 is a
    trade in region 20 only. *)
Lemma thresholds_differ_between_regions :
  region_threshold_map [34] cx_history 10 !! 34 = Some (PyFloat 5)
  ∧ region_threshold_map [34] cx_history 20 !! 34 = Some (PyFloat 10)
  ∧ region_threshold_map [34] cx_history 10 !! 34
      ≠ region_threshold_map [34] cx_history 20 !! 34
  ∧ infer_trades [34] [10; 20] cx_book cx_history =
      Ok [ {| t_timestamp := 200; t_region_id := 20; t_type_id := 34;
              t_actual := false; t_buy := false; t_order_id := 6;
              t_price := 3; t_volume := 8; t_location := "60002" |} ].
Proof.
  assert (region_threshold_map [34] cx_history 10 !! 34 = Some (PyFloat 5))
    as H10 by (by vm_compute).
  assert (region_threshold_map [34] cx_history 20 !! 34 = Some (PyFloat 10))
    as H20 by (by vm_compute).
  split_and!; [done|done| |by vm_compute].
  rewrite H10, H20. apply PyFloat_5_ne_10.
Qed.

(** C2, amended: while region [R] is processed the threshold of a type
    of the type set is computed from the history rows of that type in
    region [R] alone, and it is the threshold that is applied there: an
    order of that type that is gone from the next snapshot of [R] gives
    its inferred trade exactly when its volume is at most that threshold.
    Two regions have the same threshold for the type whenever their
    volume series for it are the same. *)
Theorem threshold_per_region type_set region_set obf mhf R current next a :
  unique_order_ids obf region_set → NoDup region_set → R ∈ region_set →
  (current, next) ∈ snap_pairs obf R →
  a ∈ current.2 → order_id a ∉ order_id <$> next.2 →
  type_id a ∈ type_set → Z.abs (volume a) < 2 ^ 53 →
  let series R' :=
    h_volume <$> filter (λ h, h_region_id h = R' ∧ h_type_id h = type_id a)
                   mhf in
  region_threshold_map type_set mhf R !! type_id a
    = Some (type_threshold (series R))
  ∧ (∃ evs,
       infer_trades type_set region_set obf mhf = Ok evs
       ∧ filter (λ e, t_order_id e = order_id a
                      ∧ t_timestamp e = next.1 ∧ t_region_id e = R) evs =
         if within_threshold (volume a) (type_threshold (series R))
         then [inferred_trade R next.1 a] else [])
  ∧ ∀ R2, series R = series R2 →
          region_threshold_map type_set mhf R !! type_id a
            = region_threshold_map type_set mhf R2 !! type_id a.
Proof.
  intros Hu Hnd HR Hp Ha Hno Hty Hvol series.
  assert (∀ R', region_threshold_map type_set mhf R' !! type_id a
                = Some (type_threshold (series R'))) as Hmap.
  { intros R'. by apply region_threshold_lookup. }
  split_and!.
  - apply Hmap.
  - destruct (removed_order_events _ _ _ _ _ _ _ _ _ Hu Hnd HR Hp Ha Hno Hty
                (Hmap R)) as (evs & Hev & Hf).
    exists evs. split; [done|]. by rewrite Hf, py_le_within.
  - intros R2 Heq. by rewrite !Hmap, Heq.
Qed.

(** In the two regions of [cx_book] the order of volume 8 that disappears
    is judged by the threshold of its own region: 5 in region 10, where
    it gives no trade. *)
Lemma threshold_per_region_witness :
  let series R' :=
    h_volume <$> filter (λ h, h_region_id h = R' ∧ h_type_id h = 34)
                   cx_history in
  region_threshold_map [34] cx_history 10 !! 34
    = Some (type_threshold (series 10))
  ∧ (∃ evs,
       infer_trades [34] [10; 20] cx_book cx_history = Ok evs
       ∧ filter (λ e, t_order_id e = 5 ∧ t_timestamp e = 200
                      ∧ t_region_id e = 10) evs = [])
  ∧ ∀ R2, series 10 = series R2 →
          region_threshold_map [34] cx_history 10 !! 34
            = region_threshold_map [34] cx_history R2 !! 34.
Proof.
  apply (threshold_per_region [34] [10; 20] cx_book cx_history 10
           (100, [ mk_row 100 34 10 5 false 3 8 "region" 60001;
                   mk_row 100 34 10 7 false 3 1 "region" 60001 ])
           (200, [ mk_row 200 34 10 7 false 3 1 "region" 60001 ])
           (mk_row 100 34 10 5 false 3 8 "region" 60001)).
  - repeat constructor; apply (bool_decide_unpack _); by vm_compute.
  - apply (bool_decide_unpack _). by vm_compute.
  - by left.
  - by left.
  - by left.
  - apply (bool_decide_unpack _). by vm_compute.
  - by left.
  - by vm_compute.
Defined.

(** ** The history query *)

Lemma history_date_range_eq D :
  history_date_range D = [D - 6; D - 5; D - 4; D - 3; D - 2; D - 1].
Proof.
  unfold history_date_range, date_range.
  replace (D - 1 - (D - 6) + 1) with 6 by lia.
  change (Z.to_nat 6) with 6%nat. cbn [seq fmap list_fmap].
  repeat f_equal; lia.
Qed.

(** C8: for every compute date [D], [get_market_history] queries the
    provider for the dates of the inclusive range [D - 6 .. D - 1]: the
    range covers the five days [D - 5 .. D - 1] immediately before [D]
    and does not contain [D] itself. *)
Theorem history_query_dates get_data_frame D types regions :
  get_market_history get_data_frame D types regions =
    get_data_frame [D - 6; D - 5; D - 4; D - 3; D - 2; D - 1] types regions
  ∧ (∀ d, d ∈ history_date_range D ↔ D - 6 ≤ d ≤ D - 1)
  ∧ (∀ d, D - 5 ≤ d ≤ D - 1 → d ∈ history_date_range D)
  ∧ length (history_date_range D) = 6%nat
  ∧ D ∉ history_date_range D.
Proof.
  unfold get_market_history. rewrite history_date_range_eq.
  split_and!; [done| | |done|].
  - intros d. rewrite !elem_of_cons, elem_of_nil. lia.
  - intros d Hd. rewrite !elem_of_cons, elem_of_nil. lia.
  - rewrite !not_elem_of_cons. split_and!; (lia || apply not_elem_of_nil).
Qed.

(** ** The written document *)

Lemma bind_fmap {A B C} (f : A → B) (g : B → list C) (l : list A) :
  (f <$> l) ≫= g = l ≫= (λ x, g (f x)).
Proof.
  induction l as [|x l IH]; [done|].
  by rewrite fmap_cons, !bind_cons, IH.
Qed.

Lemma write_type_render trade_list ty :
  write_type trade_list ty =
    render_type (ty, region_blocks
                       (sort_by t_timestamp
                          (filter (λ x, t_type_id x = ty) trade_list))).
Proof.
  unfold write_type, render_type, region_blocks. cbn [fst snd].
  by rewrite length_fmap, bind_fmap.
Qed.

Lemma write_trades_render fobj trade_list :
  write_trades fobj trade_list = fobj ++ render (type_blocks trade_list).
Proof.
  unfold write_trades, render, type_blocks. f_equal.
  rewrite bind_fmap.
  induction (sorted_elements _) as [|ty l IH]; [done|].
  by rewrite !bind_cons, IH, write_type_render.
Qed.

Lemma StronglySorted_filter {A} (R : relation A) (P : A → Prop)
    `{!∀ x, Decision (P x)} (l : list A) :
  StronglySorted R l → StronglySorted R (filter P l).
Proof.
  induction 1 as [|x l Hl IH Hx]; [constructor|].
  rewrite filter_cons. case_decide; [|done].
  constructor; [done|].
  apply Forall_forall. intros y [_ Hy]%list_elem_of_filter.
  rewrite Forall_forall in Hx. by apply Hx.
Qed.

Lemma fst_region_blocks trades :
  (region_blocks trades).*1 =
    sorted_elements (list_to_set (t_region_id <$> trades)).
Proof.
  unfold region_blocks. rewrite <- list_fmap_compose. apply list_fmap_id.
Qed.

Lemma fst_type_blocks trade_list :
  (type_blocks trade_list).*1 =
    sorted_elements (list_to_set (t_type_id <$> trade_list)).
Proof.
  unfold type_blocks. rewrite <- list_fmap_compose. apply list_fmap_id.
Qed.

(** C7: what one call of [write_trades] appends to the file is the
    rendering of a list of type blocks in which the type ids are the
    distinct type ids of the trades of this call, in ascending order; in
    each type block the region ids are the distinct regions of that type's
    trades, in ascending order; and each region block holds exactly the
    trades of this call of that type and region, in ascending timestamp
    order. What was written before is left as it is. *)
Theorem write_trades_sorted fobj trade_list :
  ∃ doc : list type_block,
    write_trades fobj trade_list = fobj ++ render doc
    ∧ StronglySorted Z.lt doc.*1
    ∧ (∀ ty, ty ∈ doc.*1 ↔ ty ∈ t_type_id <$> trade_list)
    ∧ ∀ ty regions, (ty, regions) ∈ doc →
        StronglySorted Z.lt regions.*1
        ∧ (∀ r, r ∈ regions.*1 ↔
                ∃ x, x ∈ trade_list ∧ t_type_id x = ty ∧ t_region_id x = r)
        ∧ ∀ r trades, (r, trades) ∈ regions →
            StronglySorted Z.le (t_timestamp <$> trades)
            ∧ trades ≡ₚ filter (λ x, t_region_id x = r ∧ t_type_id x = ty)
                          trade_list.
Proof.
  exists (type_blocks trade_list). split_and!.
  - apply write_trades_render.
  - rewrite fst_type_blocks. apply sorted_elements_lt.
  - intros ty. rewrite fst_type_blocks, elem_of_sorted_elements.
    apply elem_of_list_to_set.
  - intros ty regions Hin. unfold type_blocks in Hin.
    apply list_elem_of_fmap in Hin as (ty' & [= <- ->] & _).
    set (trades := sort_by t_timestamp
                     (filter (λ x, t_type_id x = ty) trade_list)).
    assert (∀ x, x ∈ trades ↔ x ∈ trade_list ∧ t_type_id x = ty) as Htr.
    { intros x. unfold trades.
      rewrite elem_of_sort_by, list_elem_of_filter. tauto. }
    split_and!.
    + rewrite fst_region_blocks. apply sorted_elements_lt.
    + intros r. rewrite fst_region_blocks, elem_of_sorted_elements.
      rewrite elem_of_list_to_set, list_elem_of_fmap. split.
      * intros (x & -> & Hx). apply Htr in Hx as [? ?]. by exists x.
      * intros (x & Hx & Hty & <-). exists x. split; [done|].
        by apply Htr.
    + intros r rtrades Hr. unfold region_blocks in Hr.
      apply list_elem_of_fmap in Hr as (r' & [= <- ->] & _). split.
      * apply (StronglySorted_fmap _ (key_le t_timestamp)); [done|].
        apply StronglySorted_filter, sort_by_sorted.
      * unfold trades. rewrite sort_by_perm.
        by rewrite list_filter_filter.
Qed.

(** Trades of types 5 and 3 in regions 20 and 10: whatever the order of
    the trades handed over, type 3 is written before type 5, in each type
    region 10 before region 20, and in a region the earlier trade first. *)
Example ex_write_trades :
  write_trades []
    [ ex_trade 300 20 5 1; ex_trade 200 10 5 2; ex_trade 100 20 5 3;
      ex_trade 200 20 3 4; ex_trade 100 10 3 5 ] =
  [ IntLine 3; IntLine 2;
      IntLine 10; IntLine 1; TradeLine (ex_trade 100 10 3 5);
      IntLine 20; IntLine 1; TradeLine (ex_trade 200 20 3 4);
    IntLine 5; IntLine 2;
      IntLine 10; IntLine 1; TradeLine (ex_trade 200 10 5 2);
      IntLine 20; IntLine 2; TradeLine (ex_trade 100 20 5 3);
                             TradeLine (ex_trade 300 20 5 1) ].
Proof. by vm_compute. Qed.

(** Two calls append two documents, each sorted on its own. *)
Example ex_write_trades_twice :
  write_trades (write_trades [] [ex_trade 100 10 5 1]) [ex_trade 100 10 3 2] =
  [ IntLine 5; IntLine 1; IntLine 10; IntLine 1;
    TradeLine (ex_trade 100 10 5 1);
    IntLine 3; IntLine 1; IntLine 10; IntLine 1;
    TradeLine (ex_trade 100 10 3 2) ].
Proof. by vm_compute. Qed.

(** ** The batch accumulator *)

(** C10, amended: while fewer than [type_batch_size] order books are
    buffered, offering an order book without rows changes nothing: the
    counter, the buffer and the output file stay as they are and
    [infer_trades_helper] is not called. *)
Theorem empty_offer_below_batch_size get_data_frame type_batch_size
    compute_date type_id (s : env) :
  type_count s < type_batch_size →
  find_trades get_data_frame type_batch_size compute_date type_id [] s
    = (s, Ok tt).
Proof.
  intros Hlt. unfold find_trades, m_bind, get_env.
  by rewrite bool_decide_eq_true_2.
Qed.

Lemma empty_offer_below_batch_size_witness :
  find_trades no_history 200 20170101 35 [] env0 = (env0, Ok tt).
Proof.
  apply (empty_offer_below_batch_size no_history 200 20170101 35 env0).
  simpl. lia.
Defined.

(** C10, as stated, fails: with [type_batch_size = 1], after a first order
    book has been buffered, offering an order book without rows calls
    [infer_trades_helper] on the buffer, writes its trade and resets the
    counter and the buffer. *)
Lemma empty_offer_flushes_full_buffer :
  let s1 := {| type_count := 1; next_types := [(34, ex_rows 34 1)];
               fout := []; flushed := [] |} in
  find_trades no_history 1 20170101 34 (ex_rows 34 1) env0 = (s1, Ok tt)
  ∧ find_trades no_history 1 20170101 35 [] s1 =
      ({| type_count := 0; next_types := [];
          fout := [ IntLine 34; IntLine 1; IntLine 10; IntLine 1;
                    TradeLine (ex_trade_of 34 1) ];
          flushed := [[(34, ex_rows 34 1)]] |}, Ok tt)
  ∧ find_trades no_history 1 20170101 35 [] s1 ≠ (s1, Ok tt).
Proof.
  split_and!; [by vm_compute|by vm_compute|].
  intros H. apply (f_equal (λ r, type_count r.1)) in H.
  vm_compute in H. discriminate H.
Qed.

(** An order book is never buffered when it has no rows. *)
Lemma empty_offer_not_buffered get_data_frame type_batch_size compute_date
    type_id (s : env) :
  let s' := (find_trades get_data_frame type_batch_size compute_date
               type_id [] s).1 in
  next_types s' = next_types s ∨ next_types s' = [].
Proof.
  unfold find_trades, process_batch, helper_and_write, m_bind, get_env,
    put_env, lift, m_ret.
  case_bool_decide; [by left|].
  destruct (infer_trades_helper _ _ _); cbn; auto.
Qed.

(** While the buffer has room, the order books with rows are appended to
    it in archive order and nothing is flushed. *)
Lemma read_books_buffers get_data_frame type_batch_size compute_date
    (books : list book) (s : env) :
  Forall (λ b : book, b.2 ≠ []) books →
  type_count s + Z.of_nat (length books) ≤ type_batch_size →
  read_books (find_trades get_data_frame type_batch_size compute_date)
    books s =
  ({| type_count := type_count s + Z.of_nat (length books);
      next_types := next_types s ++ books;
      fout := fout s; flushed := flushed s |}, Ok tt).
Proof.
  revert s. induction books as [|[ty df] books IH]; intros s Hne Hlen.
  - cbn. rewrite Z.add_0_r, app_nil_r. by destruct s.
  - apply Forall_cons in Hne as [Hdf Hne]. cbn [length] in Hlen.
    cbn [read_books]. unfold m_bind at 1.
    unfold find_trades at 1. unfold m_bind at 1, get_env at 1.
    rewrite bool_decide_eq_true_2 by lia.
    rewrite bool_decide_eq_true_2
      by (destruct df; [done|cbn; lia]).
    unfold put_env at 1. rewrite IH by (done || cbn; lia).
    cbn [type_count next_types fout flushed]. do 2 f_equal.
    + cbn [length]. lia.
    + by rewrite <- app_assoc.
Qed.

(** X18: a run whose order books all have rows and are fewer than
    [type_batch_size] hands them to [infer_trades_helper] in a single
    batch, at the end of the archive. *)
Lemma partial_batch_flushed_once get_data_frame type_batch_size compute_date
    (books : list book) fout0 :
  Forall (λ b : book, b.2 ≠ []) books →
  Z.of_nat (length books) < type_batch_size →
  flushed (extract_trades get_data_frame type_batch_size compute_date
             (Some books) fout0).1 = [books].
Proof.
  intros Hne Hlen. unfold extract_trades, read_bulk_file.
  unfold m_bind at 1. rewrite read_books_buffers by (done || cbn; lia).
  unfold m_bind at 1, end_read at 1, m_bind at 1, get_env at 1.
  cbn [type_count next_types fout flushed].
  rewrite bool_decide_eq_true_2 by lia.
  unfold helper_and_write, m_bind, get_env, put_env, lift, m_ret. cbn.
  by destruct (infer_trades_helper _ _ _).
Qed.

(** [helper_and_write] records the batch, then either appends the
    document of its trades to the file or raises. *)
Lemma helper_and_write_eq get_data_frame compute_date batch (s : env) :
  helper_and_write get_data_frame compute_date batch s =
    match infer_trades_helper get_data_frame batch compute_date with
    | Ok inferred =>
        ({| type_count := type_count s; next_types := next_types s;
            fout := write_trades (fout s) inferred;
            flushed := flushed s ++ [batch] |}, Ok tt)
    | Raise e =>
        ({| type_count := type_count s; next_types := next_types s;
            fout := fout s; flushed := flushed s ++ [batch] |}, Raise e)
    end.
Proof.
  unfold helper_and_write, m_bind, get_env, put_env, lift.
  by destruct (infer_trades_helper _ _ _).
Qed.

(** An offer while the buffer has room. *)
Lemma find_trades_room get_data_frame type_batch_size compute_date
    type_id df (s : env) :
  type_count s < type_batch_size →
  find_trades get_data_frame type_batch_size compute_date type_id df s =
    if bool_decide (0 < length df)%nat then
      ({| type_count := type_count s + 1;
          next_types := next_types s ++ [(type_id, df)];
          fout := fout s; flushed := flushed s |}, Ok tt)
    else (s, Ok tt).
Proof.
  intros Hlt. unfold find_trades, m_bind, get_env.
  rewrite bool_decide_eq_true_2 by done. by case_bool_decide.
Qed.

(** An offer when the buffer is full: the buffer is flushed and reset, and
    the offered order book, whatever it is, is not kept. *)
Lemma find_trades_full get_data_frame type_batch_size compute_date
    type_id df (s : env) :
  type_batch_size ≤ type_count s →
  find_trades get_data_frame type_batch_size compute_date type_id df s =
    match infer_trades_helper get_data_frame (next_types s) compute_date with
    | Ok inferred =>
        ({| type_count := 0; next_types := [];
            fout := write_trades (fout s) inferred;
            flushed := flushed s ++ [next_types s] |}, Ok tt)
    | Raise e =>
        ({| type_count := type_count s; next_types := next_types s;
            fout := fout s; flushed := flushed s ++ [next_types s] |},
         Raise e)
    end.
Proof.
  intros Hge. unfold find_trades, process_batch.
  unfold m_bind at 1, get_env at 1.
  rewrite bool_decide_eq_false_2 by lia.
  unfold m_bind at 1. rewrite helper_and_write_eq.
  by destruct (infer_trades_helper _ _ _).
Qed.

(** At the end of the archive a full buffer is left unprocessed. *)
Lemma end_read_full get_data_frame type_batch_size compute_date (s : env) :
  type_batch_size ≤ type_count s →
  end_read get_data_frame type_batch_size compute_date s = (s, Ok tt).
Proof.
  intros Hge. unfold end_read, m_bind, get_env.
  by rewrite bool_decide_eq_false_2 by lia.
Qed.

(** At the end of the archive a buffer that is not full is flushed. *)
Lemma end_read_room get_data_frame type_batch_size compute_date (s : env) :
  type_count s < type_batch_size →
  end_read get_data_frame type_batch_size compute_date s =
    helper_and_write get_data_frame compute_date (next_types s) s.
Proof.
  intros Hlt. unfold end_read, m_bind, get_env.
  by rewrite bool_decide_eq_true_2.
Qed.

Lemma processed_snoc (s : env) batch :
  concat (flushed s ++ [batch]) = processed s ++ batch.
Proof. unfold processed. rewrite concat_app. cbn. by rewrite app_nil_r. Qed.

(** One offer: what has been processed and what is buffered stays within
    what was there before followed by the offered order book. *)
Lemma find_trades_processed get_data_frame type_batch_size compute_date
    type_id df (s : env) :
  let r := find_trades get_data_frame type_batch_size compute_date
             type_id df s in
  match r.2 with
  | Ok _ => processed r.1 ++ next_types r.1
  | Raise _ => processed r.1
  end `sublist_of` (processed s ++ next_types s) ++ with_rows [(type_id, df)].
Proof.
  destruct (decide (type_count s < type_batch_size)) as [Hlt|Hge].
  - rewrite find_trades_room by done. unfold with_rows.
    rewrite filter_cons, filter_nil. cbn [snd].
    case_bool_decide; case_decide; try done; cbn [fst snd].
    + unfold processed. cbn [flushed next_types].
      by rewrite !app_assoc.
    + by rewrite app_nil_r.
  - rewrite find_trades_full by lia.
    destruct (infer_trades_helper _ _ _); cbn [fst snd];
      unfold processed at 1; cbn [flushed next_types];
      rewrite processed_snoc, ?app_nil_r; by apply sublist_inserts_r.
Qed.

(** The callback loop keeps the same bound over a whole archive. *)
Lemma read_books_processed get_data_frame type_batch_size compute_date
    (books : list book) (s : env) :
  let r := read_books
             (find_trades get_data_frame type_batch_size compute_date)
             books s in
  match r.2 with
  | Ok _ => processed r.1 ++ next_types r.1
  | Raise _ => processed r.1
  end `sublist_of` (processed s ++ next_types s) ++ with_rows books.
Proof.
  revert s. induction books as [|[ty df] books IH]; intros s.
  - cbn. by rewrite app_nil_r.
  - cbn [read_books]. unfold m_bind.
    pose proof (find_trades_processed get_data_frame type_batch_size
                  compute_date ty df s) as Hstep.
    cbn zeta in Hstep.
    destruct (find_trades _ _ _ ty df s) as [s1 [[]|e]] eqn:Hs1;
      cbn [fst snd] in *.
    + specialize (IH s1). cbn zeta in IH.
      etrans; [exact IH|].
      change ((ty, df) :: books) with ([(ty, df)] ++ books).
      unfold with_rows in *. rewrite filter_app, app_assoc.
      by apply sublist_app.
    + etrans; [exact Hstep|].
      change ((ty, df) :: books) with ([(ty, df)] ++ books).
      unfold with_rows. rewrite filter_app, app_assoc.
      by apply sublist_inserts_r.
Qed.

(** X17: over a whole run, whatever the archive and the batch size, the
    order books handed to [infer_trades_helper] are, in order, among the
    order books of the archive that have rows: none is processed twice or
    out of order, but some may be missing. *)
Lemma extract_trades_processed get_data_frame type_batch_size compute_date
    (books : list book) fout0 :
  processed (extract_trades get_data_frame type_batch_size compute_date
               (Some books) fout0).1 `sublist_of` with_rows books.
Proof.
  unfold extract_trades, read_bulk_file. unfold m_bind at 1.
  pose proof (read_books_processed get_data_frame type_batch_size
                compute_date books
                {| type_count := 0; next_types := []; fout := fout0;
                   flushed := [] |}) as Hrun.
  cbn zeta in Hrun. unfold processed in *.
  cbn [flushed next_types concat app] in Hrun.
  destruct (read_books _ books _) as [s1 [[]|e]]; cbn [fst snd] in *.
  - unfold m_bind at 1.
    destruct (decide (type_count s1 < type_batch_size)) as [Hlt|Hge].
    + rewrite end_read_room, helper_and_write_eq by done.
      destruct (infer_trades_helper _ _ _); unfold m_ret;
        cbn [fst snd flushed]; rewrite concat_app; cbn [concat];
        by rewrite app_nil_r.
    + rewrite end_read_full by lia. unfold m_ret. cbn [fst snd].
      etrans; [|exact Hrun]. by apply sublist_inserts_r.
  - exact Hrun.
Qed.

(** C1 fails on the code. With [type_batch_size = 2] and three order books
    that each yield a trade: the third offer finds the buffer full,
    flushes the first two books and is itself dropped, and the final flush
    of the then empty buffer raises [IndexError]. With two order books the
    buffer is full at the end of the archive and [end_read] flushes
    nothing. With an empty archive the final flush raises. *)
Theorem offer_at_full_buffer_is_dropped :
  let b1 : book := (34, ex_rows 34 1) in
  let b2 : book := (35, ex_rows 35 2) in
  let b3 : book := (36, ex_rows 36 3) in
  extract_trades no_history 2 20170101 (Some [b1; b2; b3]) [] =
    ({| type_count := 0; next_types := [];
        fout := [ IntLine 34; IntLine 1; IntLine 10; IntLine 1;
                  TradeLine (ex_trade_of 34 1);
                  IntLine 35; IntLine 1; IntLine 10; IntLine 1;
                  TradeLine (ex_trade_of 35 2) ];
        flushed := [[b1; b2]; []] |}, Raise IndexError)
  ∧ extract_trades no_history 2 20170101 (Some [b1; b2]) [] =
      ({| type_count := 2; next_types := [b1; b2]; fout := [];
          flushed := [] |}, Ok true)
  ∧ extract_trades no_history 2 20170101 (Some []) [] =
      ({| type_count := 0; next_types := []; fout := [];
          flushed := [[]] |}, Raise IndexError)
  ∧ infer_trades_helper no_history [b3] 20170101 = Ok [ex_trade_of 36 3].
Proof. split_and!; by vm_compute. Qed.

(** * Further properties of [infer_trades] *)

Lemma for_each_Raise_inv {A B} (body : A → result (list B)) l e :
  for_each body l = Raise e → ∃ x, x ∈ l ∧ body x = Raise e.
Proof.
  induction l as [|x l IH]; [done|]. cbn [for_each].
  destruct (body x) as [ys|e'] eqn:Hx; cbn [rbind].
  - destruct (for_each body l) as [zs|e'']; cbn [rbind]; [done|].
    intros [= ->]. destruct (IH eq_refl) as (y & Hy & Hb).
    exists y. split; [by right|done].
  - intros [= ->]. exists x. split; [by left|done].
Qed.

Lemma for_each_Raise {A B} (body : A → result (list B)) l x e :
  x ∈ l → body x = Raise e → ∃ e', for_each body l = Raise e'.
Proof.
  induction l as [|y l IH]; intros Hx Hb; [by apply elem_of_nil in Hx|].
  cbn [for_each]. destruct (body y) as [ys|e'] eqn:Hy; cbn [rbind]; [|eauto].
  apply elem_of_cons in Hx as [->|Hx]; [congruence|].
  destruct (IH Hx Hb) as [e'' ->]. cbn [rbind]. eauto.
Qed.

Lemma for_each_ext {A B} (f g : A → result (list B)) l :
  (∀ x, x ∈ l → f x = g x) → for_each f l = for_each g l.
Proof.
  induction l as [|x l IH]; intros Hfg; [done|].
  cbn [for_each]. rewrite Hfg by left.
  rewrite IH; [done|]. intros y Hy. apply Hfg. by right.
Qed.

(** The only way the lookup of a removed order raises: several rows of
    the snapshot carry its order id. *)
Lemma removed_trade_Raise type_set vtm R cts nts cur oid e :
  (∀ r, r ∈ cur → date r = cts) →
  (∀ t, t ∈ type_set → is_Some (vtm !! t)) →
  oid ∈ order_id <$> cur →
  removed_trade type_set vtm R cts nts cur oid = Raise e →
  e = ValueError ∧ type_set ≠ []
  ∧ (2 ≤ length (filter (λ r, order_id r = oid) cur))%nat.
Proof.
  intros Hdate Hvtm Hoid. unfold removed_trade.
  rewrite (filter_all (λ r, date r = cts)).
  2:{ intros r [_ Hr]%list_elem_of_filter. by apply Hdate. }
  destruct (filter (λ r, order_id r = oid) cur) as [|a [|a' rows]] eqn:Hrows.
  - apply list_elem_of_fmap in Hoid as (a & -> & Ha).
    assert (a ∈ filter (λ r, order_id r = order_id a) cur) as Hin
      by (by apply list_elem_of_filter).
    rewrite Hrows in Hin. by apply elem_of_nil in Hin.
  - case_bool_decide as Hty; [|done].
    destruct (Hvtm _ Hty) as [thr ->]. by destruct (py_le _ _).
  - destruct type_set; [done|]. intros [= <-]. split_and!; [done|done|].
    cbn. lia.
Qed.

Lemma snapshot_dates obf R snap r :
  snap ∈ snapshots obf R → r ∈ snap.2 → date r = snap.1.
Proof.
  intros Hs Hr. by apply (elem_of_snapshot obf R snap r) in Hr as (_ & _ & ?).
Qed.

Lemma length_filter_NoDup {A} (key : A → Z) (l : list A) k :
  NoDup (key <$> l) → (length (filter (λ x, key x = k) l) ≤ 1)%nat.
Proof.
  intros Hnd.
  destruct (filter (λ x, key x = k) l) as [|a rest] eqn:Hf; [cbn; lia|].
  assert (a ∈ filter (λ x, key x = k) l) as Ha by (rewrite Hf; left).
  apply list_elem_of_filter in Ha as [<- Ha].
  rewrite (filter_key_unique key l a) in Hf by done.
  injection Hf as <-. cbn. lia.
Qed.

Lemma infer_trades_Raise_inv type_set region_set obf mhf e :
  infer_trades type_set region_set obf mhf = Raise e →
  e = ValueError ∧ type_set ≠ [] ∧ ¬ unique_order_ids obf region_set.
Proof.
  unfold infer_trades. intros (R & HR & Hreg)%for_each_Raise_inv.
  rewrite region_trades_unfold in Hreg.
  apply for_each_Raise_inv in Hreg as ([current next] & Hp & Hpair).
  cbn [fst snd] in Hpair. unfold snap_pair_trades in Hpair.
  destruct (removed_trades _ _ _ _ _ _ _) as [removed|e'] eqn:Hrem;
    cbn [rbind] in Hpair; [done|]. injection Hpair as ->.
  unfold removed_trades in Hrem.
  apply for_each_Raise_inv in Hrem as (oid & Hoid & Hrow).
  destruct (snap_pairs_snapshots _ _ _ _ Hp) as [Hc _].
  apply elem_of_removed_orders in Hoid as [Hoid _].
  apply removed_trade_Raise in Hrow as (-> & Hne & Hlen); [|..|done].
  - split_and!; [done..|]. intros Hu.
    pose proof (unique_order_ids_snapshot _ _ _ _ Hu HR Hc) as Hnd.
    pose proof (length_filter_NoDup order_id current.2 oid Hnd). lia.
  - intros r. by apply (snapshot_dates obf R).
  - intros t. apply region_threshold_map_is_Some.
Qed.

(** X1: [infer_trades] raises nothing but [ValueError], and only when the
    type set is not empty and some snapshot of a region of the region set
    holds one order id in several rows. *)
Theorem infer_trades_raises_only_ValueError type_set region_set obf mhf e :
  infer_trades type_set region_set obf mhf = Raise e →
  e = ValueError ∧ type_set ≠ [] ∧ ¬ unique_order_ids obf region_set.
Proof. apply infer_trades_Raise_inv. Qed.

Lemma ex_dup_pair : (dup_current, dup_next) ∈ snap_pairs dup_book 10.
Proof. apply list_elem_of_lookup. exists 0%nat. by vm_compute. Qed.

Lemma ex_dup_raises : infer_trades [34] [10] dup_book [] = Raise ValueError.
Proof. by vm_compute. Qed.

Lemma infer_trades_raises_only_ValueError_witness :
  ValueError = ValueError ∧ [34] ≠ [] ∧ ¬ unique_order_ids dup_book [10].
Proof.
  apply (infer_trades_raises_only_ValueError [34] [10] dup_book [] ValueError).
  apply ex_dup_raises.
Defined.

Lemma length_filter_pos {A} (P : A → Prop) `{!∀ x, Decision (P x)}
    (l : list A) x :
  x ∈ l → P x → (1 ≤ length (filter P l))%nat.
Proof.
  intros Hx HP. assert (x ∈ filter P l) as Hin by (by apply list_elem_of_filter).
  destruct (filter P l); [by apply elem_of_nil in Hin|cbn; lia].
Qed.

Lemma length_filter_two {A} (P : A → Prop) `{!∀ x, Decision (P x)}
    (l : list A) i j a1 a2 :
  l !! i = Some a1 → l !! j = Some a2 → (i < j)%nat → P a1 → P a2 →
  (2 ≤ length (filter P l))%nat.
Proof.
  intros Hi Hj Hlt H1 H2. rewrite <- (take_drop j l), filter_app, length_app.
  assert (a1 ∈ take j l) as Hin1.
  { apply list_elem_of_lookup. exists i. by rewrite lookup_take_lt. }
  assert (a2 ∈ drop j l) as Hin2.
  { apply list_elem_of_lookup. exists 0%nat. by rewrite lookup_drop, Nat.add_0_r. }
  pose proof (length_filter_pos P _ _ Hin1 H1).
  pose proof (length_filter_pos P _ _ Hin2 H2). lia.
Qed.

(** X2: when an order id that is in the earlier snapshot of a consecutive
    pair, and not in the later one, labels two rows of the earlier
    snapshot, [infer_trades] with a non-empty type set raises
    [ValueError]. *)
Theorem duplicate_removed_order_raises type_set region_set obf mhf R
    current next i j a1 a2 :
  type_set ≠ [] → R ∈ region_set →
  (current, next) ∈ snap_pairs obf R →
  current.2 !! i = Some a1 → current.2 !! j = Some a2 → (i < j)%nat →
  order_id a1 = order_id a2 →
  order_id a1 ∉ order_id <$> next.2 →
  infer_trades type_set region_set obf mhf = Raise ValueError.
Proof.
  intros Hne HR Hp Hi Hj Hlt Hid Hno.
  destruct (snap_pairs_snapshots _ _ _ _ Hp) as [Hc _].
  set (vtm := region_threshold_map type_set mhf R).
  assert (removed_trade type_set vtm R current.1 next.1 current.2
            (order_id a1) = Raise ValueError) as Hrow.
  { unfold removed_trade.
    rewrite (filter_all (λ r, date r = current.1)).
    2:{ intros r [_ Hr]%list_elem_of_filter. by apply (snapshot_dates obf R). }
    pose proof (length_filter_two (λ r, order_id r = order_id a1)
                  current.2 i j a1 a2 Hi Hj Hlt eq_refl (eq_sym Hid)) as Hlen.
    destruct (filter _ current.2) as [|x [|y rows]]; cbn in Hlen; [lia..|].
    by destruct type_set. }
  assert (order_id a1 ∈ removed_orders current.2 next.2) as Hoid.
  { apply elem_of_removed_orders. split; [|done].
    apply list_elem_of_fmap. exists a1. split; [done|].
    apply list_elem_of_lookup. by exists i. }
  destruct (for_each_Raise _ _ _ _ Hoid Hrow) as [e1 He1].
  assert (snap_pair_trades type_set vtm R current next = Raise e1) as Hpair.
  { unfold snap_pair_trades, removed_trades. by rewrite He1. }
  destruct (for_each_Raise
              (λ p, snap_pair_trades type_set vtm R p.1 p.2)
              _ (current, next) e1 Hp Hpair) as [e2 He2].
  change (region_trades type_set obf mhf R = Raise e2) in He2.
  destruct (for_each_Raise _ _ _ _ HR He2) as [e3 He3].
  change (infer_trades type_set region_set obf mhf = Raise e3) in He3.
  rewrite He3. f_equal.
  by apply infer_trades_Raise_inv in He3 as [-> _].
Qed.

Lemma duplicate_removed_order_raises_witness :
  infer_trades [34] [10] dup_book [] = Raise ValueError.
Proof.
  apply (duplicate_removed_order_raises [34] [10] dup_book [] 10
           dup_current dup_next 0 1
           (mk_row 100 34 10 1 false 5 3 "region" 60001)
           (mk_row 100 34 10 1 false 5 3 "region" 60001)).
  - done.
  - by left.
  - apply ex_dup_pair.
  - reflexivity.
  - reflexivity.
  - lia.
  - reflexivity.
  - apply (bool_decide_unpack _). by vm_compute.
Defined.

(** X3: every trade [infer_trades] returns has its type in the type set
    and its region in the region set. *)
Theorem infer_trades_type_and_region type_set region_set obf mhf evs e :
  infer_trades type_set region_set obf mhf = Ok evs → e ∈ evs →
  t_type_id e ∈ type_set ∧ t_region_id e ∈ region_set.
Proof.
  intros Hev He.
  destruct (infer_trades_origin _ _ _ _ _ _ Hev He)
    as (R & current & next & a & HR & Hp & Ho).
  pose proof (trade_origin_fields _ _ _ _ _ _ _ Ho) as (-> & _ & -> & _).
  by destruct Ho as (_ & ? & _).
Qed.

Lemma infer_trades_type_and_region_witness :
  34 ∈ [34] ∧ 10 ∈ [10].
Proof.
  apply (infer_trades_type_and_region [34] [10] ex_book
           (ex_history 34 10 125 5) _
           {| t_timestamp := 200; t_region_id := 10; t_type_id := 34;
              t_actual := true; t_buy := false; t_order_id := 1;
              t_price := 5; t_volume := 6; t_location := "60001" |}
           (proj2 ex_infer_trades)).
  by left.
Defined.

Lemma snapshot_row obf R snap :
  snap ∈ snapshots obf R → ∃ r, r ∈ snap.2.
Proof.
  unfold snapshots, groupby_index.
  intros (k & -> & Hk)%list_elem_of_fmap. cbn [snd].
  apply elem_of_sorted_elements, elem_of_list_to_set in Hk.
  apply list_elem_of_fmap in Hk as (r & -> & Hr).
  exists r. by apply list_elem_of_filter.
Qed.

Lemma snapshot_time_lookup obf R r :
  r ∈ obf → region_id r = R → ∃ j, (snapshots obf R).*1 !! j = Some (date r).
Proof.
  intros Hr HR. apply list_elem_of_lookup.
  rewrite fst_snapshots, elem_of_sorted_elements, elem_of_list_to_set.
  apply list_elem_of_fmap. exists r. split; [done|].
  by apply list_elem_of_filter.
Qed.

(** X4: every trade [infer_trades] returns comes from a row of the order
    book with the trade's region and order id and an earlier time than the
    trade's timestamp; the timestamp is the time of a row of that region,
    and no row of the region has a time strictly between the two: a trade
    always spans two consecutive snapshot times. *)
Theorem infer_trades_consecutive_times type_set region_set obf mhf evs e :
  infer_trades type_set region_set obf mhf = Ok evs → e ∈ evs →
  ∃ a r,
    a ∈ obf ∧ region_id a = t_region_id e ∧ order_id a = t_order_id e
    ∧ r ∈ obf ∧ region_id r = t_region_id e ∧ date r = t_timestamp e
    ∧ date a < t_timestamp e
    ∧ ∀ r', r' ∈ obf → region_id r' = t_region_id e →
            ¬ (date a < date r' < t_timestamp e).
Proof.
  intros Hev He.
  destruct (infer_trades_origin _ _ _ _ _ _ Hev He)
    as (R & current & next & a & HR & Hp & Ho).
  pose proof (trade_origin_fields _ _ _ _ _ _ _ Ho)
    as (-> & -> & _ & -> & _).
  destruct Ho as (Ha & _).
  destruct (snap_pairs_snapshots _ _ _ _ Hp) as [Hc Hn].
  apply (elem_of_snapshot obf R current a Hc) in Ha as (Ha & HaR & Hdate).
  destruct (snapshot_row _ _ _ Hn) as [r Hr].
  apply (elem_of_snapshot obf R next r Hn) in Hr as (Hr & HrR & Hrd).
  pose proof (snap_pairs_ascending _ _ _ _ Hp) as Hlt.
  exists a, r. rewrite Hdate. split_and!; try done.
  intros r' Hr' Hr'R [Hlo Hhi].
  destruct (snapshot_time_lookup obf R r' Hr' Hr'R) as [j Hj].
  apply list_elem_of_lookup in Hp as [i Hi].
  apply snap_pairs_lookup in Hi as [Hci Hni].
  assert ((snapshots obf R).*1 !! i = Some current.1) as Hki
    by (by rewrite list_lookup_fmap, Hci).
  assert ((snapshots obf R).*1 !! S i = Some next.1) as Hkn
    by (by rewrite list_lookup_fmap, Hni).
  pose proof (snapshots_sorted obf R) as Hs.
  destruct (decide (j < i)%nat) as [Hji|Hji].
  { pose proof (StronglySorted_lookup_lt _ _ j i _ _ Hs Hj Hki Hji). lia. }
  destruct (decide (j = i)) as [->|Hne]; [simplify_eq; lia|].
  destruct (decide (j = S i)) as [->|Hne']; [simplify_eq; lia|].
  assert (S i < j)%nat as Hij by lia.
  pose proof (StronglySorted_lookup_lt _ _ (S i) j _ _ Hs Hkn Hj Hij). lia.
Qed.

Lemma infer_trades_consecutive_times_witness :
  let e := {| t_timestamp := 200; t_region_id := 10; t_type_id := 34;
              t_actual := true; t_buy := false; t_order_id := 1;
              t_price := 5; t_volume := 6; t_location := "60001" |} in
  ∃ a r,
    a ∈ ex_book ∧ region_id a = t_region_id e ∧ order_id a = t_order_id e
    ∧ r ∈ ex_book ∧ region_id r = t_region_id e ∧ date r = t_timestamp e
    ∧ date a < t_timestamp e
    ∧ ∀ r', r' ∈ ex_book → region_id r' = t_region_id e →
            ¬ (date a < date r' < t_timestamp e).
Proof.
  intros e.
  apply (infer_trades_consecutive_times [34] [10] ex_book
           (ex_history 34 10 125 5) _ e (proj2 ex_infer_trades)).
  by left.
Defined.

Lemma NoDup_fmap_eq {A} (key : A → Z) (l : list A) x y :
  NoDup (key <$> l) → x ∈ l → y ∈ l → key x = key y → x = y.
Proof.
  intros Hnd Hx Hy Heq.
  assert (x ∈ filter (λ z, key z = key y) l) as Hin
    by (by apply list_elem_of_filter).
  rewrite filter_key_unique in Hin by done.
  by apply list_elem_of_singleton in Hin.
Qed.

Lemma pair_events_unchanged type_set vtm R current next a b :
  NoDup (order_id <$> current.2) → NoDup (order_id <$> next.2) →
  a ∈ current.2 → b ∈ next.2 → order_id b = order_id a →
  volume a = volume b →
  filter (λ e, t_order_id e = order_id a)
    (pair_events type_set vtm R current next) = [].
Proof.
  intros Hcur Hnxt Ha Hb Hid Hvol. apply filter_none. intros e He Heq.
  apply pair_events_origin in He as [a' Ho].
  pose proof (trade_origin_fields _ _ _ _ _ _ _ Ho) as (_ & _ & _ & Hoid & _).
  rewrite Hoid in Heq.
  destruct Ho as (Ha' & _ & Hcase).
  assert (a' = a) as -> by (by apply (NoDup_fmap_eq order_id current.2)).
  destruct Hcase as [(b' & Hb' & Hid' & Hvol' & _)|(Hno & _)].
  - assert (b' = b) as -> by (apply (NoDup_fmap_eq order_id next.2); congruence).
    done.
  - apply Hno. rewrite <- Hid. by apply list_elem_of_fmap_2.
Qed.

(** X5: an order that is in both snapshots of a consecutive pair with the
    same volume yields no trade for that pair, whatever became of its
    price or other fields. *)
Theorem unchanged_volume_no_trade type_set region_set obf mhf R
    current next a b :
  unique_order_ids obf region_set → NoDup region_set → R ∈ region_set →
  (current, next) ∈ snap_pairs obf R →
  a ∈ current.2 → b ∈ next.2 → order_id b = order_id a →
  volume a = volume b →
  ∃ evs,
    infer_trades type_set region_set obf mhf = Ok evs
    ∧ filter (λ e, t_order_id e = order_id a
                   ∧ t_timestamp e = next.1 ∧ t_region_id e = R) evs = [].
Proof.
  intros Hu Hnd HR Hp Ha Hb Hid Hvol.
  exists (region_set ≫= region_events type_set obf mhf).
  split; [by apply infer_trades_Ok|].
  rewrite <- list_filter_filter.
  rewrite (region_events_select _ _ _ _ R current next) by done.
  destruct (snap_pairs_snapshots _ _ _ _ Hp) as [Hc Hn].
  apply (pair_events_unchanged _ _ _ _ _ a b); try done.
  - by apply (unique_order_ids_snapshot obf region_set R).
  - by apply (unique_order_ids_snapshot obf region_set R).
Qed.

Lemma unchanged_volume_no_trade_witness :
  ∃ evs,
    infer_trades [34] [10] same_book [] = Ok evs
    ∧ filter (λ e, t_order_id e = 1 ∧ t_timestamp e = 200
                   ∧ t_region_id e = 10) evs = [].
Proof.
  apply (unchanged_volume_no_trade [34] [10] same_book [] 10
           same_current same_next
           (mk_row 100 34 10 1 false 5 10 "region" 60001)
           (mk_row 200 34 10 1 false 4 10 "region" 60001)).
  - unfold unique_order_ids. apply (bool_decide_unpack _). by vm_compute.
  - apply NoDup_singleton.
  - by left.
  - apply list_elem_of_lookup. exists 0%nat. by vm_compute.
  - by left.
  - by left.
  - reflexivity.
  - reflexivity.
Defined.

Lemma snap_pairs_nil obf R :
  (∀ r1 r2, r1 ∈ obf → r2 ∈ obf → region_id r1 = R → region_id r2 = R →
            date r1 = date r2) →
  snap_pairs obf R = [].
Proof.
  intros Hsame. destruct (snap_pairs obf R) as [|[c n] rest] eqn:Hp; [done|].
  assert ((c, n) ∈ snap_pairs obf R) as Hin by (rewrite Hp; left).
  pose proof (snap_pairs_ascending _ _ _ _ Hin) as Hlt.
  destruct (snap_pairs_snapshots _ _ _ _ Hin) as [Hc Hn].
  destruct (snapshot_row _ _ _ Hc) as [rc Hrc].
  destruct (snapshot_row _ _ _ Hn) as [rn Hrn].
  apply (elem_of_snapshot obf R c rc Hc) in Hrc as (? & ? & Hdc).
  apply (elem_of_snapshot obf R n rn Hn) in Hrn as (? & ? & Hdn).
  assert (date rc = date rn) by (by apply Hsame). lia.
Qed.

Lemma bind_nil_const {A B} (l : list A) : l ≫= (λ _, @nil B) = [].
Proof. induction l as [|x l IH]; [done|]. by rewrite bind_cons, IH. Qed.

(** X6: when in every region the rows of the order book carry a single
    snapshot time, there is no consecutive pair to compare and
    [infer_trades] returns no trade, and does not raise, whatever the
    types, regions and history. *)
Theorem single_snapshot_no_trades type_set region_set obf mhf :
  (∀ r1 r2, r1 ∈ obf → r2 ∈ obf → region_id r1 = region_id r2 →
            date r1 = date r2) →
  infer_trades type_set region_set obf mhf = Ok [].
Proof.
  intros Hsame. unfold infer_trades.
  rewrite (for_each_Ok _ (λ _, [])), bind_nil_const; [done|].
  intros R _. rewrite region_trades_unfold, snap_pairs_nil; [done|].
  intros r1 r2 H1 H2 HR1 HR2. apply Hsame; congruence.
Qed.

Lemma single_snapshot_no_trades_witness :
  infer_trades [34; 35] [10; 20] single_book (ex_history 34 10 125 5) = Ok [].
Proof.
  apply (single_snapshot_no_trades [34; 35] [10; 20] single_book).
  intros r1 r2 H1 H2 _.
  assert (∀ r, r ∈ single_book → date r = 100) as Hd.
  { intros r Hr. unfold single_book in Hr.
    rewrite !elem_of_cons, elem_of_nil in Hr.
    by destruct Hr as [->|[->|[->|[]]]]. }
  by rewrite (Hd r1), (Hd r2).
Defined.

Lemma volume_threshold_map_ext type_set mh1 mh2 :
  (∀ t, t ∈ type_set → by_type mh1 t = by_type mh2 t) →
  volume_threshold_map type_set mh1 = volume_threshold_map type_set mh2.
Proof.
  intros Hext. apply map_eq. intros t.
  destruct (decide (t ∈ type_set)) as [Ht|Ht].
  - by rewrite !volume_threshold_map_lookup, Hext.
  - by rewrite !volume_threshold_map_lookup_None.
Qed.

(** X7: [infer_trades] reads the order book and the history only through
    the rows of the regions of its region set, and the history only
    through the rows of the types of its type set: dropping every other
    row changes neither the result nor whether it raises. *)
Theorem infer_trades_ignores_other_rows type_set region_set obf mhf :
  infer_trades type_set region_set obf mhf =
    infer_trades type_set region_set
      (filter (λ r, region_id r ∈ region_set) obf)
      (filter (λ h, h_region_id h ∈ region_set ∧ h_type_id h ∈ type_set) mhf).
Proof.
  unfold infer_trades. apply for_each_ext. intros R HR.
  unfold region_trades. rewrite list_filter_filter.
  rewrite (list_filter_iff (λ r, region_id r = R ∧ region_id r ∈ region_set)
             (λ r, region_id r = R)) by (intros r; split; [tauto|by intros <-]).
  rewrite (volume_threshold_map_ext type_set
             (by_region (filter _ mhf) R) (by_region mhf R)); [done|].
  intros t Ht. unfold by_type, by_region. rewrite !list_filter_filter.
  apply list_filter_iff. intros h. split; [tauto|].
  intros [<- <-]. tauto.
Qed.

(** X9: for a history of non-negative volumes below 2^50 with five or
    more rows, the threshold is that of the five most recent rows alone:
    older rows do not enter it. (For larger volumes they do, through the
    rounding error the running sum keeps.) *)
Theorem type_threshold_last_five older recent :
  Forall (λ v, 0 ≤ v < 2 ^ 50) (older ++ recent) →
  length recent = 5%nat →
  type_threshold (older ++ recent) = type_threshold recent.
Proof.
  intros Hall Hlen.
  assert (Forall (λ v, 0 ≤ v < 2 ^ 50) recent) as Hrecent
    by (by apply Forall_app in Hall as [_ ?]).
  rewrite (type_threshold_exact (older ++ recent));
    [|done|rewrite length_app; lia].
  rewrite (type_threshold_exact recent); [|done|lia].
  rewrite length_app, Hlen.
  replace (length older + 5 - 5)%nat with (length older) by lia.
  by rewrite drop_app_length, Nat.sub_diag, drop_0.
Qed.

Lemma type_threshold_last_five_witness :
  type_threshold ([7; 1000000] ++ [125; 125; 125; 125; 125])
    = type_threshold [125; 125; 125; 125; 125].
Proof.
  apply (type_threshold_last_five [7; 1000000] [125; 125; 125; 125; 125]).
  - apply (bool_decide_unpack _). by vm_compute.
  - reflexivity.
Defined.

(** * Further properties of [infer_trades_helper] *)

Lemma elem_of_foldl_regions (frames : list (list order_row)) (s0 : gset Z) r :
  r ∈ foldl (λ (s : gset Z) x, s ∪ list_to_set (region_id <$> x)) s0 frames ↔
  r ∈ s0 ∨ ∃ x row, x ∈ frames ∧ row ∈ x ∧ region_id row = r.
Proof.
  revert s0. induction frames as [|x frames IH]; intros s0; cbn [foldl].
  - split; [by left|]. intros [?|(x & row & Hx & _)]; [done|].
    by apply elem_of_nil in Hx.
  - rewrite IH, elem_of_union, elem_of_list_to_set, list_elem_of_fmap. split.
    + intros [[?|(row & -> & Hrow)]|(y & row & Hy & Hrow & <-)].
      * by left.
      * right. exists x, row. split; [left|done].
      * right. exists y, row. split; [by right|done].
    + intros [?|(y & row & Hy & Hrow & <-)]; [by left; left|].
      apply elem_of_cons in Hy as [->|Hy].
      * left. right. by exists row.
      * right. by exists y, row.
Qed.

Lemma elem_of_batch_regions next_types r :
  r ∈ batch_regions next_types ↔
  ∃ b row, b ∈ next_types ∧ row ∈ b.2 ∧ region_id row = r.
Proof.
  unfold batch_regions. rewrite elem_of_foldl_regions. split.
  - intros [Hr|(x & row & Hx & Hrow & <-)]; [by apply elem_of_empty in Hr|].
    apply list_elem_of_fmap in Hx as (b & -> & Hb). by exists b, row.
  - intros (b & row & Hb & Hrow & <-). right. exists b.2, row.
    split; [by apply list_elem_of_fmap_2|done].
Qed.

Lemma elem_of_concat {A} (x : A) (ls : list (list A)) :
  x ∈ concat ls ↔ ∃ l, x ∈ l ∧ l ∈ ls.
Proof.
  induction ls as [|l ls IH]; cbn [concat].
  - split; [by intros ?%elem_of_nil|]. by intros (l & _ & ?%elem_of_nil).
  - rewrite elem_of_app, IH. split.
    + intros [?|(l' & ? & ?)]; [exists l; split; [done|left]|].
      exists l'. split; [done|by right].
    + intros (l' & Hx & [->|?]%elem_of_cons); [by left|].
      right. by exists l'.
Qed.

Lemma infer_trades_helper_eq get_data_frame next_types compute_date :
  infer_trades_helper get_data_frame next_types compute_date =
    match next_types with
    | [] => Raise IndexError
    | _ :: _ =>
        infer_trades (fst <$> next_types)
          (elements (batch_regions next_types))
          (concat (snd <$> next_types))
          (get_data_frame
             [compute_date - 6; compute_date - 5; compute_date - 4;
              compute_date - 3; compute_date - 2; compute_date - 1]
             (fst <$> next_types) (elements (batch_regions next_types)))
    end.
Proof.
  unfold infer_trades_helper, get_market_history.
  rewrite history_date_range_eq.
  destruct next_types as [|b [|b' rest]]; [done| |done].
  cbn [fmap list_fmap concat rbind]. by rewrite app_nil_r.
Qed.

(** X11: every trade [infer_trades_helper] returns has the type of one of
    the order books of the batch, and the region and order id of a row of
    one of its frames. *)
Theorem infer_trades_helper_trades get_data_frame next_types compute_date
    evs e :
  infer_trades_helper get_data_frame next_types compute_date = Ok evs →
  e ∈ evs →
  t_type_id e ∈ fst <$> next_types
  ∧ ∃ b row, b ∈ next_types ∧ row ∈ b.2
             ∧ region_id row = t_region_id e ∧ order_id row = t_order_id e
             ∧ type_id row = t_type_id e.
Proof.
  rewrite infer_trades_helper_eq.
  destruct next_types as [|b0 rest]; [done|]. intros Hev He.
  destruct (infer_trades_origin _ _ _ _ _ _ Hev He)
    as (R & current & next & a & HR & Hp & Ho).
  pose proof (trade_origin_fields _ _ _ _ _ _ _ Ho)
    as (-> & _ & -> & -> & _).
  destruct Ho as (Ha & Hty & _). split; [done|].
  destruct (snap_pairs_snapshots _ _ _ _ Hp) as [Hc _].
  apply (elem_of_snapshot _ R current a Hc) in Ha as (Ha & HaR & _).
  apply elem_of_concat in Ha as (frame & Ha & Hframe).
  apply list_elem_of_fmap in Hframe as (b & -> & Hb).
  by exists b, a.
Qed.

Lemma infer_trades_helper_trades_witness :
  36 ∈ fst <$> [(36, ex_rows 36 3)]
  ∧ ∃ b row, b ∈ [(36, ex_rows 36 3)] ∧ row ∈ b.2
             ∧ region_id row = 10 ∧ order_id row = 3 ∧ type_id row = 36.
Proof.
  apply (infer_trades_helper_trades no_history [(36, ex_rows 36 3)] 20170101
           [ex_trade_of 36 3] (ex_trade_of 36 3)).
  - by vm_compute.
  - by left.
Defined.

(** * Further properties of [write_trades] *)

Lemma line_trades_app a b :
  line_trades (a ++ b) = line_trades a ++ line_trades b.
Proof. apply bind_app. Qed.

Lemma line_trades_TradeLine (trades : list trade) :
  line_trades (TradeLine <$> trades) = trades.
Proof.
  induction trades as [|x trades IH]; [done|].
  unfold line_trades in *. rewrite fmap_cons, bind_cons, IH. done.
Qed.

Lemma line_trades_bind {A} (f : A → list line) (l : list A) :
  line_trades (l ≫= f) = l ≫= (λ x, line_trades (f x)).
Proof.
  induction l as [|x l IH]; [done|].
  by rewrite !bind_cons, line_trades_app, IH.
Qed.

Lemma line_trades_render_region rb : line_trades (render_region rb) = rb.2.
Proof.
  unfold render_region. rewrite line_trades_app, line_trades_TradeLine. done.
Qed.

Lemma bind_perm_ext {A B} (f g : A → list B) (l : list A) :
  (∀ x, x ∈ l → f x ≡ₚ g x) → l ≫= f ≡ₚ l ≫= g.
Proof.
  induction l as [|x l IH]; intros Hfg; [done|].
  rewrite !bind_cons. f_equiv; [apply Hfg; left|].
  apply IH. intros y Hy. apply Hfg. by right.
Qed.

Lemma bind_filter_cons {A} (key : A → Z) (ks : list Z) x (l : list A) :
  NoDup ks →
  ks ≫= (λ k, filter (λ y, key y = k) (x :: l)) ≡ₚ
    (if decide (key x ∈ ks) then [x] else [])
      ++ (ks ≫= (λ k, filter (λ y, key y = k) l)).
Proof.
  induction ks as [|k ks IH]; intros Hnd.
  - by rewrite decide_False by apply not_elem_of_nil.
  - apply NoDup_cons in Hnd as [Hk Hnd]. rewrite !bind_cons, IH by done.
    rewrite filter_cons. destruct (decide (key x = k)) as [<-|Hne].
    + rewrite (decide_False (P := key x ∈ ks)) by done.
      by rewrite decide_True by left.
    + destruct (decide (key x ∈ ks)) as [Hin|Hnin].
      * rewrite decide_True by (by right). cbn [app].
        by rewrite <- Permutation_middle.
      * rewrite decide_False; [done|]. rewrite not_elem_of_cons. done.
Qed.

(** Splitting a list by key over all its keys, each taken once, and
    putting the parts together again loses and repeats nothing. *)
Lemma bind_filter_partition {A} (key : A → Z) (ks : list Z) (l : list A) :
  NoDup ks → (∀ x, x ∈ l → key x ∈ ks) →
  ks ≫= (λ k, filter (λ y, key y = k) l) ≡ₚ l.
Proof.
  intros Hnd. induction l as [|x l IH]; intros Hks.
  - clear. induction ks as [|k ks IH]; [done|]. by rewrite bind_cons, IH.
  - rewrite bind_filter_cons by done.
    rewrite decide_True by (apply Hks; left). cbn [app]. f_equiv.
    apply IH. intros y Hy. apply Hks. by right.
Qed.

Lemma bind_ext_in {A B} (f g : A → list B) (l : list A) :
  (∀ x, x ∈ l → f x = g x) → l ≫= f = l ≫= g.
Proof.
  induction l as [|x l IH]; intros Hfg; [done|].
  rewrite !bind_cons, Hfg by left. f_equal.
  apply IH. intros y Hy. apply Hfg. by right.
Qed.

Lemma line_trades_render_type ty trades :
  line_trades (render_type (ty, region_blocks trades)) ≡ₚ trades.
Proof.
  unfold render_type. cbn [fst snd]. rewrite line_trades_app.
  change (line_trades [IntLine ty; IntLine _]) with (@nil trade).
  cbn [app]. rewrite line_trades_bind. unfold region_blocks.
  rewrite bind_fmap.
  rewrite (bind_ext_in _ (λ r, filter (λ x, t_region_id x = r) trades))
    by (intros r _; apply line_trades_render_region).
  apply (bind_filter_partition t_region_id).
  - apply NoDup_sorted_elements.
  - intros x Hx. apply elem_of_sorted_elements, elem_of_list_to_set.
    by apply list_elem_of_fmap_2.
Qed.

Lemma line_trades_type_blocks trade_list :
  line_trades (render (type_blocks trade_list)) ≡ₚ trade_list.
Proof.
  unfold render, type_blocks. rewrite line_trades_bind, bind_fmap.
  trans (sorted_elements (list_to_set (t_type_id <$> trade_list))
           ≫= (λ ty, filter (λ x, t_type_id x = ty) trade_list)).
  - apply bind_perm_ext. intros ty _.
    rewrite line_trades_render_type. apply sort_by_perm.
  - apply (bind_filter_partition t_type_id).
    + apply NoDup_sorted_elements.
    + intros x Hx. apply elem_of_sorted_elements, elem_of_list_to_set.
      by apply list_elem_of_fmap_2.
Qed.

(** X12: the trade lines of the file after [write_trades] are those it
    held before followed by a rearrangement of the trades handed over:
    every trade is written exactly once. *)
Theorem write_trades_conserves fobj trade_list :
  ∃ written,
    line_trades (write_trades fobj trade_list) = line_trades fobj ++ written
    ∧ written ≡ₚ trade_list.
Proof.
  rewrite write_trades_render, line_trades_app.
  eexists. split; [done|]. apply line_trades_type_blocks.
Qed.

Lemma insert_by_head {A} (key : A → Z) x (l : list A) :
  Forall (λ y, key x ≤ key y) l → insert_by key x l = x :: l.
Proof.
  destruct l as [|y l]; [done|]. intros [Hy _]%Forall_cons. cbn.
  by rewrite bool_decide_eq_true_2.
Qed.

Lemma filter_insert_by {A} (key : A → Z) (P : A → Prop)
    `{!∀ x, Decision (P x)} x (l : list A) :
  StronglySorted (key_le key) l →
  filter P (insert_by key x l) =
    if decide (P x) then insert_by key x (filter P l) else filter P l.
Proof.
  induction 1 as [|y l Hl IH Hy]; cbn [insert_by].
  - rewrite filter_cons, filter_nil. by case_decide.
  - case_bool_decide as Hxy.
    + rewrite (filter_cons P x). case_decide as HPx; [|done].
      rewrite insert_by_head; [done|].
      apply Forall_forall. intros z [_ Hz]%list_elem_of_filter.
      apply elem_of_cons in Hz as [->|Hz]; [done|].
      rewrite Forall_forall in Hy. specialize (Hy z Hz).
      unfold key_le in Hy. lia.
    + rewrite !(filter_cons P y), IH.
      destruct (decide (P y)) as [HPy|HPy]; [|done].
      case_decide; [|done]. cbn [insert_by].
      by rewrite bool_decide_eq_false_2.
Qed.

(** Selecting from a list after the stable sort or before it gives the
    same list. *)
Lemma filter_sort_by {A} (key : A → Z) (P : A → Prop)
    `{!∀ x, Decision (P x)} (l : list A) :
  filter P (sort_by key l) = sort_by key (filter P l).
Proof.
  induction l as [|x l IH]; [done|].
  cbn [sort_by foldr]. fold (sort_by key l).
  rewrite filter_insert_by by apply sort_by_sorted.
  rewrite filter_cons, IH. by case_decide.
Qed.

Lemma filter_comm {A} (P Q : A → Prop) `{!∀ x, Decision (P x)}
    `{!∀ x, Decision (Q x)} (l : list A) :
  filter P (filter Q l) = filter Q (filter P l).
Proof.
  rewrite !list_filter_filter. apply list_filter_iff. intros x. tauto.
Qed.

Lemma list_to_set_ext (l1 l2 : list Z) :
  (∀ x, x ∈ l1 ↔ x ∈ l2) →
  list_to_set l1 = (list_to_set l2 : gset Z).
Proof.
  intros Hext. apply set_eq. intros x.
  by rewrite !elem_of_list_to_set.
Qed.

(** The document depends on the trades only through the list of trades of
    each region: two lists that agree region by region give the same
    document. *)
Lemma write_trades_region_ext fobj l1 l2 :
  (∀ r, filter (λ x, t_region_id x = r) l1
        = filter (λ x, t_region_id x = r) l2) →
  write_trades fobj l1 = write_trades fobj l2.
Proof.
  intros Hreg.
  assert (∀ x, x ∈ l1 ↔ x ∈ l2) as Hmem.
  { intros x. split; intros Hx.
    - assert (x ∈ filter (λ y, t_region_id y = t_region_id x) l1) as Hin
        by (by apply list_elem_of_filter).
      rewrite Hreg in Hin. by apply list_elem_of_filter in Hin as [_ ?].
    - assert (x ∈ filter (λ y, t_region_id y = t_region_id x) l2) as Hin
        by (by apply list_elem_of_filter).
      rewrite <- Hreg in Hin. by apply list_elem_of_filter in Hin as [_ ?]. }
  assert (∀ ty r,
    filter (λ x, t_region_id x = r)
      (sort_by t_timestamp (filter (λ x, t_type_id x = ty) l1)) =
    filter (λ x, t_region_id x = r)
      (sort_by t_timestamp (filter (λ x, t_type_id x = ty) l2))) as Hblock.
  { intros ty r. rewrite !filter_sort_by. f_equal.
    rewrite !(filter_comm (λ x, t_region_id x = r)). by rewrite Hreg. }
  rewrite !write_trades_render. f_equal. unfold type_blocks.
  rewrite (list_to_set_ext (t_type_id <$> l1) (t_type_id <$> l2)).
  2:{ intros ty. rewrite !list_elem_of_fmap. by setoid_rewrite Hmem. }
  f_equal. apply list_fmap_ext. intros _ ty _. f_equal.
  unfold region_blocks.
  rewrite (list_to_set_ext
             (t_region_id <$> sort_by t_timestamp
                                (filter (λ x, t_type_id x = ty) l1))
             (t_region_id <$> sort_by t_timestamp
                                (filter (λ x, t_type_id x = ty) l2))).
  2:{ intros r. rewrite !list_elem_of_fmap.
      setoid_rewrite elem_of_sort_by. setoid_rewrite list_elem_of_filter.
      by setoid_rewrite Hmem. }
  apply list_fmap_ext. intros _ r _. f_equal. apply Hblock.
Qed.

(** X13: the written document depends on the trades only through the
    list of trades of each region: two trade lists that agree region by
    region, however their regions are interleaved, give the same file. *)
Theorem write_trades_by_region fobj l1 l2 :
  (∀ r, filter (λ x, t_region_id x = r) l1
        = filter (λ x, t_region_id x = r) l2) →
  write_trades fobj l1 = write_trades fobj l2.
Proof. apply write_trades_region_ext. Qed.

Lemma write_trades_by_region_witness :
  write_trades [] [ex_trade 100 10 5 1; ex_trade 100 20 3 2]
    = write_trades [] [ex_trade 100 20 3 2; ex_trade 100 10 5 1].
Proof.
  apply (write_trades_by_region []
           [ex_trade 100 10 5 1; ex_trade 100 20 3 2]
           [ex_trade 100 20 3 2; ex_trade 100 10 5 1]).
  intros r. rewrite !filter_cons, !filter_nil. cbn [t_region_id ex_trade].
  repeat case_decide; (done || lia).
Defined.

Lemma filter_region_events type_set region_set obf mhf r :
  NoDup region_set →
  filter (λ x, t_region_id x = r)
    (region_set ≫= region_events type_set obf mhf) =
  if decide (r ∈ region_set) then region_events type_set obf mhf r else [].
Proof.
  intros Hnd.
  assert (∀ R e, e ∈ region_events type_set obf mhf R → t_region_id e = R)
    as Hkey.
  { intros R e (p & He & _)%list_elem_of_bind.
    apply pair_events_origin in He as [a Ha].
    by apply trade_origin_fields in Ha as (? & _). }
  case_decide as Hr.
  - apply (filter_bind_self t_region_id); [done..|].
    intros R e _. apply Hkey.
  - apply filter_none. intros e (R & He & HR)%list_elem_of_bind Heq.
    apply Hkey in He. congruence.
Qed.

(** X14: the file does not depend on the order in which the regions are
    visited: for two orderings of the same regions [infer_trades] followed
    by [write_trades] writes the same document. *)
Theorem written_document_region_order type_set rs1 rs2 obf mhf fobj :
  NoDup rs1 → rs1 ≡ₚ rs2 → unique_order_ids obf rs1 →
  ∃ evs1 evs2,
    infer_trades type_set rs1 obf mhf = Ok evs1
    ∧ infer_trades type_set rs2 obf mhf = Ok evs2
    ∧ write_trades fobj evs1 = write_trades fobj evs2.
Proof.
  intros Hnd Hperm Hu.
  assert (unique_order_ids obf rs2) as Hu2.
  { unfold unique_order_ids in *. by rewrite <- Hperm. }
  assert (NoDup rs2) as Hnd2 by (by rewrite <- Hperm).
  exists (rs1 ≫= region_events type_set obf mhf),
         (rs2 ≫= region_events type_set obf mhf).
  split_and!; [by apply infer_trades_Ok..|].
  apply write_trades_region_ext. intros r.
  rewrite !filter_region_events by done.
  destruct (decide (r ∈ rs1)) as [H1|H1].
  - rewrite decide_True; [done|]. by rewrite <- Hperm.
  - rewrite decide_False; [done|]. by rewrite <- Hperm.
Qed.

Lemma written_document_region_order_witness :
  ∃ evs1 evs2,
    infer_trades [34] [10; 20] cx_book cx_history = Ok evs1
    ∧ infer_trades [34] [20; 10] cx_book cx_history = Ok evs2
    ∧ write_trades [] evs1 = write_trades [] evs2.
Proof.
  apply (written_document_region_order [34] [10; 20] [20; 10]
           cx_book cx_history []).
  - apply (bool_decide_unpack _). by vm_compute.
  - apply Permutation_swap.
  - unfold unique_order_ids. apply (bool_decide_unpack _). by vm_compute.
Defined.

(** * Further properties of the batch accumulator *)

Lemma write_trades_nil fobj : write_trades fobj [] = fobj.
Proof.
  unfold write_trades, sorted_elements. cbn [fmap list_fmap list_to_set].
  rewrite elements_empty. cbn. apply app_nil_r.
Qed.

Lemma documents_snoc get_data_frame compute_date fout0 batches batch :
  documents get_data_frame compute_date fout0 (batches ++ [batch]) =
    write_trades (documents get_data_frame compute_date fout0 batches)
      (ok_list (infer_trades_helper get_data_frame batch compute_date)).
Proof. unfold documents. by rewrite foldl_app. Qed.

Lemma helper_and_write_run_ok get_data_frame type_batch_size compute_date
    fout0 (s : env) :
  run_ok get_data_frame type_batch_size compute_date fout0 s →
  run_ok get_data_frame type_batch_size compute_date fout0
    (helper_and_write get_data_frame compute_date (next_types s) s).1.
Proof.
  intros (Hc & Hlen & Hrows & Hfout). rewrite helper_and_write_eq.
  destruct (infer_trades_helper _ _ _) as [inferred|e] eqn:Hh;
    cbn [fst]; unfold run_ok; cbn [type_count next_types fout flushed];
    rewrite documents_snoc, Hh, <- Hfout; cbn [ok_list];
    rewrite ?write_trades_nil; done.
Qed.

Lemma find_trades_run_ok get_data_frame type_batch_size compute_date fout0
    type_id df (s : env) :
  run_ok get_data_frame type_batch_size compute_date fout0 s →
  run_ok get_data_frame type_batch_size compute_date fout0
    (find_trades get_data_frame type_batch_size compute_date type_id df s).1.
Proof.
  intros Hok. pose proof Hok as (Hc & Hlen & Hrows & Hfout).
  destruct (decide (type_count s < type_batch_size)) as [Hlt|Hge].
  - rewrite find_trades_room by done. case_bool_decide as Hdf; [|done].
    cbn [fst]. unfold run_ok. cbn [type_count next_types fout flushed].
    rewrite length_app. cbn [length]. split_and!; [lia|lia| |done].
    apply Forall_app. split; [done|]. by apply Forall_singleton.
  - rewrite find_trades_full by lia.
    destruct (infer_trades_helper _ _ _) as [inferred|e] eqn:Hh;
      cbn [fst]; unfold run_ok; cbn [type_count next_types fout flushed];
      rewrite documents_snoc, Hh, <- Hfout; cbn [ok_list length];
      rewrite ?write_trades_nil; split_and!; (done || lia).
Qed.

Lemma read_books_run_ok get_data_frame type_batch_size compute_date fout0
    (books : list book) (s : env) :
  run_ok get_data_frame type_batch_size compute_date fout0 s →
  run_ok get_data_frame type_batch_size compute_date fout0
    (read_books (find_trades get_data_frame type_batch_size compute_date)
       books s).1.
Proof.
  revert s. induction books as [|[ty df] books IH]; intros s Hok; [done|].
  cbn [read_books]. unfold m_bind.
  pose proof (find_trades_run_ok _ _ _ _ ty df s Hok) as Hstep.
  destruct (find_trades _ _ _ ty df s) as [s1 [[]|e]]; cbn [fst] in *.
  - by apply IH.
  - done.
Qed.

(** X15: at every point of the callback loop, whatever order books have
    been offered, the counter equals the number of buffered order books,
    the buffer holds at most [type_batch_size] of them (none when the size
    is not positive), and every buffered order book has rows. *)
Theorem buffer_bounded get_data_frame type_batch_size compute_date
    (books : list book) fout0 :
  let s := (read_books
              (find_trades get_data_frame type_batch_size compute_date)
              books
              {| type_count := 0; next_types := []; fout := fout0;
                 flushed := [] |}).1 in
  type_count s = Z.of_nat (length (next_types s))
  ∧ (length (next_types s) ≤ Z.to_nat type_batch_size)%nat
  ∧ Forall (λ b : book, (0 < length b.2)%nat) (next_types s).
Proof.
  intros s.
  assert (run_ok get_data_frame type_batch_size compute_date fout0 s)
    as (? & ? & ? & _); [|done].
  apply read_books_run_ok. unfold run_ok. cbn. split_and!; (done || lia).
Qed.

Lemma extract_trades_run_ok get_data_frame type_batch_size compute_date
    (books : list book) fout0 :
  run_ok get_data_frame type_batch_size compute_date fout0
    (extract_trades get_data_frame type_batch_size compute_date
       (Some books) fout0).1.
Proof.
  unfold extract_trades, read_bulk_file. unfold m_bind at 1.
  pose proof (read_books_run_ok get_data_frame type_batch_size compute_date
                fout0 books
                {| type_count := 0; next_types := []; fout := fout0;
                   flushed := [] |}) as Hrun.
  assert (run_ok get_data_frame type_batch_size compute_date fout0
            (read_books
               (find_trades get_data_frame type_batch_size compute_date)
               books
               {| type_count := 0; next_types := []; fout := fout0;
                  flushed := [] |}).1) as Hok
    by (apply Hrun; unfold run_ok; cbn; split_and!; (done || lia)).
  clear Hrun.
  destruct (read_books _ books _) as [s1 [[]|e]]; cbn [fst] in *; [|done].
  unfold m_bind at 1.
  destruct (decide (type_count s1 < type_batch_size)) as [Hlt|Hge].
  - rewrite end_read_room by done.
    pose proof (helper_and_write_run_ok _ _ _ _ _ Hok) as Hf.
    destruct (helper_and_write _ _ _ s1) as [s2 [[]|e]];
      unfold m_ret; by cbn [fst] in *.
  - rewrite end_read_full by lia. by unfold m_ret.
Qed.

(** X16: whatever the archive and however the run ends, the output file
    holds what it held at the start followed by one document per call of
    [infer_trades_helper], in call order; a call that raised wrote
    nothing. *)
Theorem file_is_documents_of_batches get_data_frame type_batch_size
    compute_date (books : list book) fout0 :
  let s := (extract_trades get_data_frame type_batch_size compute_date
              (Some books) fout0).1 in
  fout s = documents get_data_frame compute_date fout0 (flushed s).
Proof.
  intros s.
  by destruct (extract_trades_run_ok get_data_frame type_batch_size
                 compute_date books fout0) as (_ & _ & _ & ?).
Qed.

Lemma partial_batch_flushed_once_witness :
  flushed (extract_trades no_history 200 20170101
             (Some [(34, ex_rows 34 1); (35, ex_rows 35 2)]) []).1
    = [[(34, ex_rows 34 1); (35, ex_rows 35 2)]].
Proof.
  apply (partial_batch_flushed_once no_history 200 20170101
           [(34, ex_rows 34 1); (35, ex_rows 35 2)] []).
  - repeat constructor; done.
  - cbn. lia.
Defined.

Lemma read_books_app batch_callback (l1 l2 : list book) (s : env) :
  read_books batch_callback (l1 ++ l2) s =
    match read_books batch_callback l1 s with
    | (s', Ok _) => read_books batch_callback l2 s'
    | (s', Raise e) => (s', Raise e)
    end.
Proof.
  revert s. induction l1 as [|[ty df] l1 IH]; intros s; [done|].
  cbn [app read_books]. unfold m_bind.
  destruct (batch_callback ty df s) as [s1 [[]|e]]; [apply IH|done].
Qed.

Lemma Forall_rows_ne (books : list book) :
  Forall (λ b : book, (0 < length b.2)%nat) books →
  Forall (λ b : book, b.2 ≠ []) books.
Proof.
  intros H. eapply Forall_impl; [exact H|].
  intros [ty df] Hlen Hnil. cbn in *. rewrite Hnil in Hlen. cbn in Hlen. lia.
Qed.

(** A run from an empty buffer over at least [b + 1] order books with
    rows: the first [b] are flushed, the next one is dropped, and the run
    goes on from an empty buffer. *)
Lemma run_chunk get_data_frame (b : nat) compute_date (books : list book)
    f0 fl0 :
  (S b ≤ length books)%nat →
  Forall (λ b : book, (0 < length b.2)%nat) books →
  read_bulk_file (Some books)
    (find_trades get_data_frame (Z.of_nat b) compute_date)
    (end_read get_data_frame (Z.of_nat b) compute_date)
    {| type_count := 0; next_types := []; fout := f0; flushed := fl0 |} =
  match infer_trades_helper get_data_frame (take b books) compute_date with
  | Ok inferred =>
      read_bulk_file (Some (drop (S b) books))
        (find_trades get_data_frame (Z.of_nat b) compute_date)
        (end_read get_data_frame (Z.of_nat b) compute_date)
        {| type_count := 0; next_types := [];
           fout := write_trades f0 inferred;
           flushed := fl0 ++ [take b books] |}
  | Raise e =>
      ({| type_count := Z.of_nat b; next_types := take b books;
          fout := f0; flushed := fl0 ++ [take b books] |}, Raise e)
  end.
Proof.
  intros Hlen Hrows.
  destruct (lookup_lt_is_Some_2 books b) as [[ty df] Hx]; [lia|].
  assert (books = take b books ++ (ty, df) :: drop (S b) books) as Hsplit
    by (by rewrite take_drop_middle).
  unfold read_bulk_file. rewrite Hsplit at 1. unfold m_bind at 1.
  rewrite read_books_app.
  rewrite read_books_buffers.
  2:{ apply Forall_rows_ne. by apply Forall_take. }
  2:{ cbn [type_count]. rewrite length_take. lia. }
  cbn [type_count next_types fout flushed app].
  rewrite length_take, Nat.min_l by lia. rewrite Z.add_0_l.
  cbn [read_books]. unfold m_bind at 1.
  rewrite find_trades_full by (cbn [type_count]; lia).
  cbn [type_count next_types fout flushed].
  destruct (infer_trades_helper _ _ _) as [inferred|e]; [|done].
  by unfold m_bind at 3.
Qed.

(** A run from an empty buffer over at most [b] order books with rows. *)
Lemma run_base get_data_frame (b : nat) compute_date (books : list book)
    f0 fl0 :
  (length books ≤ b)%nat →
  Forall (λ b : book, (0 < length b.2)%nat) books →
  read_bulk_file (Some books)
    (find_trades get_data_frame (Z.of_nat b) compute_date)
    (end_read get_data_frame (Z.of_nat b) compute_date)
    {| type_count := 0; next_types := []; fout := f0; flushed := fl0 |} =
  if bool_decide (length books < b)%nat then
    match infer_trades_helper get_data_frame books compute_date with
    | Ok inferred =>
        ({| type_count := Z.of_nat (length books); next_types := books;
            fout := write_trades f0 inferred;
            flushed := fl0 ++ [books] |}, Ok true)
    | Raise e =>
        ({| type_count := Z.of_nat (length books); next_types := books;
            fout := f0; flushed := fl0 ++ [books] |}, Raise e)
    end
  else
    ({| type_count := Z.of_nat (length books); next_types := books;
        fout := f0; flushed := fl0 |}, Ok true).
Proof.
  intros Hlen Hrows. unfold read_bulk_file. unfold m_bind at 1.
  rewrite read_books_buffers by (by apply Forall_rows_ne || (cbn; lia)).
  cbn [type_count next_types fout flushed app]. rewrite Z.add_0_l.
  unfold m_bind at 1. case_bool_decide as Hlt.
  - rewrite end_read_room by (cbn [type_count]; lia).
    rewrite helper_and_write_eq. cbn [type_count next_types fout flushed].
    by destruct (infer_trades_helper _ _ _).
  - by rewrite end_read_full by (cbn [type_count]; lia).
Qed.

Lemma batch_window_drop (b : nat) (books : list book) i :
  batch_window b (drop (S b) books) i = batch_window b books (S i).
Proof.
  unfold batch_window. by rewrite drop_drop.
Qed.

Lemma run_batches get_data_frame (b : nat) compute_date q :
  ∀ (books : list book) r f0 fl0 s,
  (1 ≤ b)%nat →
  Forall (λ b : book, (0 < length b.2)%nat) books →
  length books = (q * S b + r)%nat → (r ≤ b)%nat →
  read_bulk_file (Some books)
    (find_trades get_data_frame (Z.of_nat b) compute_date)
    (end_read get_data_frame (Z.of_nat b) compute_date)
    {| type_count := 0; next_types := []; fout := f0; flushed := fl0 |}
    = (s, Ok true) →
  r ≠ 0%nat
  ∧ flushed s =
      fl0 ++ (batch_window b books
                <$> seq 0 (q + if bool_decide (r < b)%nat then 1 else 0)).
Proof.
  induction q as [|q IH]; intros books r f0 fl0 s Hb Hrows Hlen Hr Hrun.
  - cbn [Nat.mul Nat.add] in *.
    rewrite run_base in Hrun by (done || lia).
    rewrite Hlen in Hrun. case_bool_decide as Hlt.
    + destruct (infer_trades_helper _ _ _) as [inferred|e] eqn:Hh; [|done].
      injection Hrun as <-. cbn [flushed seq fmap list_fmap]. split.
      * intros ->. destruct books; [|done].
        by rewrite infer_trades_helper_eq in Hh.
      * f_equal. unfold batch_window. cbn [Nat.mul].
        by rewrite drop_0, take_ge by lia.
    + injection Hrun as <-. cbn [flushed seq fmap list_fmap].
      split; [lia|by rewrite app_nil_r].
  - rewrite run_chunk in Hrun by (done || lia).
    destruct (infer_trades_helper _ _ _) as [inferred|e]; [|done].
    apply IH with (r := r) in Hrun as [Hr0 Hfl]; [..|done].
    + split; [done|]. rewrite Hfl, <- app_assoc. f_equal.
      cbn [Nat.add seq fmap list_fmap app].
      change (batch_window b books 0) with (take b books). f_equal.
      rewrite <- fmap_S_seq, <- list_fmap_compose.
      apply list_fmap_ext. intros _ i _. apply batch_window_drop.
    + done.
    + by apply Forall_drop.
    + rewrite length_drop. lia.
Qed.

(** X19: a run with batch size [b ≥ 1] over [q * (b + 1) + r] order books
    with rows ([r ≤ b]) that completes normally has processed exactly the
    windows of [b] books that start at the multiples of [b + 1]: [q] full
    batches, and the last [r] books only when [r < b]. So every
    [(b + 1)]-th book is left out, a remainder of exactly [b] books is
    never processed, and no run with [r = 0] completes normally. *)
Theorem batches_processed get_data_frame (b : nat) compute_date
    (books : list book) fout0 q r s :
  (1 ≤ b)%nat →
  Forall (λ b : book, (0 < length b.2)%nat) books →
  length books = (q * S b + r)%nat → (r ≤ b)%nat →
  extract_trades get_data_frame (Z.of_nat b) compute_date (Some books) fout0
    = (s, Ok true) →
  r ≠ 0%nat
  ∧ flushed s =
      batch_window b books
        <$> seq 0 (q + if bool_decide (r < b)%nat then 1 else 0).
Proof.
  intros Hb Hrows Hlen Hr Hrun. unfold extract_trades in Hrun.
  by apply (run_batches _ _ _ q books r fout0 [] s) in Hrun.
Qed.

Lemma batches_processed_witness :
  1%nat ≠ 0%nat
  ∧ flushed (extract_trades no_history 2 20170101 (Some ex_four_books) []).1
    = batch_window 2 ex_four_books <$> seq 0 2.
Proof.
  apply (batches_processed no_history 2 20170101 ex_four_books [] 1 1
           (extract_trades no_history 2 20170101 (Some ex_four_books) []).1).
  - lia.
  - repeat constructor; cbn; lia.
  - reflexivity.
  - lia.
  - by vm_compute.
Defined.

(** X20: with a batch size that is zero or negative, the first offer,
    whatever it holds, finds the buffer "full", calls
    [infer_trades_helper] on the empty buffer and the run stops with
    [IndexError] before anything is buffered or written. *)
Theorem nonpositive_batch_size_raises get_data_frame type_batch_size
    compute_date (books : list book) fout0 :
  type_batch_size ≤ 0 → books ≠ [] →
  extract_trades get_data_frame type_batch_size compute_date (Some books)
    fout0 =
  ({| type_count := 0; next_types := []; fout := fout0; flushed := [[]] |},
   Raise IndexError).
Proof.
  intros Hsize Hne. destruct books as [|[ty df] books]; [done|].
  unfold extract_trades, read_bulk_file. unfold m_bind at 1.
  cbn [read_books]. unfold m_bind at 1.
  rewrite find_trades_full by (cbn [type_count]; lia).
  cbn [next_types]. by rewrite infer_trades_helper_eq.
Qed.

Lemma nonpositive_batch_size_raises_witness :
  extract_trades no_history 0 20170101 (Some [(34, ex_rows 34 1)]) [] =
  ({| type_count := 0; next_types := []; fout := []; flushed := [[]] |},
   Raise IndexError).
Proof.
  apply (nonpositive_batch_size_raises no_history 0 20170101
           [(34, ex_rows 34 1)] []); [lia|done].
Defined.

(** * Properties of the frame built by [read_bulk_file] *)

Lemma foldl_bind {A B C} (f : A → C → A) (g : B → list C) (l : list B) a :
  foldl f a (l ≫= g) = foldl (λ a x, foldl f a (g x)) a l.
Proof.
  revert a. induction l as [|x l IH]; intros a; [done|].
  by rewrite bind_cons, foldl_app, IH.
Qed.

Lemma foldl_fmap_list {A B C} (f : A → C → A) (g : B → C) (l : list B) a :
  foldl f a (g <$> l) = foldl (λ a x, f a (g x)) a l.
Proof. revert a. induction l as [|x l IH]; intros a; [done|]. apply IH. Qed.

Lemma foldl_ext_all {A B} (f g : A → B → A) (l : list B) a :
  (∀ a x, f a x = g a x) → foldl f a l = foldl g a l.
Proof.
  intros Hfg. revert a. induction l as [|x l IH]; intros a; [done|].
  cbn [foldl]. by rewrite Hfg, IH.
Qed.

Lemma stamp_book_visits ty book :
  stamp_book ty book = foldl (stamp_visit ty) (∅, []) (visits book).
Proof.
  unfold stamp_book, visits. rewrite foldl_bind.
  apply foldl_ext_all. intros st [R snaps].
  unfold stamp_region, region_visits. cbn [fst snd]. rewrite foldl_bind.
  apply foldl_ext_all. intros st' snap.
  unfold stamp_snapshot, snapshot_visits. by rewrite foldl_fmap_list.
Qed.

Lemma stamp_visits_list ty vs st :
  (foldl (stamp_visit ty) st vs).2 = st.2 ++ vs.*1.
Proof.
  revert st. induction vs as [|v vs IH]; intros st; cbn [foldl].
  - by rewrite app_nil_r.
  - rewrite IH. unfold stamp_visit, stamp_order. cbn [fst snd].
    by rewrite <- app_assoc.
Qed.

Lemma last_visit_cons v vs a :
  last_visit (v :: vs) a =
    match last_visit vs a with
    | Some c => Some c
    | None => if decide (v.1 = a) then Some v.2 else None
    end.
Proof.
  unfold last_visit. rewrite filter_cons.
  destruct (decide (v.1 = a)) as [Hv|Hv]; [|by destruct (last _)].
  destruct (filter (λ v0, v0.1 = a) vs) as [|w ws] eqn:Hf; [done|].
  rewrite last_cons. by destruct (last (w :: ws)).
Qed.

Lemma stamp_visits_lookup ty vs st a :
  (foldl (stamp_visit ty) st vs).1 !! a =
    match last_visit vs a with
    | Some c => Some (c.1, ty, c.2)
    | None => st.1 !! a
    end.
Proof.
  revert st. induction vs as [|v vs IH]; intros st; [done|].
  cbn [foldl]. rewrite IH, last_visit_cons.
  destruct (last_visit vs a) as [c|]; [done|].
  unfold stamp_visit, stamp_order. cbn [fst snd].
  destruct (decide (v.1 = a)) as [<-|Hv].
  - by rewrite lookup_insert_eq.
  - by rewrite lookup_insert_ne.
Qed.

Lemma last_visit_elem vs a c :
  (a, c) ∈ vs → ∃ c', last_visit vs a = Some c'.
Proof.
  induction vs as [|v vs IH]; [by intros ?%elem_of_nil|].
  rewrite last_visit_cons. intros [Heq|Hin]%elem_of_cons.
  - subst v. destruct (last_visit vs a); [by eexists|]. cbn [fst snd].
    rewrite decide_True by done. by eexists.
  - destruct (IH Hin) as [c' ->]. by eexists.
Qed.

Lemma last_visit_Some vs a c :
  last_visit vs a = Some c → (a, c) ∈ vs.
Proof.
  induction vs as [|[a' c'] vs IH]; [done|].
  rewrite last_visit_cons.
  destruct (last_visit vs a) as [c''|].
  - intros [= ->]. right. by apply IH.
  - cbn [fst snd]. destruct (decide (a' = a)) as [<-|]; [|done].
    intros [= <-]. left.
Qed.

Lemma last_visit_NoDup vs a c :
  NoDup vs.*1 → (a, c) ∈ vs → last_visit vs a = Some c.
Proof.
  intros Hnd Hin. destruct (last_visit_elem vs a c Hin) as [c' Hc'].
  rewrite Hc'. f_equal.
  apply last_visit_Some in Hc'.
  assert (NoDup ((λ v : nat * (Z * Z), Z.of_nat v.1) <$> vs)) as Hnd'.
  { change (NoDup ((Z.of_nat ∘ fst) <$> vs)).
    rewrite list_fmap_compose. by apply (NoDup_fmap_2 _). }
  assert ((a, c') = (a, c)) as [= ->]; [|done].
  by apply (NoDup_fmap_eq (λ v, Z.of_nat v.1) vs).
Qed.

(** The frame, row by row: the attributes of the visited object with the
    time and the region of the last visit of that object. *)
Lemma build_frame_visits objs ty book :
  build_frame objs ty book =
    (λ v, visit_row objs ty (v.1, default v.2 (last_visit (visits book) v.1)))
      <$> visits book.
Proof.
  unfold build_frame. cbn zeta.
  rewrite stamp_book_visits, stamp_visits_list. cbn [snd app].
  assert (∀ vs : list (nat * (Z * Z)),
            (∀ v, v ∈ vs → v ∈ visits book) →
            omap (λ a, (λ c : Z * Z * Z, frame_row (objs a) c.1.1 c.1.2 c.2)
                         <$> (foldl (stamp_visit ty) (∅, []) (visits book)).1
                               !! a) vs.*1 =
            (λ v, visit_row objs ty
                    (v.1, default v.2 (last_visit (visits book) v.1)))
              <$> vs) as Hgen.
  { induction vs as [|[a c] vs IH]; intros Hsub; [done|].
    rewrite !fmap_cons. cbn [omap list_omap fst snd].
    rewrite stamp_visits_lookup.
    destruct (last_visit_elem (visits book) a c) as [c' Hc'];
      [apply Hsub; left|].
    rewrite Hc'. cbn [fmap option_fmap option_map default fst snd].
    unfold visit_row at 1. cbn [fst snd].
    f_equal. apply IH. intros v Hv. apply Hsub. by right. }
  by apply Hgen.
Qed.

(** Without sharing, each row carries the time and region of its own
    visit. *)
Lemma build_frame_fresh objs ty book :
  NoDup (visits book).*1 →
  build_frame objs ty book = visit_row objs ty <$> visits book.
Proof.
  intros Hnd. rewrite build_frame_visits.
  apply list_fmap_ext. intros i [a c] Hi. cbn [fst snd].
  rewrite (last_visit_NoDup _ a c); [done..|].
  by apply list_elem_of_lookup_2 in Hi.
Qed.

Lemma filter_fmap_list {A B} (f : A → B) (P : B → Prop)
    `{!∀ y, Decision (P y)} (l : list A) :
  filter P (f <$> l) = f <$> filter (λ x, P (f x)) l.
Proof.
  induction l as [|x l IH]; [done|].
  rewrite fmap_cons, !filter_cons, IH. by destruct (decide (P (f x))).
Qed.

Lemma sorted_lt_NoDup (l : list Z) : StronglySorted Z.lt l → NoDup l.
Proof.
  induction 1 as [|x l _ IH Hx]; constructor; [|done].
  intros Hin. rewrite Forall_forall in Hx. specialize (Hx x Hin). lia.
Qed.

Lemma sorted_elements_sorted (l : list Z) :
  StronglySorted Z.lt l → sorted_elements (list_to_set l) = l.
Proof.
  intros Hs. apply (StronglySorted_unique_strong Z.lt).
  - intros x1 x2 _ _ ? ?. lia.
  - apply sorted_elements_lt.
  - done.
  - apply NoDup_Permutation.
    + apply NoDup_sorted_elements.
    + by apply sorted_lt_NoDup.
    + intros x. by rewrite elem_of_sorted_elements, elem_of_list_to_set.
Qed.

Lemma sorted_fmap_filter {A} (f : A → Z) (P : A → Prop)
    `{!∀ x, Decision (P x)} (l : list A) :
  StronglySorted Z.lt (f <$> l) → StronglySorted Z.lt (f <$> filter P l).
Proof.
  induction l as [|x l IH]; [done|].
  rewrite fmap_cons. intros Hs. inversion Hs as [|? ? Hl Hx]; subst.
  rewrite filter_cons. destruct (decide (P x)); [|by apply IH].
  rewrite fmap_cons. constructor; [by apply IH|].
  rewrite Forall_forall in Hx. apply Forall_forall. intros y Hy.
  apply Hx. apply list_elem_of_fmap in Hy as (z & -> & Hz).
  apply list_elem_of_filter in Hz as [_ Hz].
  apply list_elem_of_fmap. by exists z.
Qed.

(** The rows of one region: its snapshots, in order. *)
Lemma region_rows objs ty book R snaps :
  NoDup (visits book).*1 → NoDup book.*1 → (R, snaps) ∈ book →
  filter (λ r, region_id r = R) (build_frame objs ty book) =
    visit_row objs ty <$> (snaps ≫= snapshot_visits R).
Proof.
  intros Hfresh Hkeys Hin.
  rewrite build_frame_fresh, filter_fmap_list by done. f_equal.
  apply (filter_bind_key fst (λ v : nat * (Z * Z), v.2.2) region_visits book
           (R, snaps)); [done..|].
  intros [R' snaps'] v _ (s & Hv & _)%list_elem_of_bind.
  by apply list_elem_of_fmap in Hv as (a & -> & _).
Qed.

(** The rows of one snapshot time within a region. *)
Lemma snapshot_rows objs ty R (snaps : list snapshot) s :
  NoDup (snapshot_time <$> snaps) → s ∈ snaps →
  filter (λ r, date r = snapshot_time s)
    (visit_row objs ty <$> (snaps ≫= snapshot_visits R)) =
  (λ a, frame_row (objs a) (snapshot_time s) ty R) <$> (bid s ++ ask s).
Proof.
  intros Hnd Hs. rewrite filter_fmap_list.
  trans (visit_row objs ty <$> snapshot_visits R s).
  - f_equal.
    apply (filter_bind_key snapshot_time (λ v : nat * (Z * Z), v.2.1)
             (snapshot_visits R) snaps s); [done..|].
    intros s' v _ Hv.
    by apply list_elem_of_fmap in Hv as (a & -> & _).
  - unfold snapshot_visits. by rewrite <- list_fmap_compose.
Qed.

Lemma region_dates objs ty R (snaps : list snapshot) :
  list_to_set (C := gset Z)
    (date <$> (visit_row objs ty <$> (snaps ≫= snapshot_visits R))) =
  list_to_set (snapshot_time <$> filter (λ s, bid s ++ ask s ≠ []) snaps).
Proof.
  apply set_eq. intros k. rewrite !elem_of_list_to_set. split.
  - intros (r & -> & (v & -> & Hv)%list_elem_of_fmap)%list_elem_of_fmap.
    apply list_elem_of_bind in Hv as (s & Hv & Hs).
    apply list_elem_of_fmap in Hv as (a & -> & Ha).
    apply list_elem_of_fmap. exists s. split; [done|].
    apply list_elem_of_filter. split; [|done].
    intros Hnil. rewrite Hnil in Ha. by apply elem_of_nil in Ha.
  - intros (s & -> & [Hne Hs]%list_elem_of_filter)%list_elem_of_fmap.
    destruct (bid s ++ ask s) as [|a l] eqn:Hl; [done|].
    apply list_elem_of_fmap.
    exists (visit_row objs ty (a, (snapshot_time s, R))). split; [done|].
    apply list_elem_of_fmap. eexists. split; [done|].
    apply list_elem_of_bind. exists s. split; [|done].
    unfold snapshot_visits. rewrite Hl. left.
Qed.

Lemma frame_snapshots_eq objs ty book R snaps :
  NoDup (visits book).*1 → NoDup book.*1 → (R, snaps) ∈ book →
  StronglySorted Z.lt (snapshot_time <$> snaps) →
  snapshots (build_frame objs ty book) R =
    (λ s, (snapshot_time s,
           (λ a, frame_row (objs a) (snapshot_time s) ty R)
             <$> (bid s ++ ask s)))
      <$> filter (λ s, bid s ++ ask s ≠ []) snaps.
Proof.
  intros Hfresh Hkeys Hin Hsorted.
  unfold snapshots, groupby_index.
  rewrite (region_rows objs ty book R snaps) by done.
  rewrite region_dates, sorted_elements_sorted
    by by apply sorted_fmap_filter.
  rewrite <- list_fmap_compose.
  apply list_fmap_ext. intros i s Hs. cbn [compose]. f_equal.
  apply snapshot_rows; [by apply sorted_lt_NoDup|].
  apply list_elem_of_lookup_2 in Hs.
  by apply list_elem_of_filter in Hs as [_ ?].
Qed.

Lemma fmap_bind_list {A B C} (f : B → C) (g : A → list B) (l : list A) :
  f <$> (l ≫= g) = l ≫= λ x, f <$> g x.
Proof.
  induction l as [|x l IH]; [done|]. by rewrite !bind_cons, fmap_app, IH.
Qed.

Lemma frame_without_sharing_eq objs ty book :
  NoDup (visits book).*1 →
  build_frame objs ty book =
    book ≫= λ item,
      item.2 ≫= λ snap,
        (λ a, frame_row (objs a) (snapshot_time snap) ty item.1)
          <$> (bid snap ++ ask snap).
Proof.
  intros Hnd. rewrite build_frame_fresh by done.
  unfold visits. rewrite fmap_bind_list. apply bind_ext_in. intros item _.
  unfold region_visits. rewrite fmap_bind_list.
  apply bind_ext_in. intros snap _.
  unfold snapshot_visits. by rewrite <- list_fmap_compose.
Qed.

Lemma elem_of_visits a t R book :
  (a, (t, R)) ∈ visits book ↔
  ∃ snaps s, (R, snaps) ∈ book ∧ s ∈ snaps ∧ snapshot_time s = t
             ∧ a ∈ bid s ++ ask s.
Proof.
  unfold visits. rewrite list_elem_of_bind. split.
  - intros ([R' snaps] & (s & Hv & Hs)%list_elem_of_bind & Hitem).
    cbn [fst snd] in *.
    apply list_elem_of_fmap in Hv as (a' & [= -> -> ->] & Ha).
    by exists snaps, s.
  - intros (snaps & s & Hitem & Hs & <- & Ha).
    exists (R, snaps). split; [|done].
    apply list_elem_of_bind. exists s. split; [|done].
    apply list_elem_of_fmap. by exists a.
Qed.

(** X21: the frame has one row per visit of the loops, in visit order,
    and the row of a visit holds the attributes of the visited object,
    the type of the book and the time and region of the LAST visit of
    that object: the dict of an object is shared by all its rows. *)
Theorem frame_rows_follow_last_visit objs ty book :
  Forall2
    (λ v row, ∃ c, last_visit (visits book) v.1 = Some c
                   ∧ row = frame_row (objs v.1) c.1 ty c.2)
    (visits book) (build_frame objs ty book).
Proof.
  rewrite build_frame_visits. apply Forall2_fmap_r, Forall_Forall2_diag.
  apply Forall_forall. intros [a c] Hin. cbn [fst snd].
  destruct (last_visit_elem _ _ _ Hin) as [c' Hc'].
  exists c'. split; [done|]. cbn [fst snd]. by rewrite Hc'.
Qed.

(** X22: when no order object is listed twice in the book, the frame is
    the flattening of the book: for each region in key order, each of its
    snapshots in order, each order of bid then ask, one row with the
    order's attributes, the snapshot's time, the book's type and the
    region. *)
Theorem frame_without_sharing objs ty book :
  NoDup (visits book).*1 →
  build_frame objs ty book =
    book ≫= λ item,
      item.2 ≫= λ snap,
        (λ a, frame_row (objs a) (snapshot_time snap) ty item.1)
          <$> (bid snap ++ ask snap).
Proof. apply frame_without_sharing_eq. Qed.

Lemma frame_without_sharing_witness :
  build_frame ex_objs 34 ex_order_book =
    ex_order_book ≫= λ item,
      item.2 ≫= λ snap,
        (λ a, frame_row (ex_objs a) (snapshot_time snap) 34 item.1)
          <$> (bid snap ++ ask snap).
Proof.
  apply (frame_without_sharing ex_objs 34 ex_order_book).
  apply (bool_decide_unpack _). by vm_compute.
Defined.

(** X23: when the same order object is visited twice, at positions [i]
    and [j] of the visit order, rows [i] and [j] of the frame are the
    same row: the earlier visit's time and region are overwritten. *)
Theorem shared_order_rows_identical objs ty book i j a c c' :
  visits book !! i = Some (a, c) → visits book !! j = Some (a, c') →
  ∃ row, build_frame objs ty book !! i = Some row
         ∧ build_frame objs ty book !! j = Some row.
Proof.
  intros Hi Hj. rewrite build_frame_visits, !list_lookup_fmap, Hi, Hj.
  cbn [fmap option_fmap option_map fst snd].
  destruct (last_visit_elem (visits book) a c) as [c'' Hc''];
    [by apply list_elem_of_lookup_2 in Hi|].
  rewrite Hc''. by eexists.
Qed.

Lemma shared_order_rows_identical_witness :
  ∃ row, build_frame ex_objs 34 shared_order_book !! 0%nat = Some row
         ∧ build_frame ex_objs 34 shared_order_book !! 1%nat = Some row.
Proof.
  apply (shared_order_rows_identical ex_objs 34 shared_order_book 0 1 1%nat
           (300, 10) (600, 10)); reflexivity.
Defined.

(** X24: every row of the frame carries the type passed for the book, a
    region key of the book, the time of a snapshot of that region, and
    the attributes of an order object listed in that snapshot. *)
Theorem frame_row_origin objs ty book r :
  r ∈ build_frame objs ty book →
  type_id r = ty
  ∧ ∃ snaps s a,
      (region_id r, snaps) ∈ book ∧ s ∈ snaps ∧ a ∈ bid s ++ ask s
      ∧ r = frame_row (objs a) (snapshot_time s) ty (region_id r).
Proof.
  rewrite build_frame_visits.
  intros ([a c] & -> & Hin)%list_elem_of_fmap. cbn [fst snd].
  destruct (last_visit_elem _ _ _ Hin) as [[t R] Hc].
  rewrite Hc. cbn [default]. split; [done|].
  apply last_visit_Some, elem_of_visits in Hc
    as (snaps & s & Hitem & Hs & <- & Ha).
  by exists snaps, s, a.
Qed.

Lemma frame_row_origin_witness :
  type_id (frame_row (ex_objs 1) 300 34 10) = 34
  ∧ ∃ snaps s a,
      (region_id (frame_row (ex_objs 1) 300 34 10), snaps) ∈ ex_order_book
      ∧ s ∈ snaps ∧ a ∈ bid s ++ ask s
      ∧ frame_row (ex_objs 1) 300 34 10 =
          frame_row (ex_objs a) (snapshot_time s) 34
            (region_id (frame_row (ex_objs 1) 300 34 10)).
Proof.
  apply (frame_row_origin ex_objs 34 ex_order_book
           (frame_row (ex_objs 1) 300 34 10)).
  rewrite (frame_without_sharing_eq ex_objs 34 ex_order_book)
    by (apply (bool_decide_unpack _); by vm_compute).
  left.
Defined.

(** X25: when no order object is listed twice, the region keys of the
    book are distinct and the snapshots of region [R] are in strictly
    ascending time order, the snapshots that [infer_trades] compares for
    [R] in the frame are exactly the non-empty snapshots of [R], in
    order, each with one row per order, bid then ask: an empty snapshot
    leaves no group. *)
Theorem frame_snapshots objs ty book R snaps :
  NoDup (visits book).*1 → NoDup book.*1 → (R, snaps) ∈ book →
  StronglySorted Z.lt (snapshot_time <$> snaps) →
  snapshots (build_frame objs ty book) R =
    (λ s, (snapshot_time s,
           (λ a, frame_row (objs a) (snapshot_time s) ty R)
             <$> (bid s ++ ask s)))
      <$> filter (λ s, bid s ++ ask s ≠ []) snaps.
Proof. apply frame_snapshots_eq. Qed.

Lemma frame_snapshots_witness :
  snapshots (build_frame ex_objs 34 ex_order_book) 10 =
    [ (300, [frame_row (ex_objs 1) 300 34 10;
             frame_row (ex_objs 2) 300 34 10]);
      (900, [frame_row (ex_objs 3) 900 34 10]) ].
Proof.
  apply (frame_snapshots ex_objs 34 ex_order_book 10
           [ {| snapshot_time := 300; bid := [1%nat]; ask := [2%nat] |};
             {| snapshot_time := 600; bid := []; ask := [] |};
             {| snapshot_time := 900; bid := []; ask := [3%nat] |} ]).
  - apply (bool_decide_unpack _). by vm_compute.
  - apply (bool_decide_unpack _). by vm_compute.
  - left.
  - apply (bool_decide_unpack _). by vm_compute.
Defined.

(** * Properties of the scan of the bulk file *)

Lemma m_seq_ext {A B} (m : M A) (k1 k2 : M B) :
  k1 = k2 → (m ;;! k1) = (m ;;! k2).
Proof. by intros ->. Qed.

Lemma fd_read_size file pos size :
  0 ≤ size → fd_read file pos size = Ok (take (Z.to_nat size) (drop pos file)).
Proof.
  intros Hsize. unfold fd_read.
  rewrite !bool_decide_eq_false_2 by lia. done.
Qed.

Lemma scan_types_tiles read_order_book cb file pos sm start :
  tiles start sm → 0 ≤ start →
  pos = (Z.to_nat start `min` length file)%nat →
  scan_types read_order_book cb file pos sm =
    read_books cb
      ((λ e, entry_book read_order_book e (slice file e)) <$> sm).
Proof.
  revert pos start. induction sm as [|e sm IH]; intros pos start; [done|].
  intros (Hstart & Hend & Hrest) Hpos ->.
  cbn [scan_types fmap list_fmap read_books entry_book].
  rewrite fd_read_size by lia.
  assert (take (Z.to_nat (e_end e - e_start e + 1))
            (drop (Z.to_nat start `min` length file) file) = slice file e)
    as Hbuff.
  { unfold slice. rewrite Hstart.
    destruct (decide (Z.to_nat start ≤ length file)%nat).
    - by rewrite Nat.min_l.
    - rewrite Nat.min_r by lia. by rewrite !drop_ge by lia. }
  rewrite Hbuff.
  change (m_bind (lift (Ok (slice file e))) ?k) with (k (slice file e)).
  cbn zeta. apply m_seq_ext.
  apply (IH _ (e_end e + 1)); [done|lia|].
  rewrite <- Hbuff, length_take, length_drop. lia.
Qed.

(** X26: when the index entries, taken in ascending order of [start],
    cover the bulk file from offset 0 without gap or overlap, the scan,
    which reads sequentially and never repositions the file, hands the
    callback for each type exactly the order book of the bytes the index
    designates for it, in ascending order of [start]. *)
Theorem scan_reads_index_slices read_order_book file index_map cb end_cb :
  tiles 0 (sorted_map index_map) →
  read_bulk_file_bytes read_order_book file index_map cb end_cb =
    read_bulk_file
      (Some ((λ e, entry_book read_order_book e (slice file e))
               <$> sorted_map index_map))
      cb end_cb.
Proof.
  intros Htiles. unfold read_bulk_file_bytes, read_bulk_file.
  by rewrite (scan_types_tiles _ _ _ _ _ 0) by (done || lia).
Qed.

Lemma scan_reads_index_slices_witness :
  read_bulk_file_bytes ex_read_order_book ex_file ex_index_map
    (find_trades no_history 2 20170101) (end_read no_history 2 20170101) =
  read_bulk_file
    (Some ((λ e, entry_book ex_read_order_book e (slice ex_file e))
             <$> sorted_map ex_index_map))
    (find_trades no_history 2 20170101) (end_read no_history 2 20170101).
Proof.
  apply (scan_reads_index_slices ex_read_order_book ex_file ex_index_map).
  vm_compute. repeat split; discriminate.
Defined.
